(** * Reconciliation and validation engine of the hourly OHLCV feed

    A shallow embedding of [cex_data_feed/binance/validation.py],
    [cex_data_feed/binance/db.py], [cex_data_feed/binance/api.py]
    ([klines_to_dataframe], [compute_target_hour]),
    [cex_data_feed/binance/cli.py] ([run_once], [main]), of
    [clean_transform] and [insert_into_duckdb] in
    [cex_data_feed/scripts/backfill_ohlcv_binance_1h_from_csv.py] and of
    [cex_data_feed/scripts/backfill_recent_from_api.py] ([run_once],
    [main]), followed by the properties of the specification that
    concern them and by further properties of the code.

    Conventions of the embedding.
    - A pandas [DataFrame] is the list of its rows, in positional order.
    - A timestamp is an integer number of milliseconds since the epoch:
      every timestamp of the program comes from an integral millisecond
      field ([open_time_ms], [close_time_ms]) or from an hour boundary.
    - A Python [float] is an IEEE 754 binary64 value, modelled by
      [spec_float] with precision 53 and maximal exponent 1024.
    - A Python local variable that may be read before it is bound is an
      [option]; reading [None] raises [UnboundLocalError]. *)

From Stdlib Require Import ZArith List Bool String Ascii Lia.
From Stdlib Require Import SpecFloat Sorting Orders Mergesort Permutation.
Import ListNotations.
Local Open Scope string_scope.
Local Open Scope list_scope.
Local Open Scope Z_scope.

(** ** Binary64 floating point *)

Definition float : Type := spec_float.

Module F64.

Definition prec : Z := 53.
Definition emax : Z := 1024.

Definition nan : float := S754_nan.
Definition sub (x y : float) : float := SFsub prec emax x y.
Definition div (x y : float) : float := SFdiv prec emax x y.
Definition abs (x : float) : float := SFabs x.

(** [x < y], [x <= y] and [x > y] as Python evaluates them: false as
    soon as one side is NaN. *)
Definition ltb (x y : float) : bool := SFltb x y.
Definition leb (x y : float) : bool := SFleb x y.
Definition gtb (x y : float) : bool := SFltb y x.

(** [pd.isna] on a float. *)
Definition isna (x : float) : bool :=
  match x with S754_nan => true | _ => false end.

Definition is_finite (x : float) : bool :=
  match x with S754_zero _ | S754_finite _ _ _ => true | _ => false end.

(** The float nearest to an integer, and to a ratio of two integers. *)
Definition of_Z (z : Z) : float := binary_normalize prec emax z 0 false.
Definition of_ratio (n d : Z) : float := div (of_Z n) (of_Z d).

End F64.

(** ** Data model *)

(** One row of the canonical frame: [timestamp, open, high, low, close,
    volume]. *)
Record Row := mkRow {
  timestamp : Z;
  open : float;
  high : float;
  low : float;
  close : float;
  volume : float
}.

Definition DataFrame := list Row.

(** The numeric columns, in the order [validate_window] visits them. *)
Inductive Column := Open | High | Low | Close | Volume.

Definition ohlcv : list Column := [Open; High; Low; Close; Volume].

Definition col_name (c : Column) : string :=
  match c with
  | Open => "open" | High => "high" | Low => "low"
  | Close => "close" | Volume => "volume"
  end.

(** [df[col]] at one row. *)
Definition col (c : Column) (r : Row) : float :=
  match c with
  | Open => open r | High => high r | Low => low r
  | Close => close r | Volume => volume r
  end.

(** One hour, in milliseconds: [total_seconds() == 3600]. *)
Definition HOUR : Z := 3600000.

(** ** pandas primitives used by the program *)

(** [df.empty]. *)
Definition empty {A} (df : list A) : bool :=
  match df with [] => true | _ => false end.

(** [df.tail(n)]: the last [n] rows. *)
Definition tail {A} (n : nat) (df : list A) : list A :=
  skipn (List.length df - n) df.

(** [s.diff().dropna()] on a series of timestamps: the differences of
    consecutive entries (the leading [NaT] is dropped). *)
Fixpoint diff (ts : list Z) : list Z :=
  match ts with
  | a :: (b :: _) as rest => (b - a) :: diff rest
  | _ => []
  end.

(** [(diffs == 3600).all()]. *)
Definition all_hourly (diffs : list Z) : bool :=
  forallb (fun d => d =? HOUR) diffs.

(** [a.tolist() == b.tolist()] on two series of timestamps. *)
Fixpoint tolist_eqb (a b : list Z) : bool :=
  match a, b with
  | [], [] => true
  | x :: a', y :: b' => (x =? y) && tolist_eqb a' b'
  | _, _ => false
  end.

(** [a - b] on two series with the same positional index. *)
Fixpoint series_sub (a b : list float) : list float :=
  match a, b with
  | x :: a', y :: b' => F64.sub x y :: series_sub a' b'
  | _, _ => []
  end.

(** [s.max()] with pandas' default [skipna=True]: the largest entry that
    is not NaN, and NaN when there is none. *)
Definition nanmax_step (acc x : float) : float :=
  if F64.isna x then acc
  else if F64.isna acc then x
  else if F64.ltb acc x then x else acc.

Definition series_max (s : list float) : float :=
  fold_left nanmax_step s F64.nan.

(** [s.sort_values()] on a series of timestamps. *)
Module ZOrder <: TotalLeBool.
Definition t := Z.
Definition leb (x y : Z) : bool := x <=? y.
Definition leb_total : forall x y, leb x y = true \/ leb y x = true.
Proof. intros x y; unfold leb; destruct (Z.leb_spec x y); [left|right]; auto; apply Z.leb_le; lia. Qed.
End ZOrder.

Module ZSort := Sort ZOrder.

(** ** validation.py *)

(** The reason of a [ValidationResult]. The two f-strings are kept as
    their template and arguments; [reason_str] renders every reason to
    the text the source builds. *)
Inductive Reason :=
| api_df_empty
| api_last_row_is_not_target_hour
| no_historical_window_to_validate
| api_window_not_strictly_hourly
| db_has_fewer_rows_than_validation_window
| timestamp_mismatch_between_api_and_db
| NaN_in_column (c : Column)
| mismatch_in (c : Column) (max_diff : float)
| validated.

Section ReasonText.

(** Python's formatting of a float inside an f-string. *)
Variable format_float : float -> string.

Definition reason_str (r : Reason) : string :=
  match r with
  | api_df_empty => "api_df empty"
  | api_last_row_is_not_target_hour => "api last row is not target_hour"
  | no_historical_window_to_validate => "no historical window to validate"
  | api_window_not_strictly_hourly => "api window not strictly hourly"
  | db_has_fewer_rows_than_validation_window =>
      "db has fewer rows than validation window"
  | timestamp_mismatch_between_api_and_db =>
      "timestamp mismatch between api and db"
  | NaN_in_column c => ("NaN in column " ++ col_name c)%string
  | mismatch_in c d =>
      ("mismatch in " ++ col_name c ++ " (max diff " ++ format_float d ++ ")")%string
  | validated => "validated"
  end.

End ReasonText.

Record ValidationResult := mkValidationResult {
  ok : bool;
  reason : Reason;
  validated_rows : Z
}.

Definition _is_strictly_hourly (df : DataFrame) : bool :=
  if empty df then true
  else all_hourly (diff (map timestamp df)).

(** The measured difference of one column:
    [(db_tail[col] - api_hist[col]).abs().max()]. *)
Definition column_max_diff (c : Column) (db_tail api_hist : DataFrame) : float :=
  series_max (map F64.abs (series_sub (map (col c) db_tail) (map (col c) api_hist))).

(** The loop [for col in ["open", "high", "low", "close", "volume"]]:
    the reason of the first [return] taken inside it, if any. *)
Fixpoint compare_columns (cols : list Column) (db_tail api_hist : DataFrame)
    (tolerance : float) : option Reason :=
  match cols with
  | [] => None
  | c :: rest =>
      let d := column_max_diff c db_tail api_hist in
      if F64.isna d then Some (NaN_in_column c)
      else if F64.gtb d tolerance then Some (mismatch_in c d)
      else compare_columns rest db_tail api_hist tolerance
  end.

Definition validate_window (api_df db_df : DataFrame) (target_hour : Z)
    (tolerance : float) : ValidationResult :=
  match api_df with
  | [] => mkValidationResult false api_df_empty 0
  | first_row :: _ =>
      if negb (timestamp (last api_df first_row) =? target_hour) then
        mkValidationResult false api_last_row_is_not_target_hour 0
      else
        let api_hist := removelast api_df in
        if empty api_hist then
          mkValidationResult true no_historical_window_to_validate 0
        else if negb (_is_strictly_hourly api_df)
                && negb (all_hourly (diff (ZSort.sort (map timestamp api_df))))
        then mkValidationResult false api_window_not_strictly_hourly 0
        else if (List.length db_df <? List.length api_hist)%nat then
          mkValidationResult false db_has_fewer_rows_than_validation_window 0
        else
          let db_tail := tail (List.length api_hist) db_df in
          if negb (tolist_eqb (map timestamp db_tail) (map timestamp api_hist))
          then mkValidationResult false timestamp_mismatch_between_api_and_db 0
          else
            match compare_columns ohlcv db_tail api_hist tolerance with
            | Some r => mkValidationResult false r 0
            | None =>
                mkValidationResult true validated (Z.of_nat (List.length api_hist))
            end
  end.

(** The default [tolerance=1e-8]: the float nearest to 1/10^8. *)
Definition default_tolerance : float := F64.of_ratio 1 100000000.

(** ** Effects: the Store, the call trace, and Python exceptions *)

(** A row of the frame built from the Source's response: the canonical
    columns and [_close_time]. *)
Record ApiRow := mkApiRow {
  candle : Row;
  _close_time : Z
}.

(** The table [ohlcv_btcusdt_1h]: its rows, in insertion order. *)
Definition Store := list Row.

(** The unique index on [timestamp] created by [ensure_table]. *)
Definition unique_index (db : Store) : Prop := NoDup (map timestamp db).

Inductive Exception :=
| UnboundLocalError (name : string)
| IndexError
| ValueError
| DatabaseError.

(** What [run_once], [main] and [clean_transform] print. *)
Inductive Message :=
| ERROR_missing_close_time
| ERROR_no_closed_candles
| ERROR_last_closed_row_not_target_hour (last_ts target_hour : Z)
| ERROR_no_overlap
| ERROR_overlap_validation_failed (r : Reason)
| INFO_catch_up_nothing_to_append
| DRY_RUN_would_append (row : Row)
| INFO_bootstrap
| WARN_validation_failed (r : Reason)
| stats (pulled validated appended target_hour : Z)
| ERROR_exception (e : Exception)
| CLEAN_dropped_rows_with_NaNs (n : Z)
| CLEAN_dropped_duplicate_timestamps (n : Z)
| CHECK (n_rows first_ts last_ts gaps : Z)
| WARN_unexpected_close_time_delta (n : Z).

(** What a run does to the outside, in order: its prints, the snapshot
    file, and its calls into [db.py] and [validation.py]. *)
Inductive Event :=
| print (m : Message)
| write_raw_snapshot (api_df : list ApiRow)
| call_coverage_stats
| call_read_last_n_rows_ending_before (n end_exclusive : Z)
| call_validate_window (api_df db_df : DataFrame) (target_hour : Z)
| call_append_row_if_absent (row : Row).

Record World := mkWorld {
  db : Store;
  trace : list Event
}.

Inductive outcome (A : Type) :=
| Returned (a : A)
| Raised (e : Exception).
Arguments Returned {A} a.
Arguments Raised {A} e.

(** A computation reads and updates the world and returns or raises;
    what was written before an exception stays written. *)
Definition M (A : Type) : Type := World -> outcome A * World.

Definition ret {A} (a : A) : M A := fun w => (Returned a, w).

Definition raise {A} (e : Exception) : M A := fun w => (Raised e, w).

Definition bind {A B} (m : M A) (k : A -> M B) : M B :=
  fun w =>
    match m w with
    | (Returned a, w') => k a w'
    | (Raised e, w') => (Raised e, w')
    end.

Declare Scope py_scope.
Delimit Scope py_scope with py.
Notation "x <- m ;; k" := (bind m (fun x => k))
  (at level 61, m at next level, right associativity) : py_scope.
Notation "m ;; k" := (bind m (fun _ => k))
  (at level 61, right associativity) : py_scope.
Local Open Scope py_scope.

Definition emit (e : Event) : M unit :=
  fun w => (Returned tt, mkWorld (db w) (trace w ++ [e])).

Definition get_db : M Store := fun w => (Returned (db w), w).

Definition put_db (s : Store) : M unit :=
  fun w => (Returned tt, mkWorld s (trace w)).

(** Reading a local variable that may not be bound yet. *)
Definition local {A} (name : string) (x : option A) : M A :=
  match x with
  | Some a => ret a
  | None => raise (UnboundLocalError name)
  end.

(** [df.iloc[i]] for [i >= 0], and [df.iloc[-1]]. *)
Definition iloc {A} (df : list A) (i : nat) : M A :=
  match nth_error df i with
  | Some a => ret a
  | None => raise IndexError
  end.

Definition iloc_last {A} (df : list A) : M A :=
  match rev df with
  | a :: _ => ret a
  | [] => raise IndexError
  end.

(** [when c m]: [if c: m]. *)
Definition when (c : bool) (m : M unit) : M unit :=
  if c then m else ret tt.

(** [for x in xs: body x]. *)
Fixpoint for_each {A} (xs : list A) (body : A -> M unit) : M unit :=
  match xs with
  | [] => ret tt
  | x :: rest => body x ;; for_each rest body
  end.

(** ** db.py *)

Module RowOrder <: TotalLeBool.
Definition t := Row.
Definition leb (x y : Row) : bool := timestamp x <=? timestamp y.
Definition leb_total : forall x y, leb x y = true \/ leb y x = true.
Proof.
  intros x y; unfold leb.
  destruct (Z.leb_spec (timestamp x) (timestamp y)); [left|right]; auto.
  apply Z.leb_le; lia.
Qed.
End RowOrder.

Module RowSort := Sort RowOrder.

(** [SELECT ... WHERE timestamp < ? ORDER BY timestamp DESC LIMIT ?],
    then [sort_values("timestamp")]. A negative [LIMIT] is rejected by
    the database. *)
Definition select_last_n_before (s : Store) (n : Z) (end_exclusive : Z) : option DataFrame :=
  if n <? 0 then None
  else
    let matching := filter (fun r => timestamp r <? end_exclusive) s in
    let descending := rev (RowSort.sort matching) in
    Some (RowSort.sort (firstn (Z.to_nat n) descending)).

Definition read_last_n_rows_ending_before (n : Z) (end_exclusive : Z) : M DataFrame :=
  emit (call_read_last_n_rows_ending_before n end_exclusive) ;;
  s <- get_db ;;
  match select_last_n_before s n end_exclusive with
  | Some df => ret df
  | None => raise DatabaseError
  end.

(** [SELECT 1 FROM t WHERE timestamp = ?] returns a row. *)
Definition exists_timestamp (s : Store) (ts : Z) : bool :=
  existsb (fun r => timestamp r =? ts) s.

(** [INSERT ... SELECT ?, ... WHERE NOT EXISTS (...)]. *)
Definition insert_if_absent (s : Store) (row : Row) : Store :=
  if exists_timestamp s (timestamp row) then s else (s ++ [row]).

Definition append_row_if_absent (row : Row) : M unit :=
  emit (call_append_row_if_absent row) ;;
  s <- get_db ;;
  put_db (insert_if_absent s row).

(** [SELECT MIN(timestamp), MAX(timestamp), COUNT( * )]. *)
Definition min_timestamp (first : Row) (rest : Store) : Z :=
  fold_left (fun m r => Z.min m (timestamp r)) rest (timestamp first).

Definition max_timestamp (first : Row) (rest : Store) : Z :=
  fold_left (fun m r => Z.max m (timestamp r)) rest (timestamp first).

Definition coverage (s : Store) : option (Z * Z * Z) :=
  match s with
  | [] => None
  | first :: rest =>
      Some (min_timestamp first rest, max_timestamp first rest,
            Z.of_nat (List.length s))
  end.

Definition coverage_stats : M (option (Z * Z * Z)) :=
  emit call_coverage_stats ;;
  s <- get_db ;;
  ret (coverage s).

(** [CREATE TABLE IF NOT EXISTS] and [CREATE UNIQUE INDEX IF NOT
    EXISTS]: the table of the model always exists. *)
Definition ensure_table : M unit := ret tt.

(** ** api.py *)

(** One kline of the Source's response. The price and volume fields hold
    the floats that [float(k.open)], ... evaluate to. *)
Record Kline := mkKline {
  open_time_ms : Z;
  k_open : float;
  k_high : float;
  k_low : float;
  k_close : float;
  k_volume : float;
  close_time_ms : Z
}.

(** The frame of [klines_to_dataframe]: without klines it has the six
    canonical columns only. *)
Record ApiFrame := mkApiFrame {
  has_close_time : bool;
  rows : list ApiRow
}.

Module ApiRowOrder <: TotalLeBool.
Definition t := ApiRow.
Definition leb (x y : ApiRow) : bool :=
  timestamp (candle x) <=? timestamp (candle y).
Definition leb_total : forall x y, leb x y = true \/ leb y x = true.
Proof.
  intros x y; unfold leb.
  destruct (Z.leb_spec (timestamp (candle x)) (timestamp (candle y)));
    [left|right]; auto.
  apply Z.leb_le; lia.
Qed.
End ApiRowOrder.

(** [sort_values("timestamp", kind="mergesort")]. *)
Module ApiRowSort := Sort ApiRowOrder.

Definition kline_row (k : Kline) : ApiRow :=
  mkApiRow
    (mkRow (open_time_ms k) (k_open k) (k_high k) (k_low k) (k_close k)
       (k_volume k))
    (close_time_ms k).

Definition klines_to_dataframe (klines : list Kline) : ApiFrame :=
  if empty klines then mkApiFrame false []
  else mkApiFrame true (ApiRowSort.sort (map kline_row klines)).

(** [pd.Timestamp(now).floor("h")] and one hour before it. *)
Definition compute_target_hour (now : Z) : Z * Z :=
  let now_floor := (now / HOUR) * HOUR in
  (now_floor, now_floor - HOUR).

(** ** cli.py *)

Record RunConfig := mkRunConfig {
  n_recent : Z;
  dry_run : bool;
  debug : bool;
  catch_up : bool
}.

(** The locals of [run_once] that only some branches bind. *)
Record Locals := mkLocals {
  v : option ValidationResult;
  allow_bootstrap : option bool;
  appended : Z
}.

(** [validate_window], with the call recorded. *)
Definition call_validate (api_df db_df : DataFrame) (target_hour : Z) : M ValidationResult :=
  emit (call_validate_window api_df db_df target_hour) ;;
  ret (validate_window api_df db_df target_hour default_tolerance).

(** The body of [for _, row in to_append.iterrows()]; it returns the
    number of iterations, which the loop adds to [appended]. *)
Definition append_all (cfg : RunConfig) (to_append : DataFrame) : M Z :=
  for_each to_append (fun row =>
    if dry_run cfg then
      when (debug cfg) (emit (print (DRY_RUN_would_append row)))
    else append_row_if_absent row) ;;
  ret (Z.of_nat (List.length to_append)).

(** [api_overlap]: the closed rows at or before the Store's maximum
    timestamp. *)
Definition api_overlap (closed_df : DataFrame) (db_max_ts : Z) : DataFrame :=
  filter (fun r => timestamp r <=? db_max_ts) closed_df.

(** [k = min(len(api_overlap), max(cfg.n_recent - 1, 1))]. *)
Definition overlap_k (cfg : RunConfig) (overlap : DataFrame) : Z :=
  Z.min (Z.of_nat (List.length overlap)) (Z.max (n_recent cfg - 1) 1).

(** [api_tail_for_val = api_overlap.tail(k)]. *)
Definition api_tail_for_val (cfg : RunConfig) (overlap : DataFrame) : DataFrame :=
  tail (Z.to_nat (overlap_k cfg overlap)) overlap.

(** [to_append] past the validation: the closed rows strictly after the
    Store's maximum timestamp. *)
Definition rows_after (closed_df : DataFrame) (db_max_ts : Z) : DataFrame :=
  filter (fun r => timestamp r >? db_max_ts) closed_df.

(** The branch [if cfg.catch_up:]. [inl code] is a [return code] taken
    inside the branch. *)
Definition catch_up_branch (cfg : RunConfig) (closed_df : DataFrame) : M (Z + Locals) :=
  cov <- coverage_stats ;;
  r <- match cov with
       | None => ret (inr (closed_df, @None ValidationResult))
       | Some (_, db_max_ts, _) =>
           let overlap := api_overlap closed_df db_max_ts in
           if empty overlap then
             emit (print ERROR_no_overlap) ;; ret (inl 2)
           else
             last_overlap <- iloc_last overlap ;;
             let t_overlap := timestamp last_overlap in
             let for_val := api_tail_for_val cfg overlap in
             db_hist <- read_last_n_rows_ending_before
                          (Z.of_nat (List.length for_val) - 1) t_overlap ;;
             res <- call_validate for_val db_hist t_overlap ;;
             if negb (ok res) then
               emit (print (ERROR_overlap_validation_failed (reason res))) ;;
               ret (inl 2)
             else
               ret (inr (rows_after closed_df db_max_ts, Some res))
       end ;;
  match r with
  | inl code => ret (inl code)
  | inr (to_append, v_local) =>
      if empty to_append then
        when (debug cfg) (emit (print INFO_catch_up_nothing_to_append)) ;;
        ret (inr (mkLocals v_local None 0))
      else
        n <- append_all cfg to_append ;;
        ret (inr (mkLocals v_local None n))
  end.

(** The branch [else:] (single-bar mode). *)
Definition single_bar_branch (cfg : RunConfig) (closed_df : DataFrame)
    (target_hour : Z) : M (Z + Locals) :=
  db_window <- read_last_n_rows_ending_before (n_recent cfg - 1) target_hour ;;
  res <- call_validate closed_df db_window target_hour ;;
  let bootstrap := negb (ok res) && (List.length db_window =? 0)%nat in
  when (bootstrap && debug cfg) (emit (print INFO_bootstrap)) ;;
  if ok res || bootstrap then
    row_t <- iloc (tail 1 closed_df) 0 ;;
    (if dry_run cfg then
       when (debug cfg) (emit (print (DRY_RUN_would_append row_t)))
     else append_row_if_absent row_t) ;;
    ret (inr (mkLocals (Some res) (Some bootstrap) 1))
  else
    emit (print (WARN_validation_failed (reason res))) ;;
    ret (inr (mkLocals (Some res) (Some bootstrap) 0)).

(** [closed_df]: the rows whose close time is strictly before
    [now_floor], read through the canonical columns. *)
Definition closed_candles (api_df : ApiFrame) (now_floor : Z) : DataFrame :=
  map candle (filter (fun r => _close_time r <=? now_floor - 1) (rows api_df)).

(** The last two statements of [run_once]: the stats line and the exit
    code. *)
Definition print_stats_and_exit (pulled target_hour : Z) (l : Locals) : M Z :=
  (* validated={v.validated_rows if v.ok else 0} *)
  v_ok <- local "v" (v l) ;;
  validated <- (if ok v_ok then
                  v1 <- local "v" (v l) ;; ret (validated_rows v1)
                else ret 0) ;;
  emit (print (stats pulled validated (appended l) target_hour)) ;;
  (* return 0 if (v.ok or allow_bootstrap) else 1 *)
  v2 <- local "v" (v l) ;;
  if ok v2 then ret 0
  else
    b <- local "allow_bootstrap" (allow_bootstrap l) ;;
    ret (if b then 0 else 1).

Definition run_once (cfg : RunConfig) (now : Z) (klines : list Kline) : M Z :=
  ensure_table ;;
  let '(now_floor, target_hour) := compute_target_hour now in
  let api_df := klines_to_dataframe klines in
  if negb (has_close_time api_df) then
    emit (print ERROR_missing_close_time) ;; ret 2
  else
    let closed_df := closed_candles api_df now_floor in
    if empty closed_df then
      emit (print ERROR_no_closed_candles) ;; ret 2
    else
      last_closed <- iloc_last closed_df ;;
      if negb (timestamp last_closed =? target_hour) then
        emit (print (ERROR_last_closed_row_not_target_hour
                       (timestamp last_closed) target_hour)) ;;
        ret 2
      else
        emit (write_raw_snapshot (rows api_df)) ;;
        r <- (if catch_up cfg then catch_up_branch cfg closed_df
              else single_bar_branch cfg closed_df target_hour) ;;
        match r with
        | inl code => ret code
        | inr l =>
            print_stats_and_exit (Z.of_nat (List.length (rows api_df)))
              target_hour l
        end.

(** [main], after [parse_args]: an exception of [run_once] is printed
    and becomes exit code 3, unless [--debug] re-raises it. *)
Definition main (cfg : RunConfig) (now : Z) (klines : list Kline) : M Z :=
  fun w =>
    match run_once cfg now klines w with
    | (Returned code, w') => (Returned code, w')
    | (Raised e, w') =>
        match emit (print (ERROR_exception e)) w' with
        | (_, w'') => if debug cfg then (Raised e, w'') else (Returned 3, w'')
        end
    end.

(** ** scripts/backfill_ohlcv_binance_1h_from_csv.py *)

(** One row of the merged CSV. [csv_open_time] is [None] where
    [pd.to_datetime] yields [NaT]; the numeric fields hold what
    [pd.to_numeric(..., errors="coerce")] yields (NaN where the cell does
    not parse); [csv_close_time] is the cell of the optional column. *)
Record CsvRow := mkCsvRow {
  csv_open_time : option Z;
  csv_open : float;
  csv_high : float;
  csv_low : float;
  csv_close : float;
  csv_volume : float;
  csv_close_time : option Z
}.

(** The raw frame: its column names, normalised, and its rows. *)
Record CsvFrame := mkCsvFrame {
  columns : list string;
  csv_rows : list CsvRow
}.

Definition required : list string :=
  ["open_time"; "open"; "high"; "low"; "close"; "volume"].

Definition has_column (df : CsvFrame) (c : string) : bool :=
  existsb (String.eqb c) (columns df).

(** [required - set(df.columns)]. *)
Definition missing (df : CsvFrame) : list string :=
  filter (fun c => negb (has_column df c)) required.

(** [out.dropna(subset=[...])]: a row survives when its timestamp is
    not [NaT] and none of its numeric fields is NaN. *)
Definition dropna_row (r : CsvRow) : option Row :=
  match csv_open_time r with
  | None => None
  | Some ts =>
      if F64.isna (csv_open r) || F64.isna (csv_high r) || F64.isna (csv_low r)
         || F64.isna (csv_close r) || F64.isna (csv_volume r)
      then None
      else Some (mkRow ts (csv_open r) (csv_high r) (csv_low r) (csv_close r)
                   (csv_volume r))
  end.

Fixpoint dropna (rs : list CsvRow) : DataFrame :=
  match rs with
  | [] => []
  | r :: rest =>
      match dropna_row r with
      | Some row => row :: dropna rest
      | None => dropna rest
      end
  end.

(** [drop_duplicates(subset=["timestamp"], keep="first")]. *)
Fixpoint drop_duplicates_from (seen : list Z) (df : DataFrame) : DataFrame :=
  match df with
  | [] => []
  | r :: rest =>
      if existsb (Z.eqb (timestamp r)) seen then drop_duplicates_from seen rest
      else r :: drop_duplicates_from (timestamp r :: seen) rest
  end.

Definition drop_duplicates (df : DataFrame) : DataFrame :=
  drop_duplicates_from [] df.

(** The optional inclusive range filter. *)
Definition range_filter (start end_ : option Z) (df : DataFrame) : DataFrame :=
  let df1 := match start with
             | Some s => filter (fun r => timestamp r >=? s) df
             | None => df
             end in
  match end_ with
  | Some e => filter (fun r => timestamp r <=? e) df1
  | None => df1
  end.

(** The rows left after NaN-dropping, sorting, de-duplication and the
    range filter. [sort_values] is called with pandas' default sort
    kind, which does not fix the order of rows with equal timestamps;
    the stable order is taken here. *)
Definition cleaned (df : CsvFrame) (start end_ : option Z) : DataFrame :=
  range_filter start end_
    (drop_duplicates (RowSort.sort (dropna (csv_rows df)))).

(** [int((diffs != 3600).sum()) if diffs.size else 0]. *)
Definition gap_count (df : DataFrame) : Z :=
  Z.of_nat (List.length (filter (fun d => negb (d =? HOUR)) (diff (map timestamp df)))).

(** The number of rows whose [close_time] is not 3599 or 3600 seconds
    after the timestamp; [df.loc[out.index, "close_time"]] reads the
    raw rows at the positions of [out]. *)
Fixpoint close_bad (raw : list CsvRow) (out : DataFrame) : Z :=
  match raw, out with
  | r :: raw', o :: out' =>
      let bad := match csv_close_time r with
                 | Some ct =>
                     let delta := (ct - timestamp o) / 1000 in
                     (delta <? 3599) || (delta >? 3600)
                 | None => true
                 end in
      (if bad then 1 else 0) + close_bad raw' out'
  | _, _ => 0
  end.

Definition clean_transform (df : CsvFrame) (start end_ : option Z) : M DataFrame :=
  if negb (empty (missing df)) then raise ValueError
  else
    let before := csv_rows df in
    let out1 := dropna before in
    let dropped_nan := Z.of_nat (List.length before) - Z.of_nat (List.length out1) in
    when (negb (dropped_nan =? 0))
      (emit (print (CLEAN_dropped_rows_with_NaNs dropped_nan))) ;;
    let out2 := RowSort.sort out1 in
    let out3 := drop_duplicates out2 in
    let dups := Z.of_nat (List.length out2) - Z.of_nat (List.length out3) in
    when (negb (dups =? 0))
      (emit (print (CLEAN_dropped_duplicate_timestamps dups))) ;;
    let out := range_filter start end_ out3 in
    let gaps := gap_count out in
    first <- iloc out 0 ;;
    final <- iloc_last out ;;
    emit (print (CHECK (Z.of_nat (List.length out)) (timestamp first)
                   (timestamp final) gaps)) ;;
    (if has_column df "close_time" then
       let bad := close_bad (csv_rows df) out in
       when (negb (bad =? 0)) (emit (print (WARN_unexpected_close_time_delta bad)))
     else ret tt) ;;
    ret out.

(** ** Test fixtures *)

(** [2024-01-01 hh:00:00] UTC. *)
Definition at_hour (h : Z) : Z := 1704067200000 + h * HOUR.

(** The rows built by [_df_from_hours] and [row] in the tests. *)
Definition bar (h : Z) (o : Z) : Row :=
  mkRow (at_hour h) (F64.of_Z o) (F64.of_Z (o + 2)) (F64.of_Z (o - 2))
    (F64.of_Z (o + 1)) (F64.of_Z 10).

(** A row with one numeric field replaced. *)
Definition set_col (c : Column) (x : float) (r : Row) : Row :=
  match c with
  | Open => mkRow (timestamp r) x (high r) (low r) (close r) (volume r)
  | High => mkRow (timestamp r) (open r) x (low r) (close r) (volume r)
  | Low => mkRow (timestamp r) (open r) (high r) x (close r) (volume r)
  | Close => mkRow (timestamp r) (open r) (high r) (low r) x (volume r)
  | Volume => mkRow (timestamp r) (open r) (high r) (low r) (close r) x
  end.

(** The klines built by [make_k] in the tests. *)
Definition make_k (h : Z) (o : Z) : Kline :=
  mkKline (at_hour h) (F64.of_Z o) (F64.of_Z (o + 2)) (F64.of_Z (o - 2))
    (F64.of_Z (o + 1)) (F64.of_Z 10) (at_hour h + HOUR - 1).

Definition empty_world : World := mkWorld [] [].

(** The merged CSV of two bars at 08:00 and 09:00. *)
Definition csv_bar (h : Z) : CsvRow :=
  mkCsvRow (Some (at_hour h)) (F64.of_Z 100) (F64.of_Z 102)
    (F64.of_Z 98) (F64.of_Z 101) (F64.of_Z 10) (Some (at_hour h + HOUR - 1)).

Definition merged_csv : CsvFrame :=
  mkCsvFrame
    ["open_time"; "open"; "high"; "low"; "close"; "volume"; "close_time"]
    [csv_bar 8; csv_bar 9].

(** The closed window [run_once] works on, and its target hour. *)
Definition closed_window (now : Z) (klines : list Kline) : DataFrame :=
  closed_candles (klines_to_dataframe klines) (fst (compute_target_hour now)).

Definition target_of (now : Z) : Z := snd (compute_target_hour now).

(** The rows passed to [append_row_if_absent] along a trace. *)
Fixpoint appends (tr : list Event) : list Row :=
  match tr with
  | [] => []
  | call_append_row_if_absent row :: rest => row :: appends rest
  | _ :: rest => appends rest
  end.

(** ** The specification's reading of the numeric comparison *)

(** The absolute difference of one aligned pair in column [c]. *)
Definition abs_diff (c : Column) (stored incoming : Row) : float :=
  F64.abs (F64.sub (col c stored) (col c incoming)).

(** "The maximum absolute difference between aligned incoming and stored
    values is at most tolerance": every aligned pair differs by at most
    [tolerance]. *)
Definition within_tolerance (c : Column) (stored incoming : DataFrame)
    (tolerance : float) : Prop :=
  Forall2 (fun s a => F64.leb (abs_diff c s a) tolerance = true) stored incoming.

(** A row of the data model: every numeric field is a finite number. *)
Definition finite_row (r : Row) : Prop :=
  forall c, F64.is_finite (col c r) = true.

(** One column passes the loop of [validate_window] when its measured
    difference is a number that does not exceed the tolerance. *)
Definition column_passes (c : Column) (db_tail hist : DataFrame) (tol : float) : Prop :=
  F64.isna (column_max_diff c db_tail hist) = false
  /\ F64.gtb (column_max_diff c db_tail hist) tol = false.

(** The conditions under which [validate_window] reaches the numeric
    comparison: [incoming] has at least two rows, ends at the anchor and
    is strictly hourly; [stored_tail] is long enough; the timestamps
    agree position for position. *)
Record reaches_comparison (incoming stored_tail : DataFrame) (anchor : Z) : Prop := {
  rc_two_rows : (2 <= List.length incoming)%nat;
  rc_anchor : exists init row, incoming = (init ++ [row]) /\ timestamp row = anchor;
  rc_hourly : _is_strictly_hourly incoming = true;
  rc_enough : (List.length incoming - 1 <= List.length stored_tail)%nat;
  rc_aligned :
    map timestamp (tail (List.length incoming - 1) stored_tail)
    = map timestamp (removelast incoming)
}.

(** The rows stored at a timestamp, and at every other timestamp. *)
Definition rows_at (ts : Z) (s : Store) : list Row :=
  filter (fun r => timestamp r =? ts) s.

Definition rows_off (ts : Z) (s : Store) : list Row :=
  filter (fun r => negb (timestamp r =? ts)) s.

(** ** Proof automation *)

(** Case analysis on every integer comparison in sight. *)
Ltac cmp_cases :=
  repeat match goal with
  | H : context [Pos.compare_cont Eq ?a ?b] |- _ => change (Pos.compare_cont Eq a b) with (Pos.compare a b) in H
  | |- context [Pos.compare_cont Eq ?a ?b] => change (Pos.compare_cont Eq a b) with (Pos.compare a b)
  end;
  repeat match goal with
  | H : context [Z.compare ?a ?b] |- _ => destruct (Z.compare_spec a b)
  | |- context [Z.compare ?a ?b] => destruct (Z.compare_spec a b)
  | H : context [Pos.compare ?a ?b] |- _ => destruct (Pos.compare_spec a b)
  | |- context [Pos.compare ?a ?b] => destruct (Pos.compare_spec a b)
  end.

(** Runs the monadic plumbing of a computation applied to a world. *)
Ltac run_monad :=
  repeat (progress (cbv beta iota delta
                      [bind emit get_db put_db ret raise when local];
                    cbn [db trace fst snd])).

(** ** Specifications of computations *)

(** [run_spec R P m]: whatever the world [m] starts in, the table it
    leaves is related by [R] to the table it found, also when it raises,
    and a value it returns satisfies [P]. *)
Definition run_spec {A} (R : Store -> Store -> Prop) (P : A -> Prop) (m : M A) : Prop :=
  forall w,
    R (db w) (db (snd (m w)))
    /\ forall a, fst (m w) = Returned a -> P a.

(** The table [s'] is [s] with rows taken from [source] added at its
    end, and it keeps the unique index of [s]. *)
Definition grows_by (source : DataFrame) (s s' : Store) : Prop :=
  exists added,
    s' = s ++ added
    /\ incl added source
    /\ (unique_index s -> unique_index s').

(** ** scripts/backfill_ohlcv_binance_1h_from_csv.py: the insert *)

(** No two entries of [ts] are equal. *)
Fixpoint distinct (ts : list Z) : bool :=
  match ts with
  | [] => true
  | t :: rest => negb (existsb (Z.eqb t) rest) && distinct rest
  end.

(** [insert_into_duckdb]: the rows of [tmp_df] whose timestamp the table
    does not hold are counted, then inserted by one
    [INSERT ... SELECT ... WHERE NOT EXISTS]; both statements read the
    table as it is before the insert, and the unique index rejects the
    insert when two of the new rows share a timestamp. *)
Definition insert_into_duckdb (df : DataFrame) : M Z :=
  ensure_table ;;
  s <- get_db ;;
  let new_rows := filter (fun t => negb (exists_timestamp s (timestamp t))) df in
  let to_insert := Z.of_nat (List.length new_rows) in
  (if distinct (map timestamp new_rows) then put_db (s ++ new_rows)
   else raise DatabaseError) ;;
  ret to_insert.

(** ** scripts/backfill_recent_from_api.py *)

Module BackfillRecent.

Record RunConfig := mkRunConfig {
  n_recent : Z;
  db_validate_rows : Z;
  tolerance : float;
  dry_run : bool;
  debug : bool
}.

(** [_filter_closed] raises a [RuntimeError]; the other exceptions are
    those of the code shared with [cli.py]. *)
Inductive Error :=
| RuntimeError
| Other (e : Exception).

(** The lines the script prints; [None] stands for the [NaT] that
    [min] and [max] give on an empty series. *)
Inductive Line :=
| no_closed_candles
| last_closed_is_not_target_hour (last_closed_ts target_hour : Z)
| no_overlap (api_min api_max db_min db_max : option Z)
| overlap_validation_failed (r : Reason)
| mismatch_at (t_overlap : Z) (c : Column) (api db : float)
| overlap_rows_validated (n : Z) (last_overlap : Z)
| no_new_rows
| would_append (row : Row)
| backfill_ok (appended : Z) (api_min api_max : option Z)
    (last_closed_ts target_hour : Z)
| error (e : Error).

Record State := mkState {
  table : Store;
  printed : list Line
}.

(** A statement either goes on with a value, or leaves [run_once]: by a
    [return] or by an exception. *)
Inductive Stop :=
| Return (code : Z)
| Raise (e : Error).

Definition Script (A : Type) : Type := State -> (A + Stop) * State.

Definition ret {A} (a : A) : Script A := fun st => (inl a, st).

Definition exit {A} (code : Z) : Script A := fun st => (inr (Return code), st).

Definition raise {A} (e : Error) : Script A := fun st => (inr (Raise e), st).

Definition bind {A B} (m : Script A) (k : A -> Script B) : Script B :=
  fun st =>
    match m st with
    | (inl a, st') => k a st'
    | (inr stop, st') => (inr stop, st')
    end.

Declare Scope script_scope.
Delimit Scope script_scope with script.
Notation "x <- m ;; k" := (bind m (fun x => k))
  (at level 61, m at next level, right associativity) : script_scope.
Notation "m ;; k" := (bind m (fun _ => k))
  (at level 61, right associativity) : script_scope.
Local Open Scope script_scope.

Definition print (l : Line) : Script unit :=
  fun st => (inl tt, mkState (table st) (printed st ++ [l])).

Definition when (c : bool) (m : Script unit) : Script unit :=
  if c then m else ret tt.

Fixpoint for_each {A} (xs : list A) (body : A -> Script unit) : Script unit :=
  match xs with
  | [] => ret tt
  | x :: rest => body x ;; for_each rest body
  end.

Definition iloc {A} (df : list A) (i : nat) : Script A :=
  match nth_error df i with
  | Some a => ret a
  | None => raise (Other IndexError)
  end.

Definition iloc_last {A} (df : list A) : Script A :=
  match rev df with
  | a :: _ => ret a
  | [] => raise (Other IndexError)
  end.

(** [db.read_last_n_rows_ending_before] and [db.append_row_if_absent]
    on the table of the script. *)
Definition read_last_n_rows_ending_before (n end_exclusive : Z) : Script DataFrame :=
  fun st =>
    match select_last_n_before (table st) n end_exclusive with
    | Some df => (inl df, st)
    | None => (inr (Raise (Other DatabaseError)), st)
    end.

Definition append_row_if_absent (row : Row) : Script unit :=
  fun st => (inl tt, mkState (insert_if_absent (table st) row) (printed st)).

(** [df["timestamp"].min()] and [.max()]. *)
Definition ts_min (df : DataFrame) : option Z :=
  match df with
  | [] => None
  | first :: rest => Some (min_timestamp first rest)
  end.

Definition ts_max (df : DataFrame) : option Z :=
  match df with
  | [] => None
  | first :: rest => Some (max_timestamp first rest)
  end.

(** [row["timestamp"] > t]; a comparison with [NaT] is false. *)
Definition after (r : Row) (t : option Z) : bool :=
  match t with
  | Some t => timestamp r >? t
  | None => false
  end.

Definition _filter_closed (api_df : ApiFrame) (now_floor : Z) : Script DataFrame :=
  if negb (has_close_time api_df) then raise RuntimeError
  else ret (closed_candles api_df now_floor).

(** [sorted(set(api_df["timestamp"]).intersection(set(db_tail["timestamp"])))]. *)
Definition common_ts (api_df db_tail : DataFrame) : list Z :=
  ZSort.sort
    (nodup Z.eq_dec
       (filter (fun t => existsb (Z.eqb t) (map timestamp db_tail))
          (map timestamp api_df))).

(** [api_df[api_df["timestamp"].isin(common_ts)].sort_values("timestamp")];
    the stable order is taken for rows with equal timestamps. *)
Definition api_overlap (api_df : DataFrame) (common : list Z) : DataFrame :=
  RowSort.sort (filter (fun r => existsb (Z.eqb (timestamp r)) common) api_df).

(** The loop over the columns at the last overlap row: the first column
    with [abs(float(row_api[col]) - float(row_db[col])) > tolerance]. *)
Definition last_row_mismatch (row_api row_db : Row) (tol : float) : option Column :=
  find (fun c => F64.gtb (F64.abs (F64.sub (col c row_api) (col c row_db))) tol)
    ohlcv.

(** The branch [if not db_tail.empty:]; it gives [to_append]. *)
Definition validate_overlap (cfg : RunConfig) (api_df db_tail : DataFrame) : Script DataFrame :=
  let common := common_ts api_df db_tail in
  if empty common then
    print (no_overlap (ts_min api_df) (ts_max api_df)
             (ts_min db_tail) (ts_max db_tail)) ;;
    exit 2
  else
    let overlap := api_overlap api_df common in
    last_overlap <- iloc_last overlap ;;
    let t_overlap := timestamp last_overlap in
    db_hist <- read_last_n_rows_ending_before
                 (Z.max (Z.of_nat (List.length overlap) - 1) 0) t_overlap ;;
    let v := validate_window overlap db_hist t_overlap (tolerance cfg) in
    if negb (ok v) then
      print (overlap_validation_failed (reason v)) ;; exit 2
    else
      let db_at_t := filter (fun r => timestamp r =? t_overlap) db_tail in
      (if negb (empty db_at_t) then
         row_api <- iloc (tail 1 overlap) 0 ;;
         row_db <- iloc (tail 1 db_at_t) 0 ;;
         match last_row_mismatch row_api row_db (tolerance cfg) with
         | Some c =>
             print (mismatch_at t_overlap c (col c row_api) (col c row_db)) ;;
             exit 2
         | None => ret tt
         end
       else ret tt) ;;
      when (debug cfg)
        (print (overlap_rows_validated (Z.of_nat (List.length common)) t_overlap)) ;;
      let db_max_ts := ts_max db_tail in
      ret (filter (fun r => after r db_max_ts) api_df).

(** [run_once], after [ensure_table]; the fetched klines and the clock
    are its inputs. *)
Definition run_once (cfg : RunConfig) (now : Z) (klines : list Kline) : Script Z :=
  let '(now_floor, target_hour) := compute_target_hour now in
  let api_df_all := klines_to_dataframe klines in
  api_df <- _filter_closed api_df_all now_floor ;;
  if empty api_df then
    print no_closed_candles ;; exit 2
  else
    last_closed <- iloc_last api_df ;;
    let last_closed_ts := timestamp last_closed in
    when (negb (last_closed_ts =? target_hour))
      (print (last_closed_is_not_target_hour last_closed_ts target_hour)) ;;
    db_tail <- read_last_n_rows_ending_before (db_validate_rows cfg)
                 (last_closed_ts + HOUR) ;;
    to_append <- (if negb (empty db_tail) then validate_overlap cfg api_df db_tail
                  else ret api_df) ;;
    if empty to_append then
      print no_new_rows ;; exit 0
    else
      for_each to_append (fun row =>
        if dry_run cfg then when (debug cfg) (print (would_append row))
        else append_row_if_absent row) ;;
      print (backfill_ok (Z.of_nat (List.length to_append))
               (ts_min api_df) (ts_max api_df) last_closed_ts target_hour) ;;
      ret 0.

(** The exit code of a finished run, and the exception of a failed one. *)
Definition finish (r : Z + Stop) : Z + Error :=
  match r with
  | inl code => inl code
  | inr (Return code) => inl code
  | inr (Raise e) => inr e
  end.

(** [main], after [parse_args]. *)
Definition main (cfg : RunConfig) (now : Z) (klines : list Kline) (st : State) : (Z + Error) * State :=
  match run_once cfg now klines st with
  | (r, st') =>
      match finish r with
      | inl code => (inl code, st')
      | inr e =>
          let st'' := mkState (table st') (printed st' ++ [error e]) in
          if debug cfg then (inr e, st'') else (inl 3, st'')
      end
  end.

(** [m] leaves the table as it is; a value it goes on with satisfies
    [P], and a [return] it takes has the code 2. *)
Definition reads_only {A} (P : A -> Prop) (m : Script A) : Prop :=
  forall st,
    table (snd (m st)) = table st
    /\ (forall a, fst (m st) = inl a -> P a)
    /\ (forall code, fst (m st) = inr (Return code) -> code = 2).

(** What [m] does to the table: it adds, by [append_row_if_absent] and
    not under [--dry-run], rows of [source], and adds none unless it
    ends with exit code 0; its exit code is 0 or 2. *)
Definition appends_from (dry : bool) (source : DataFrame) (m : Script Z) : Prop :=
  forall st,
    exists rows,
      incl rows source
      /\ table (snd (m st))
         = (if dry then table st else fold_left insert_if_absent rows (table st))
      /\ (finish (fst (m st)) <> inl 0 -> rows = [])
      /\ (forall code, finish (fst (m st)) = inl code -> code = 0 \/ code = 2).

End BackfillRecent.

(** * Properties *)

(** ** The order of binary64 values

    [SFcompare] is a total preorder on the values that are not NaN; the
    comparisons of the program are read off it. *)

Lemma SFcompare_antisym x y :
  SFcompare y x = option_map CompOpp (SFcompare x y).
Proof.
  destruct x as [sx|sx| |sx mx ex], y as [sy|sy| |sy my ey]; simpl;
    try reflexivity;
    try (destruct sx; reflexivity); try (destruct sy; reflexivity);
    try (destruct sx, sy; reflexivity).
  destruct sx, sy; simpl; try reflexivity;
  cmp_cases; simpl; subst; try reflexivity; try lia.
Qed.

Lemma SFcompare_trans_lt x y z :
  SFcompare x y = Some Lt -> SFcompare y z = Some Lt -> SFcompare x z = Some Lt.
Proof.
  destruct x as [sx|sx| |sx mx ex], y as [sy|sy| |sy my ey], z as [sz|sz| |sz mz ez];
    simpl; try discriminate;
    try (destruct sx; try discriminate); try (destruct sy; try discriminate);
    try (destruct sz; try discriminate); try reflexivity; try discriminate;
    intros H1 H2; cmp_cases; subst; try discriminate; try reflexivity; try lia.
Qed.

Lemma SFcompare_Eq_l x y z :
  SFcompare x y = Some Eq -> SFcompare x z = SFcompare y z.
Proof.
  destruct x as [sx|sx| |sx mx ex], y as [sy|sy| |sy my ey], z as [sz|sz| |sz mz ez];
    simpl; try discriminate; try reflexivity;
    try (destruct sx; try discriminate); try (destruct sy; try discriminate);
    try (destruct sz; try discriminate); try reflexivity; try discriminate;
    intros H1; cmp_cases; subst; try discriminate; try reflexivity; try lia.
Qed.

Lemma SFcompare_Eq_r x y z :
  SFcompare y z = Some Eq -> SFcompare x y = SFcompare x z.
Proof.
  destruct x as [sx|sx| |sx mx ex], y as [sy|sy| |sy my ey], z as [sz|sz| |sz mz ez];
    simpl; try discriminate; try reflexivity;
    try (destruct sx; try discriminate); try (destruct sy; try discriminate);
    try (destruct sz; try discriminate); try reflexivity; try discriminate;
    intros H1; cmp_cases; subst; try discriminate; try reflexivity; try lia.
Qed.

Lemma SFcompare_None x y :
  SFcompare x y = None <-> F64.isna x = true \/ F64.isna y = true.
Proof.
  destruct x as [sx|sx| |sx mx ex], y as [sy|sy| |sy my ey]; simpl;
    split; intros H; try discriminate; auto;
    try (destruct H; discriminate).
Qed.

Lemma SFltb_trans x y z : SFltb x y = true -> SFltb y z = true -> SFltb x z = true.
Proof.
  unfold SFltb. intros H1 H2.
  destruct (SFcompare x y) as [[]|] eqn:E1; try discriminate.
  destruct (SFcompare y z) as [[]|] eqn:E2; try discriminate.
  now rewrite (SFcompare_trans_lt _ _ _ E1 E2).
Qed.

Lemma SFleb_ltb_trans x y z : SFleb x y = true -> SFltb y z = true -> SFltb x z = true.
Proof.
  unfold SFleb, SFltb. intros H1 H2.
  destruct (SFcompare x y) as [[]|] eqn:E1; try discriminate.
  - now rewrite (SFcompare_Eq_l _ _ z E1).
  - destruct (SFcompare y z) as [[]|] eqn:E2; try discriminate.
    now rewrite (SFcompare_trans_lt _ _ _ E1 E2).
Qed.

Lemma SFltb_leb_trans x y z : SFltb x y = true -> SFleb y z = true -> SFltb x z = true.
Proof.
  unfold SFleb, SFltb. intros H1 H2.
  destruct (SFcompare y z) as [[]|] eqn:E2; try discriminate.
  - now rewrite <- (SFcompare_Eq_r x _ _ E2).
  - destruct (SFcompare x y) as [[]|] eqn:E1; try discriminate.
    now rewrite (SFcompare_trans_lt _ _ _ E1 E2).
Qed.

Lemma SFleb_trans x y z : SFleb x y = true -> SFleb y z = true -> SFleb x z = true.
Proof.
  unfold SFleb. intros H1 H2.
  destruct (SFcompare x y) as [[]|] eqn:E1; try discriminate.
  - now rewrite (SFcompare_Eq_l _ _ z E1).
  - destruct (SFcompare y z) as [[]|] eqn:E2; try discriminate.
    + now rewrite <- (SFcompare_Eq_r x _ _ E2), E1.
    + now rewrite (SFcompare_trans_lt _ _ _ E1 E2).
Qed.

Lemma SFleb_iff_not_gt x y :
  SFleb x y = true <-> F64.isna x = false /\ F64.isna y = false /\ SFltb y x = false.
Proof.
  unfold SFleb, SFltb. rewrite (SFcompare_antisym x y).
  destruct (SFcompare x y) as [[]|] eqn:E; simpl; split; intros H;
    try discriminate; try (destruct H as (_ & _ & H); discriminate);
    try (repeat split; auto;
         destruct x, y; simpl in *; try reflexivity; discriminate).
  destruct H as (Hx & Hy & _).
  apply SFcompare_None in E. destruct E; congruence.
Qed.

Lemma SFcompare_refl x : F64.isna x = false -> SFcompare x x = Some Eq.
Proof.
  destruct x as [s|s| |s m e]; simpl; try discriminate; intros _;
    try (destruct s; reflexivity).
  destruct s; rewrite Z.compare_refl;
    change (Pos.compare_cont Eq m m) with (Pos.compare m m);
    now rewrite Pos.compare_refl.
Qed.

Lemma SFleb_refl x : F64.isna x = false -> SFleb x x = true.
Proof. intros H; unfold SFleb; now rewrite SFcompare_refl. Qed.

Lemma SFltb_not_nan x y :
  SFltb x y = true -> F64.isna x = false /\ F64.isna y = false.
Proof.
  unfold SFltb; destruct (SFcompare x y) as [c|] eqn:E; try discriminate.
  intros _; destruct x, y; simpl in *; auto; discriminate.
Qed.

(** ** [series_max] *)

Lemma nanmax_step_not_nan acc x :
  F64.isna acc = false -> F64.isna (nanmax_step acc x) = false.
Proof.
  intros H; unfold nanmax_step.
  destruct (F64.isna x) eqn:Ex; auto. rewrite H.
  destruct (F64.ltb acc x); auto.
Qed.

Lemma fold_nanmax_not_nan s : forall acc,
  F64.isna acc = false -> F64.isna (fold_left nanmax_step s acc) = false.
Proof.
  induction s as [|x s IH]; simpl; intros acc H; auto.
  apply IH, nanmax_step_not_nan, H.
Qed.

Lemma fold_nanmax_ge_acc s : forall acc,
  F64.isna acc = false -> F64.leb acc (fold_left nanmax_step s acc) = true.
Proof.
  induction s as [|x s IH]; simpl; intros acc H.
  - now apply SFleb_refl.
  - unfold F64.leb in *.
    apply SFleb_trans with (y := nanmax_step acc x).
    + unfold nanmax_step. destruct (F64.isna x) eqn:Ex.
      * now apply SFleb_refl.
      * rewrite H. destruct (F64.ltb acc x) eqn:El.
        -- unfold F64.ltb, SFltb in El. unfold SFleb.
           destruct (SFcompare acc x) as [[]|]; auto; discriminate.
        -- now apply SFleb_refl.
    + apply IH, nanmax_step_not_nan, H.
Qed.

Lemma nanmax_step_ge x acc :
  F64.isna x = false -> F64.leb x (nanmax_step acc x) = true.
Proof.
  intros Hx; unfold nanmax_step, F64.leb. rewrite Hx.
  destruct (F64.isna acc) eqn:Ea.
  - now apply SFleb_refl.
  - destruct (F64.ltb acc x) eqn:El.
    + now apply SFleb_refl.
    + apply SFleb_iff_not_gt. auto.
Qed.

Lemma nanmax_step_x_not_nan x acc :
  F64.isna x = false -> F64.isna (nanmax_step acc x) = false.
Proof.
  intros Hx; unfold nanmax_step. rewrite Hx.
  destruct (F64.isna acc) eqn:Ea; auto.
  destruct (F64.ltb acc x); auto.
Qed.

(** The maximum bounds every entry that is not NaN. *)
Lemma fold_nanmax_upper s : forall acc y,
  In y s -> F64.isna y = false ->
  F64.leb y (fold_left nanmax_step s acc) = true.
Proof.
  induction s as [|x s IH]; simpl; intros acc y Hin Hy; [contradiction|].
  destruct Hin as [->|Hin].
  - unfold F64.leb. apply SFleb_trans with (y := nanmax_step acc y).
    + now apply nanmax_step_ge.
    + apply fold_nanmax_ge_acc. now apply nanmax_step_x_not_nan.
  - now apply IH.
Qed.

Lemma series_max_upper s y :
  In y s -> F64.isna y = false -> F64.leb y (series_max s) = true.
Proof. apply fold_nanmax_upper. Qed.

(** The maximum is the accumulator or an entry. *)
Lemma fold_nanmax_in s : forall acc,
  fold_left nanmax_step s acc = acc \/ In (fold_left nanmax_step s acc) s.
Proof.
  induction s as [|x s IH]; simpl; intros acc; auto.
  destruct (IH (nanmax_step acc x)) as [E|Hin]; auto.
  rewrite E. unfold nanmax_step.
  destruct (F64.isna x); auto. destruct (F64.isna acc); auto.
  destruct (F64.ltb acc x); auto.
Qed.

Lemma series_max_in s :
  F64.isna (series_max s) = false -> In (series_max s) s.
Proof.
  intros H. destruct (fold_nanmax_in s F64.nan) as [E|Hin]; auto.
  unfold series_max in H. rewrite E in H. discriminate.
Qed.

Lemma series_max_not_nan s y :
  In y s -> F64.isna y = false -> F64.isna (series_max s) = false.
Proof.
  intros Hin Hy. pose proof (series_max_upper s y Hin Hy) as H.
  apply SFleb_iff_not_gt in H. tauto.
Qed.

(** ** The continuity check *)

Lemma all_hourly_diff_spec (ts : list Z) :
  all_hourly (diff ts) = true <->
  forall i a b, nth_error ts i = Some a -> nth_error ts (S i) = Some b ->
                b - a = HOUR.
Proof.
  induction ts as [|x ts IH].
  - split; auto. intros _ [|i] a b H; discriminate.
  - destruct ts as [|y ts].
    + split; auto. intros _ [|[|i]] a b H1 H2; discriminate.
    + change (all_hourly (diff (x :: y :: ts)))
        with ((y - x =? HOUR) && all_hourly (diff (y :: ts))).
      rewrite andb_true_iff, IH, Z.eqb_eq. split.
      * intros [Hxy Hrest] [|i] a b Ha Hb.
        -- simpl in Ha, Hb. congruence.
        -- apply (Hrest i); assumption.
      * intros H. split.
        -- apply (H 0%nat); reflexivity.
        -- intros i a b Ha Hb. apply (H (S i)); assumption.
Qed.

Lemma is_strictly_hourly_spec (df : DataFrame) :
  _is_strictly_hourly df = true <->
  forall i a b, nth_error df i = Some a -> nth_error df (S i) = Some b ->
                timestamp b - timestamp a = HOUR.
Proof.
  unfold _is_strictly_hourly. destruct df as [|r df].
  - simpl. split; auto. intros _ [|i] a b H; discriminate.
  - cbn [empty]. rewrite all_hourly_diff_spec. split.
    + intros H i a b Ha Hb.
      apply (H i); rewrite nth_error_map; [rewrite Ha|rewrite Hb]; reflexivity.
    + intros H i a b Ha Hb. rewrite nth_error_map in Ha, Hb.
      destruct (nth_error (r :: df) i) as [ra|] eqn:Ea; try discriminate.
      destruct (nth_error (r :: df) (S i)) as [rb|] eqn:Eb; try discriminate.
      injection Ha as <-. injection Hb as <-. now apply (H i).
Qed.

(** C6. The continuity check accepts every empty and every single-row
    window; it accepts a longer window exactly when every two consecutive
    timestamps are one bar (3600 seconds) apart. The window 08:00, 09:00,
    10:00 passes and the window 08:00, 09:00, 11:00 fails. *)
Theorem continuity_check_correct :
  HOUR = 3600 * 1000
  /\ _is_strictly_hourly [] = true
  /\ (forall r, _is_strictly_hourly [r] = true)
  /\ (forall df,
        _is_strictly_hourly df = true <->
        forall i a b, nth_error df i = Some a -> nth_error df (S i) = Some b ->
                      timestamp b - timestamp a = HOUR)
  /\ _is_strictly_hourly [bar 8 100; bar 9 101; bar 10 102] = true
  /\ _is_strictly_hourly [bar 8 100; bar 9 101; bar 11 102] = false.
Proof.
  repeat split; try reflexivity.
  - apply is_strictly_hourly_spec.
  - apply is_strictly_hourly_spec.
Qed.

(** ** The result of [validate_window] *)

Lemma removelast_length {A} (l : list A) :
  List.length (removelast l) = (List.length l - 1)%nat.
Proof.
  induction l as [|x l IH]; auto.
  destruct l as [|y l]; auto.
  change (removelast (x :: y :: l)) with (x :: removelast (y :: l)).
  simpl List.length in *. rewrite IH. lia.
Qed.

Lemma empty_true {A} (l : list A) : empty l = true <-> l = [].
Proof. destruct l; simpl; split; auto; discriminate. Qed.

Lemma empty_false {A} (l : list A) : empty l = false <-> l <> [].
Proof. destruct l; simpl; split; auto; try discriminate; congruence. Qed.

Lemma compare_columns_reason cols db_tail api_hist tol r :
  compare_columns cols db_tail api_hist tol = Some r ->
  exists c, In c cols /\
    (r = NaN_in_column c \/ exists d, r = mismatch_in c d).
Proof.
  induction cols as [|c cols IH]; simpl; [discriminate|].
  destruct (F64.isna _).
  - intros [= <-]. exists c; auto.
  - destruct (F64.gtb _ _).
    + intros [= <-]. exists c; split; eauto.
    + intros H. destruct (IH H) as (c' & Hin & Hr). exists c'; auto.
Qed.

(** C9. Whatever the input, the result of [validate_window] has
    [validated_rows = 0] when [ok] is false and
    [validated_rows = len(incoming) - 1] when [ok] is true, and its reason
    renders to a non-empty string. *)
Theorem validation_result_invariant
    (format_float : float -> string)
    (api_df db_df : DataFrame) (target_hour : Z) (tolerance : float) :
  let r := validate_window api_df db_df target_hour tolerance in
  (ok r = false -> validated_rows r = 0)
  /\ (ok r = true -> validated_rows r = Z.of_nat (List.length api_df) - 1)
  /\ reason_str format_float (reason r) <> "".
Proof.
  unfold validate_window.
  destruct api_df as [|first_row rest];
    [cbn; repeat split; discriminate|].
  set (api_df := first_row :: rest).
  destruct (negb (timestamp (last api_df first_row) =? target_hour));
    [cbn; repeat split; discriminate|].
  destruct (empty (removelast api_df)) eqn:Ehist.
  { cbn [ok validated_rows reason reason_str].
    repeat split; try discriminate. intros _.
    apply empty_true in Ehist.
    pose proof (removelast_length api_df) as L. rewrite Ehist in L.
    subst api_df. simpl List.length in L. simpl List.length. lia. }
  destruct (_ && _); [cbn; repeat split; discriminate|].
  destruct (_ <? _)%nat; [cbn; repeat split; discriminate|].
  destruct (negb (tolist_eqb _ _)); [cbn; repeat split; discriminate|].
  destruct (compare_columns _ _ _ _) as [r|] eqn:Ecmp;
    cbn [ok validated_rows reason].
  - repeat split; try discriminate.
    apply compare_columns_reason in Ecmp.
    destruct Ecmp as (c & _ & [->|[d ->]]); destruct c; discriminate.
  - repeat split; try discriminate. intros _.
    rewrite removelast_length. subst api_df. simpl List.length. lia.
Qed.

(** ** Unfolding [validate_window] and [run_once] *)

Lemma last_snoc {A} (l : list A) (x d : A) : last (l ++ [x]) d = x.
Proof. apply last_last. Qed.

Lemma removelast_snoc {A} (l : list A) (x : A) : removelast (l ++ [x]) = l.
Proof. apply removelast_last. Qed.

(** Past the anchor check, with a non-empty validation range. *)
Lemma validate_window_history (init : DataFrame) (row : Row)
    (db_df : DataFrame) (tolerance : float) :
  init <> [] ->
  validate_window (init ++ [row]) db_df (timestamp row) tolerance =
    if negb (_is_strictly_hourly (init ++ [row]))
       && negb (all_hourly (diff (ZSort.sort (map timestamp (init ++ [row])))))
    then mkValidationResult false api_window_not_strictly_hourly 0
    else if (List.length db_df <? List.length init)%nat then
      mkValidationResult false db_has_fewer_rows_than_validation_window 0
    else
      let db_tail := tail (List.length init) db_df in
      if negb (tolist_eqb (map timestamp db_tail) (map timestamp init))
      then mkValidationResult false timestamp_mismatch_between_api_and_db 0
      else
        match compare_columns ohlcv db_tail init tolerance with
        | Some r => mkValidationResult false r 0
        | None => mkValidationResult true validated (Z.of_nat (List.length init))
        end.
Proof.
  intros Hinit. unfold validate_window.
  destruct (init ++ [row]) as [|first_row rest] eqn:E.
  { destruct init; discriminate. }
  rewrite <- E. rewrite last_snoc, Z.eqb_refl, removelast_snoc.
  cbn [negb]. apply empty_false in Hinit. rewrite Hinit. reflexivity.
Qed.

Lemma at_least_two_rows {A} (l : list A) :
  (2 <= List.length l)%nat ->
  exists init x, l = (init ++ [x]) /\ init <> [] /\
                 List.length init = (List.length l - 1)%nat.
Proof.
  intros H.
  assert (Hne : l <> []) by (destruct l; [simpl in H; lia|discriminate]).
  destruct (exists_last Hne) as (init & x & ->).
  exists init, x. rewrite length_app in *. simpl in *.
  split; [reflexivity|]. split; [|lia].
  destruct init; [simpl in H; lia|discriminate].
Qed.

Lemma iloc_last_snoc {A} (l : list A) (x : A) (w : World) :
  iloc_last (l ++ [x]) w = (Returned x, w).
Proof. unfold iloc_last. rewrite rev_app_distr. reflexivity. Qed.

Lemma closed_window_has_close_time now klines :
  closed_window now klines <> [] ->
  has_close_time (klines_to_dataframe klines) = true.
Proof.
  unfold closed_window, klines_to_dataframe.
  destruct (empty klines); [intros H; now elim H|reflexivity].
Qed.

(** When the closed window ends at the target hour, [run_once] writes
    the snapshot and enters one of its two branches. *)
Lemma run_once_accepts cfg now klines init row_t (w : World) :
  closed_window now klines = (init ++ [row_t]) ->
  timestamp row_t = target_of now ->
  run_once cfg now klines w =
    (emit (write_raw_snapshot (rows (klines_to_dataframe klines))) ;;
     r <- (if catch_up cfg then catch_up_branch cfg (init ++ [row_t])
           else single_bar_branch cfg (init ++ [row_t]) (target_of now)) ;;
     match r with
     | inl code => ret code
     | inr l =>
         print_stats_and_exit
           (Z.of_nat (List.length (rows (klines_to_dataframe klines))))
           (target_of now) l
     end) w.
Proof.
  intros Hclosed Hts.
  assert (Hne : closed_window now klines <> []).
  { rewrite Hclosed. destruct init; discriminate. }
  pose proof (closed_window_has_close_time _ _ Hne) as Hct.
  unfold run_once, closed_window, target_of in *.
  unfold compute_target_hour in *. cbn [fst snd] in *.
  rewrite Hct. cbn [negb]. rewrite Hclosed.
  replace (empty (init ++ [row_t])) with false
    by (destruct init; reflexivity).
  unfold ensure_table.
  unfold bind at 1. cbn [ret].
  unfold bind at 1. rewrite iloc_last_snoc.
  rewrite Hts, Z.eqb_refl. reflexivity.
Qed.

(** ** Bootstrap in single-bar mode *)

Lemma validate_window_insufficient_history init row db_df tolerance :
  init <> [] -> (List.length db_df < List.length init)%nat ->
  ok (validate_window (init ++ [row]) db_df (timestamp row) tolerance) = false.
Proof.
  intros Hinit Hlen. rewrite validate_window_history by assumption.
  destruct (_ && _); [reflexivity|].
  apply Nat.ltb_lt in Hlen. rewrite Hlen. reflexivity.
Qed.

Lemma tail_one_snoc {A} (l : list A) (x : A) : tail 1 (l ++ [x]) = [x].
Proof.
  unfold tail. rewrite length_app. simpl List.length.
  replace (List.length l + 1 - 1)%nat with (List.length l) by lia.
  rewrite skipn_app, Nat.sub_diag, skipn_all. reflexivity.
Qed.

Lemma appends_app tr1 tr2 : appends (tr1 ++ tr2) = appends tr1 ++ appends tr2.
Proof.
  induction tr1 as [|e tr1 IH]; simpl; auto.
  destruct e; simpl; rewrite IH; reflexivity.
Qed.

(** C5. A window of at least two rows that ends at the anchor is
    rejected when the stored tail has fewer rows than the validation
    range, in particular when it is empty; and in single-bar mode a run
    whose tail read is empty then still appends the anchor row and exits
    with code 0. *)
Theorem insufficient_history_and_bootstrap :
  (forall incoming stored_tail anchor tolerance,
      (2 <= List.length incoming)%nat ->
      (exists init row, incoming = init ++ [row] /\ timestamp row = anchor) ->
      (List.length stored_tail < List.length incoming - 1)%nat ->
      ok (validate_window incoming stored_tail anchor tolerance) = false)
  /\ (forall incoming anchor tolerance,
      (2 <= List.length incoming)%nat ->
      (exists init row, incoming = init ++ [row] /\ timestamp row = anchor) ->
      ok (validate_window incoming [] anchor tolerance) = false)
  /\ (forall cfg now klines w init row_t,
      catch_up cfg = false -> dry_run cfg = false ->
      closed_window now klines = init ++ [row_t] ->
      (2 <= List.length (closed_window now klines))%nat ->
      timestamp row_t = target_of now ->
      select_last_n_before (db w) (n_recent cfg - 1) (target_of now) = Some [] ->
      ok (validate_window (closed_window now klines) [] (target_of now)
            default_tolerance) = false
      /\ exists w',
          run_once cfg now klines w = (Returned 0, w')
          /\ db w' = insert_if_absent (db w) row_t
          /\ appends (trace w') = appends (trace w) ++ [row_t]).
Proof.
  assert (P1 : forall incoming stored_tail anchor tolerance,
      (2 <= List.length incoming)%nat ->
      (exists init row, incoming = init ++ [row] /\ timestamp row = anchor) ->
      (List.length stored_tail < List.length incoming - 1)%nat ->
      ok (validate_window incoming stored_tail anchor tolerance) = false).
  { intros incoming stored_tail anchor tolerance H2 (init & row & -> & <-) Hlen.
    rewrite length_app in *. simpl List.length in *.
    apply validate_window_insufficient_history; [|lia].
    destruct init; [simpl in H2; lia|discriminate]. }
  split; [exact P1|]. split.
  { intros incoming anchor tolerance H2 Hend. apply P1; auto.
    simpl List.length. lia. }
  intros cfg now klines w init row_t Hcu Hdry Hclosed H2 Hts Hsel.
  assert (Hfail : ok (validate_window (closed_window now klines) []
                        (target_of now) default_tolerance) = false).
  { apply P1; auto; [|simpl List.length; lia].
    exists init, row_t; auto. }
  split; [exact Hfail|].
  rewrite Hclosed in Hfail.
  rewrite (run_once_accepts cfg now klines init row_t w Hclosed Hts).
  rewrite Hcu.
  unfold single_bar_branch, read_last_n_rows_ending_before, call_validate,
    append_row_if_absent, print_stats_and_exit.
  run_monad. rewrite Hsel. run_monad. rewrite Hfail.
  cbn [negb andb orb List.length Nat.eqb].
  unfold iloc. rewrite tail_one_snoc. cbn [nth_error]. rewrite Hdry.
  destruct (debug cfg); run_monad; cbn [ok v allow_bootstrap appended];
    rewrite ?Hfail; run_monad;
    eexists; (split; [reflexivity|]); cbn [db trace]; (split; [reflexivity|]);
    rewrite !appends_app; simpl; rewrite ?app_nil_r; reflexivity.
Qed.

Lemma insufficient_history_and_bootstrap_witness :
  ok (validate_window [bar 8 100; bar 9 110; bar 10 120] [bar 9 110]
        (at_hour 10) default_tolerance) = false
  /\ ok (validate_window [bar 8 100; bar 9 110; bar 10 120] []
        (at_hour 10) default_tolerance) = false
  /\ exists w',
      run_once (mkRunConfig 3 false false false) (at_hour 11)
        [make_k 8 100; make_k 9 110; make_k 10 120] empty_world
      = (Returned 0, w')
      /\ db w' = [bar 10 120].
Proof.
  destruct insufficient_history_and_bootstrap as (P1 & P2 & P3).
  split; [|split].
  - apply P1; [simpl; lia| |simpl; lia].
    exists [bar 8 100; bar 9 110], (bar 10 120). split; reflexivity.
  - apply P2; [simpl; lia|].
    exists [bar 8 100; bar 9 110], (bar 10 120). split; reflexivity.
  - destruct (P3 (mkRunConfig 3 false false false) (at_hour 11)
                [make_k 8 100; make_k 9 110; make_k 10 120] empty_world
                [bar 8 100; bar 9 110] (bar 10 120))
      as (_ & w' & Hrun & Hdb & _);
      try reflexivity.
    + vm_compute. lia.
    + exists w'. split; [exact Hrun|exact Hdb].
Defined.

(** ** Idempotence of [append_row_if_absent] *)

Lemma exists_timestamp_iff (s : Store) (ts : Z) :
  exists_timestamp s ts = true <-> In ts (map timestamp s).
Proof.
  unfold exists_timestamp. rewrite existsb_exists, in_map_iff.
  split; intros (r & H1 & H2).
  - exists r. apply Z.eqb_eq in H2. auto.
  - exists r. split; auto. apply Z.eqb_eq. auto.
Qed.

Lemma exists_timestamp_insert (s : Store) (row : Row) :
  exists_timestamp (insert_if_absent s row) (timestamp row) = true.
Proof.
  unfold insert_if_absent.
  destruct (exists_timestamp s (timestamp row)) eqn:E; auto.
  apply exists_timestamp_iff. rewrite map_app, in_app_iff. right. now left.
Qed.

Lemma insert_if_absent_idempotent (s : Store) (row : Row) :
  insert_if_absent (insert_if_absent s row) row = insert_if_absent s row.
Proof.
  unfold insert_if_absent at 1. now rewrite exists_timestamp_insert.
Qed.

Lemma insert_if_absent_unique (s : Store) (row : Row) :
  unique_index s -> unique_index (insert_if_absent s row).
Proof.
  unfold unique_index, insert_if_absent. intros H.
  destruct (exists_timestamp s (timestamp row)) eqn:E; auto.
  rewrite map_app. simpl.
  apply NoDup_app_remove_l with (l := []). simpl.
  apply Permutation_NoDup with (l := timestamp row :: map timestamp s).
  - apply Permutation_cons_append.
  - constructor; auto. intros Hin. apply exists_timestamp_iff in Hin. congruence.
Qed.

Lemma rows_off_insert (s : Store) (row : Row) :
  rows_off (timestamp row) (insert_if_absent s row) = rows_off (timestamp row) s.
Proof.
  unfold rows_off, insert_if_absent.
  destruct (exists_timestamp s (timestamp row)); auto.
  rewrite filter_app. simpl. rewrite Z.eqb_refl. simpl. apply app_nil_r.
Qed.

Lemma rows_at_absent (s : Store) (ts : Z) :
  exists_timestamp s ts = false -> rows_at ts s = [].
Proof.
  unfold exists_timestamp, rows_at. induction s as [|r s IH]; simpl; auto.
  destruct (timestamp r =? ts); simpl; [discriminate|auto].
Qed.

Lemma rows_at_unique (s : Store) (ts : Z) :
  unique_index s -> (List.length (rows_at ts s) <= 1)%nat.
Proof.
  unfold unique_index, rows_at. induction s as [|r s IH]; simpl; auto.
  intros H. inversion H as [|? ? Hnotin Hnodup]; subst.
  destruct (Z.eqb_spec (timestamp r) ts) as [E|E]; auto.
  simpl. fold (rows_at ts s). rewrite rows_at_absent; auto.
  destruct (exists_timestamp s ts) eqn:Ex; auto.
  apply exists_timestamp_iff in Ex. subst; contradiction.
Qed.

Lemma rows_at_insert (s : Store) (row : Row) :
  unique_index s ->
  List.length (rows_at (timestamp row) (insert_if_absent s row)) = 1%nat.
Proof.
  intros H.
  pose proof (rows_at_unique _ (timestamp row) (insert_if_absent_unique s row H)) as Hle.
  pose proof (exists_timestamp_insert s row) as Hex.
  destruct (rows_at (timestamp row) (insert_if_absent s row)) as [|r l] eqn:E.
  - exfalso. unfold exists_timestamp in Hex. apply existsb_exists in Hex.
    destruct Hex as (r & Hin & Hr).
    assert (Hf : In r (rows_at (timestamp row) (insert_if_absent s row))).
    { unfold rows_at. apply filter_In. auto. }
    rewrite E in Hf. contradiction.
  - simpl in *. lia.
Qed.

(** C7. On a Store with its unique index, appending the same candle
    twice succeeds both times; the second call changes nothing; exactly
    one row is stored at the candle's timestamp afterwards, and the rows
    at every other timestamp are those that were there before. *)
Theorem append_row_if_absent_idempotent (w : World) (row : Row) :
  unique_index (db w) ->
  exists w1 w2,
    append_row_if_absent row w = (Returned tt, w1)
    /\ append_row_if_absent row w1 = (Returned tt, w2)
    /\ db w2 = db w1
    /\ List.length (rows_at (timestamp row) (db w2)) = 1%nat
    /\ rows_off (timestamp row) (db w2) = rows_off (timestamp row) (db w)
    /\ unique_index (db w2).
Proof.
  intros Hu. unfold append_row_if_absent. run_monad.
  do 2 eexists. split; [reflexivity|]. split; [reflexivity|].
  cbn [db]. rewrite insert_if_absent_idempotent.
  split; [reflexivity|]. split; [now apply rows_at_insert|].
  split; [apply rows_off_insert|now apply insert_if_absent_unique].
Qed.

Lemma append_row_if_absent_idempotent_witness :
  unique_index [bar 8 100; bar 9 110]
  /\ exists w1 w2,
      append_row_if_absent (bar 10 120) (mkWorld [bar 8 100; bar 9 110] []) = (Returned tt, w1)
      /\ append_row_if_absent (bar 10 120) w1 = (Returned tt, w2)
      /\ db w2 = [bar 8 100; bar 9 110; bar 10 120].
Proof.
  assert (Hu : unique_index [bar 8 100; bar 9 110]).
  { unfold unique_index. repeat constructor; simpl; intuition discriminate. }
  split; [exact Hu|].
  destruct (append_row_if_absent_idempotent (mkWorld [bar 8 100; bar 9 110] [])
              (bar 10 120) Hu) as (w1 & w2 & H1 & H2 & H3 & _).
  exists w1, w2. split; [exact H1|]. split; [exact H2|].
  rewrite H3. unfold append_row_if_absent in H1. 
  injection H1 as <-. reflexivity.
Defined.

(** ** The batch backfill's [clean_transform] *)

Lemma when_returns (c : bool) (e : Event) (w : World) :
  exists w', when c (emit e) w = (Returned tt, w') /\ db w' = db w.
Proof. destruct c; run_monad; eexists; split; reflexivity. Qed.

(** Past the column check, [clean_transform] returns the cleaned rows
    when there is one, and raises [IndexError] when there is none. *)
Lemma clean_transform_outcome (df : CsvFrame) (start end_ : option Z) (w : World) :
  missing df = [] ->
  exists w',
    clean_transform df start end_ w =
      (match cleaned df start end_ with
       | [] => Raised IndexError
       | _ :: _ => Returned (cleaned df start end_)
       end, w').
Proof.
  intros Hm. unfold clean_transform. rewrite Hm. cbn [empty negb].
  fold (cleaned df start end_).
  unfold bind at 1.
  destruct (when_returns
              (negb (Z.of_nat (List.length (csv_rows df))
                     - Z.of_nat (List.length (dropna (csv_rows df))) =? 0))
              (print (CLEAN_dropped_rows_with_NaNs
                        (Z.of_nat (List.length (csv_rows df))
                         - Z.of_nat (List.length (dropna (csv_rows df))))))
              w) as (w1 & -> & _).
  unfold bind at 1.
  match goal with
  | |- context [when ?c (emit ?e) w1] =>
      destruct (when_returns c e w1) as (w2 & -> & _)
  end.
  destruct (cleaned df start end_) as [|r out] eqn:E.
  - eexists. reflexivity.
  - unfold bind at 1. unfold iloc at 1. cbn [nth_error ret].
    unfold bind at 1. unfold iloc_last.
    destruct (rev (r :: out)) as [|final rest] eqn:Er.
    { apply (f_equal (@List.length Row)) in Er. rewrite length_rev in Er.
      discriminate. }
    cbn [ret]. run_monad.
    destruct (has_column df "close_time"); [|eexists; reflexivity].
    destruct (negb _); eexists; reflexivity.
Qed.

Lemma drop_duplicates_from_In seen df r :
  In r (drop_duplicates_from seen df) -> In r df.
Proof.
  revert seen. induction df as [|x df IH]; simpl; intros seen H; auto.
  destruct (existsb _ seen).
  - right. eapply IH; eauto.
  - destruct H as [->|H]; auto. right. eapply IH; eauto.
Qed.

Lemma cleaned_In df start end_ r :
  In r (cleaned df start end_) ->
  In r (dropna (csv_rows df))
  /\ (forall s, start = Some s -> s <= timestamp r)
  /\ (forall e, end_ = Some e -> timestamp r <= e).
Proof.
  unfold cleaned, range_filter, drop_duplicates. intros H.
  assert (Hsub : forall l, In r (drop_duplicates_from [] (RowSort.sort l)) -> In r l).
  { intros l Hl. apply drop_duplicates_from_In in Hl.
    eapply Permutation_in; [|exact Hl].
    apply Permutation_sym, RowSort.Permuted_sort. }
  destruct start as [s|], end_ as [e|];
    repeat match goal with
           | H : In _ (filter _ _) |- _ => apply filter_In in H; destruct H
           end;
    (split; [now apply Hsub|]);
    split; intros x [= <-]; lia.
Qed.

(** C10. Once the required columns are present, [clean_transform]
    raises an out-of-bounds [IndexError] whenever NaN-dropping,
    de-duplication and the range filter leave no row, for instance under
    a range that starts after every timestamp; hence a frame it returns
    is never empty. *)
Theorem clean_transform_never_returns_empty :
  (forall df start end_ w,
      missing df = [] -> cleaned df start end_ = [] ->
      fst (clean_transform df start end_ w) = Raised IndexError)
  /\ (forall df s end_ w,
      missing df = [] ->
      (forall r, In r (dropna (csv_rows df)) -> timestamp r < s) ->
      fst (clean_transform df (Some s) end_ w) = Raised IndexError)
  /\ (forall df start end_ w out w',
      clean_transform df start end_ w = (Returned out, w') -> out <> []).
Proof.
  assert (P1 : forall df start end_ w,
      missing df = [] -> cleaned df start end_ = [] ->
      fst (clean_transform df start end_ w) = Raised IndexError).
  { intros df start end_ w Hm Hc.
    destruct (clean_transform_outcome df start end_ w Hm) as (w' & ->).
    rewrite Hc. reflexivity. }
  split; [exact P1|]. split.
  - intros df s end_ w Hm Hall. apply P1; auto.
    destruct (cleaned df (Some s) end_) as [|r rest] eqn:E; auto.
    assert (Hin : In r (cleaned df (Some s) end_)) by (rewrite E; now left).
    apply cleaned_In in Hin. destruct Hin as (Hin & Hs & _).
    specialize (Hall r Hin). specialize (Hs s eq_refl). lia.
  - intros df start end_ w out w' Hrun.
    destruct (missing df) as [|c cs] eqn:Hm.
    + destruct (clean_transform_outcome df start end_ w Hm) as (w1 & Hout).
      rewrite Hout in Hrun.
      destruct (cleaned df start end_) as [|r rest] eqn:E; [discriminate|].
      injection Hrun as <- _. discriminate.
    + unfold clean_transform in Hrun. rewrite Hm in Hrun. discriminate.
Qed.


Lemma clean_transform_never_returns_empty_witness :
  cleaned merged_csv (Some (at_hour 10)) None = []
  /\ fst (clean_transform merged_csv (Some (at_hour 10)) None empty_world)
     = Raised IndexError
  /\ cleaned merged_csv None None <> [].
Proof.
  destruct clean_transform_never_returns_empty as (P1 & _ & P3).
  split; [vm_compute; reflexivity|]. split.
  - apply P1; vm_compute; reflexivity.
  - apply (P3 merged_csv None None empty_world (cleaned merged_csv None None)
             (snd (clean_transform merged_csv None None empty_world))).
    vm_compute. reflexivity.
Defined.

(** ** Catch-up mode *)

Lemma for_each_append (rows : DataFrame) : forall w,
  for_each rows append_row_if_absent w =
    (Returned tt,
     mkWorld (fold_left insert_if_absent rows (db w))
             (trace w ++ map call_append_row_if_absent rows)).
Proof.
  induction rows as [|r rows IH]; intros w.
  - simpl. unfold ret. rewrite app_nil_r. now destruct w.
  - cbn [for_each]. unfold bind at 1. unfold append_row_if_absent at 1.
    run_monad. rewrite IH. cbn [db trace fold_left map].
    rewrite <- app_assoc. reflexivity.
Qed.

Lemma append_all_run cfg (rows : DataFrame) (w : World) :
  dry_run cfg = false ->
  append_all cfg rows w =
    (Returned (Z.of_nat (List.length rows)),
     mkWorld (fold_left insert_if_absent rows (db w))
             (trace w ++ map call_append_row_if_absent rows)).
Proof.
  intros Hdry. unfold append_all. rewrite Hdry.
  unfold bind. rewrite for_each_append. reflexivity.
Qed.

Lemma appends_map_calls (rows : DataFrame) :
  appends (map call_append_row_if_absent rows) = rows.
Proof. induction rows as [|r rows IH]; simpl; congruence. Qed.

(** On an empty Store the catch-up branch appends the whole closed
    window and leaves [v] and [allow_bootstrap] unbound. *)
Lemma catch_up_branch_bootstrap cfg (closed_df : DataFrame) (w : World) :
  dry_run cfg = false -> db w = [] -> closed_df <> [] ->
  catch_up_branch cfg closed_df w =
    (Returned (inr (mkLocals None None (Z.of_nat (List.length closed_df)))),
     mkWorld (fold_left insert_if_absent closed_df [])
             (trace w ++ call_coverage_stats
                :: map call_append_row_if_absent closed_df)).
Proof.
  intros Hdry Hdb Hne. unfold catch_up_branch, coverage_stats.
  run_monad. rewrite Hdb. cbn [coverage]. run_monad.
  apply empty_false in Hne. rewrite Hne.
  rewrite append_all_run by assumption. cbn [db trace].
  rewrite <- app_assoc. reflexivity.
Qed.

(** Catch-up on an empty Store: the rows are written, then the stats
    line reads the unbound local [v]. *)
Lemma catch_up_bootstrap_unbound_local cfg now klines init row_t (w : World) :
  catch_up cfg = true -> dry_run cfg = false -> db w = [] ->
  closed_window now klines = init ++ [row_t] ->
  timestamp row_t = target_of now ->
  exists w',
    run_once cfg now klines w = (Raised (UnboundLocalError "v"), w')
    /\ db w' = fold_left insert_if_absent (closed_window now klines) []
    /\ appends (trace w') = appends (trace w) ++ closed_window now klines.
Proof.
  intros Hcu Hdry Hdb Hclosed Hts.
  rewrite (run_once_accepts cfg now klines init row_t w Hclosed Hts).
  rewrite Hcu, Hclosed. unfold bind at 1. unfold emit at 1.
  unfold bind at 1.
  rewrite catch_up_branch_bootstrap;
    [|assumption|assumption|destruct init; discriminate].
  unfold print_stats_and_exit. run_monad.
  eexists. split; [reflexivity|]. cbn [db trace]. split; [reflexivity|].
  rewrite !appends_app. simpl. rewrite appends_map_calls, app_nil_r.
  reflexivity.
Qed.

(** C3 (the code departs from the claim). Catch-up on an empty Store
    with the closed window 08:00..11:00: the four rows are appended
    without any validation, but [run_once] then raises
    [UnboundLocalError] on [v], so that [main] exits with code 3 instead
    of 0. *)
Theorem catch_up_bootstrap_exits_with_error :
  let cfg := mkRunConfig 4 false false true in
  let klines := [make_k 8 100; make_k 9 110; make_k 10 120; make_k 11 130] in
  fst (run_once cfg (at_hour 12) klines empty_world)
    = Raised (UnboundLocalError "v")
  /\ db (snd (run_once cfg (at_hour 12) klines empty_world))
    = [bar 8 100; bar 9 110; bar 10 120; bar 11 130]
  /\ appends (trace (snd (run_once cfg (at_hour 12) klines empty_world)))
    = [bar 8 100; bar 9 110; bar 10 120; bar 11 130]
  /\ fst (main cfg (at_hour 12) klines empty_world) = Returned 3.
Proof.
  intros cfg klines.
  destruct (catch_up_bootstrap_unbound_local cfg (at_hour 12) klines
              [bar 8 100; bar 9 110; bar 10 120] (bar 11 130) empty_world)
    as (w' & Hrun & Hdb & Happ); try reflexivity.
  unfold main. rewrite Hrun. cbn [fst snd]. rewrite Hdb, Happ.
  repeat split; reflexivity.
Qed.

(** ** NaN and non-finite values in the comparison *)

(** C2 (the code departs from the claim). A NaN in one stored value, or
    an infinite value on both sides, is skipped by the column maximum
    when another row of the column compares: the window is validated.
    Only a column whose every aligned difference is NaN is reported. *)
Theorem nan_in_one_row_is_not_reported :
  let incoming := [bar 8 100; bar 9 110; bar 10 120] in
  let stored_nan := [set_col Open F64.nan (bar 8 100); bar 9 110] in
  let inf := S754_infinity false in
  let incoming_inf := [set_col Close inf (bar 8 100); bar 9 110; bar 10 120] in
  let stored_inf := [set_col Close inf (bar 8 100); bar 9 110] in
  let stored_all_nan :=
    [set_col Open F64.nan (bar 8 100); set_col Open F64.nan (bar 9 110)] in
  reaches_comparison incoming stored_nan (at_hour 10)
  /\ validate_window incoming stored_nan (at_hour 10) default_tolerance
     = mkValidationResult true validated 2
  /\ reaches_comparison incoming_inf stored_inf (at_hour 10)
  /\ validate_window incoming_inf stored_inf (at_hour 10) default_tolerance
     = mkValidationResult true validated 2
  /\ validate_window incoming stored_all_nan (at_hour 10) default_tolerance
     = mkValidationResult false (NaN_in_column Open) 0.
Proof.
  intros.
  assert (R : forall a b init row,
             a = init ++ [row] -> timestamp row = at_hour 10 ->
             (2 <= List.length a)%nat ->
             _is_strictly_hourly a = true ->
             (List.length a - 1 <= List.length b)%nat ->
             map timestamp (tail (List.length a - 1) b)
             = map timestamp (removelast a) ->
             reaches_comparison a b (at_hour 10)).
  { intros a b init row Ha Hr H2 Hh Hl Hal.
    constructor; auto. exists init, row. auto. }
  split; [|split; [|split; [|split]]].
  - apply (R _ _ [bar 8 100; bar 9 110] (bar 10 120));
      try reflexivity; simpl; lia.
  - vm_compute. reflexivity.
  - apply (R _ _ [set_col Close inf (bar 8 100); bar 9 110] (bar 10 120));
      try reflexivity; simpl; lia.
  - vm_compute. reflexivity.
  - vm_compute. reflexivity.
Qed.

(** ** The overlap validation of catch-up mode *)

Lemma tail_length {A} (n : nat) (l : list A) :
  List.length (tail n l) = Nat.min n (List.length l).
Proof. unfold tail. rewrite length_skipn. lia. Qed.

Lemma tail_all {A} (n : nat) (l : list A) :
  (List.length l <= n)%nat -> tail n l = l.
Proof.
  intros H. unfold tail.
  replace (List.length l - n)%nat with 0%nat by lia. reflexivity.
Qed.

Lemma coverage_nonempty (s : Store) mn mx cnt :
  coverage s = Some (mn, mx, cnt) -> s <> [].
Proof. destruct s; [discriminate|discriminate]. Qed.

Lemma overlap_k_bounds cfg (overlap : DataFrame) :
  overlap <> [] ->
  1 <= overlap_k cfg overlap <= Z.of_nat (List.length overlap).
Proof.
  intros H. unfold overlap_k.
  assert (1 <= Z.of_nat (List.length overlap)).
  { destruct overlap; [congruence|simpl List.length; lia]. }
  lia.
Qed.

Lemma api_tail_for_val_length cfg (overlap : DataFrame) :
  overlap <> [] ->
  Z.of_nat (List.length (api_tail_for_val cfg overlap)) = overlap_k cfg overlap.
Proof.
  intros H. pose proof (overlap_k_bounds cfg overlap H).
  unfold api_tail_for_val. rewrite tail_length. lia.
Qed.

Lemma api_tail_for_val_whole cfg (overlap : DataFrame) :
  Z.of_nat (List.length overlap) <= Z.max (n_recent cfg - 1) 1 ->
  api_tail_for_val cfg overlap = overlap.
Proof.
  intros H. unfold api_tail_for_val, overlap_k. apply tail_all. lia.
Qed.

Lemma firstn_In {A} (n : nat) (l : list A) (x : A) :
  In x (firstn n l) -> In x l.
Proof.
  intros H. rewrite <- (firstn_skipn n l). apply in_or_app. now left.
Qed.

(** What a tail read returns: at most [n] rows, each one stored and
    strictly before the bound. *)
Lemma select_last_n_before_spec (s : Store) (n end_exclusive : Z) :
  0 <= n ->
  exists df,
    select_last_n_before s n end_exclusive = Some df
    /\ Z.of_nat (List.length df) <= n
    /\ Forall (fun r => In r s /\ timestamp r < end_exclusive) df.
Proof.
  intros Hn. unfold select_last_n_before.
  destruct (Z.ltb_spec n 0); [lia|]. eexists. split; [reflexivity|]. split.
  - rewrite <- (Permutation_length (RowSort.Permuted_sort _)).
    rewrite length_firstn. lia.
  - apply Forall_forall. intros r Hr.
    apply (Permutation_in _ (Permutation_sym (RowSort.Permuted_sort _))) in Hr.
    apply firstn_In in Hr. apply in_rev in Hr.
    apply (Permutation_in _ (Permutation_sym (RowSort.Permuted_sort _))) in Hr.
    apply filter_In in Hr. destruct Hr as [Hin Hlt].
    apply Z.ltb_lt in Hlt. auto.
Qed.

Lemma when_emit (c : bool) (e : Event) (w : World) :
  when c (emit e) w =
    (Returned tt, mkWorld (db w) (trace w ++ if c then [e] else [])).
Proof.
  destruct c; run_monad; [reflexivity|].
  rewrite app_nil_r. now destruct w.
Qed.

Lemma for_each_dry_run (dbg : bool) (rows : DataFrame) : forall w,
  exists more,
    for_each rows
      (fun row => when dbg (emit (print (DRY_RUN_would_append row)))) w
    = (Returned tt, mkWorld (db w) (trace w ++ more)).
Proof.
  induction rows as [|r rows IH]; intros w.
  - exists []. rewrite app_nil_r. now destruct w.
  - cbn [for_each]. unfold bind at 1. rewrite when_emit.
    match goal with
    | |- context [for_each rows _ ?w1] => destruct (IH w1) as (more & ->)
    end.
    cbn [db trace]. rewrite <- app_assoc. eexists. reflexivity.
Qed.

(** The append loop returns; what it writes when [--dry-run] is off. *)
Lemma append_all_returns cfg (rows : DataFrame) (w : World) :
  exists more s',
    append_all cfg rows w =
      (Returned (Z.of_nat (List.length rows)), mkWorld s' (trace w ++ more))
    /\ (dry_run cfg = false ->
        s' = fold_left insert_if_absent rows (db w) /\ appends more = rows).
Proof.
  destruct (dry_run cfg) eqn:Hdry.
  - unfold append_all. rewrite Hdry. unfold bind.
    destruct (for_each_dry_run (debug cfg) rows w) as (more & ->).
    exists more, (db w). split; [reflexivity|discriminate].
  - rewrite append_all_run by assumption. do 2 eexists.
    split; [reflexivity|]. intros _. split; [reflexivity|].
    apply appends_map_calls.
Qed.

(** The catch-up branch on a Store with rows and a non-empty overlap:
    coverage, one tail read, one validation; then either the error exit,
    or the appends. *)
Lemma catch_up_branch_overlap cfg (closed_df : DataFrame) (w : World)
    mn mx cnt init_o last_o :
  coverage (db w) = Some (mn, mx, cnt) ->
  api_overlap closed_df mx = init_o ++ [last_o] ->
  let for_val := api_tail_for_val cfg (api_overlap closed_df mx) in
  let n := Z.of_nat (List.length for_val) - 1 in
  exists db_hist,
    select_last_n_before (db w) n (timestamp last_o) = Some db_hist
    /\ let res := validate_window for_val db_hist (timestamp last_o)
                    default_tolerance in
       let tr := trace w ++
                 [call_coverage_stats;
                  call_read_last_n_rows_ending_before n (timestamp last_o);
                  call_validate_window for_val db_hist (timestamp last_o)] in
       (ok res = false ->
        catch_up_branch cfg closed_df w =
          (Returned (inl 2),
           mkWorld (db w)
             (tr ++ [print (ERROR_overlap_validation_failed (reason res))])))
       /\ (ok res = true ->
           exists l more s',
             catch_up_branch cfg closed_df w =
               (Returned (inr l), mkWorld s' (tr ++ more))
             /\ v l = Some res
             /\ (dry_run cfg = false ->
                 s' = fold_left insert_if_absent (rows_after closed_df mx) (db w)
                 /\ appends more = rows_after closed_df mx)).
Proof.
  intros Hcov Hov for_val n.
  assert (Hne : api_overlap closed_df mx <> []).
  { rewrite Hov. destruct init_o; discriminate. }
  assert (Hn : 0 <= n).
  { subst n for_val. rewrite api_tail_for_val_length by assumption.
    pose proof (overlap_k_bounds cfg _ Hne). lia. }
  destruct (select_last_n_before_spec (db w) n (timestamp last_o) Hn)
    as (db_hist & Hsel & _).
  exists db_hist. split; [exact Hsel|]. intros res tr.
  assert (Hstart :
    catch_up_branch cfg closed_df w =
      (r <- (if negb (ok res) then
               emit (print (ERROR_overlap_validation_failed (reason res))) ;;
               @ret (Z + DataFrame * option ValidationResult) (inl 2)
             else ret (inr (rows_after closed_df mx, Some res))) ;;
       match r with
       | inl code => ret (inl code)
       | inr (to_append, v_local) =>
           if empty to_append then
             when (debug cfg) (emit (print INFO_catch_up_nothing_to_append)) ;;
             ret (inr (mkLocals v_local None 0))
           else
             n <- append_all cfg to_append ;;
             ret (inr (mkLocals v_local None n))
       end) (mkWorld (db w) tr)).
  { unfold catch_up_branch, coverage_stats.
    unfold bind at 1. unfold bind at 1. unfold bind at 1. unfold emit at 1.
    unfold bind at 1. unfold get_db at 1. cbn [db trace ret].
    rewrite Hcov.
    apply empty_false in Hne. rewrite Hne.
    unfold bind at 1. rewrite Hov at 1. rewrite iloc_last_snoc.
    fold for_val. fold n.
    unfold bind at 1. unfold read_last_n_rows_ending_before.
    unfold bind at 1. unfold emit at 1. unfold bind at 1. unfold get_db at 1.
    cbn [db trace]. rewrite Hsel. cbn [ret].
    unfold bind at 1. unfold call_validate. unfold bind at 1.
    unfold emit at 1. cbn [db trace ret]. fold res.
    subst tr. rewrite <- !app_assoc. cbn [app].
    reflexivity. }
  split.
  - intros Hok. rewrite Hstart, Hok. cbn [negb]. run_monad. reflexivity.
  - intros Hok. rewrite Hstart, Hok. cbn [negb]. run_monad.
    destruct (empty (rows_after closed_df mx)) eqn:Ee.
    + apply empty_true in Ee. rewrite Ee. cbn [fold_left].
      destruct (debug cfg); run_monad.
      * do 3 eexists. split; [reflexivity|]. split; [reflexivity|].
        intros _. split; reflexivity.
      * eexists. exists []. eexists. rewrite app_nil_r.
        split; [reflexivity|]. split; [reflexivity|].
        intros _. split; reflexivity.
    + destruct (append_all_returns cfg (rows_after closed_df mx)
                  (mkWorld (db w) tr)) as (more & s' & Hrun & Hwr).
      rewrite Hrun. cbn [db trace].
      do 3 eexists. split; [reflexivity|]. split; [reflexivity|].
      exact Hwr.
Qed.

(** A catch-up run on a Store with rows and a non-empty overlap. *)
Lemma run_once_catch_up cfg now klines init row_t (w : World)
    mn mx cnt init_o last_o :
  catch_up cfg = true ->
  closed_window now klines = init ++ [row_t] ->
  timestamp row_t = target_of now ->
  coverage (db w) = Some (mn, mx, cnt) ->
  api_overlap (closed_window now klines) mx = init_o ++ [last_o] ->
  let for_val := api_tail_for_val cfg (api_overlap (closed_window now klines) mx) in
  let n := Z.of_nat (List.length for_val) - 1 in
  exists db_hist,
    select_last_n_before (db w) n (timestamp last_o) = Some db_hist
    /\ let res := validate_window for_val db_hist (timestamp last_o)
                    default_tolerance in
       let tr := trace w ++
                 [write_raw_snapshot (rows (klines_to_dataframe klines));
                  call_coverage_stats;
                  call_read_last_n_rows_ending_before n (timestamp last_o);
                  call_validate_window for_val db_hist (timestamp last_o)] in
       (ok res = false ->
        run_once cfg now klines w =
          (Returned 2,
           mkWorld (db w)
             (tr ++ [print (ERROR_overlap_validation_failed (reason res))])))
       /\ (ok res = true ->
           exists more s',
             run_once cfg now klines w = (Returned 0, mkWorld s' (tr ++ more))
             /\ (dry_run cfg = false ->
                 s' = fold_left insert_if_absent
                        (rows_after (closed_window now klines) mx) (db w)
                 /\ appends more = rows_after (closed_window now klines) mx)).
Proof.
  intros Hcu Hclosed Hts Hcov Hov for_val n.
  set (w0 := mkWorld (db w)
               (trace w ++ [write_raw_snapshot (rows (klines_to_dataframe klines))])).
  destruct (catch_up_branch_overlap cfg (closed_window now klines) w0
              mn mx cnt init_o last_o Hcov Hov)
    as (db_hist & Hsel & Hfail & Hsucc).
  exists db_hist. split; [exact Hsel|]. intros res tr.
  assert (Htr : tr = trace w0 ++
                 [call_coverage_stats;
                  call_read_last_n_rows_ending_before n (timestamp last_o);
                  call_validate_window for_val db_hist (timestamp last_o)]).
  { subst tr w0. cbn [trace]. rewrite <- app_assoc. reflexivity. }
  rewrite (run_once_accepts cfg now klines init row_t w Hclosed Hts).
  rewrite Hcu, <- Hclosed. split.
  - intros Hok. unfold bind at 1. unfold emit at 1. fold w0.
    unfold bind at 1. rewrite (Hfail Hok). cbn [ret]. rewrite Htr.
    reflexivity.
  - intros Hok. destruct (Hsucc Hok) as (l & more & s' & Hrun & Hv & Hwr).
    unfold bind at 1. unfold emit at 1. fold w0.
    unfold bind at 1. rewrite Hrun. unfold print_stats_and_exit. rewrite Hv.
    pose proof Hok as Hok'. unfold res, for_val in Hok'.
    run_monad. rewrite Hok'. run_monad.
    exists (more ++ [print (stats
                       (Z.of_nat (List.length (rows (klines_to_dataframe klines))))
                       (validated_rows res) (appended l) (target_of now))]), s'.
    split.
    + rewrite Htr. rewrite app_assoc. reflexivity.
    + intros Hdry. destruct (Hwr Hdry) as (-> & Happ). split; [reflexivity|].
      rewrite appends_app, Happ. simpl. apply app_nil_r.
Qed.

(** C4, as the code has it. In catch-up mode, on a Store with rows and a
    non-empty overlap, the run validates at the overlap's last timestamp
    the last [k = min(len(overlap), max(n_recent - 1, 1))] rows of the
    overlap against one tail read of limit [k - 1] ending strictly before
    that timestamp, through [validate_window] as single-bar mode does.
    When [len(overlap) <= max(n_recent - 1, 1)] these are the whole
    overlap and a read of limit [len(overlap) - 1]. *)
Theorem catch_up_validation_window cfg now klines init row_t (w : World)
    mn mx cnt init_o last_o :
  catch_up cfg = true ->
  closed_window now klines = init ++ [row_t] ->
  timestamp row_t = target_of now ->
  coverage (db w) = Some (mn, mx, cnt) ->
  api_overlap (closed_window now klines) mx = init_o ++ [last_o] ->
  let overlap := api_overlap (closed_window now klines) mx in
  let k := Z.min (Z.of_nat (List.length overlap)) (Z.max (n_recent cfg - 1) 1) in
  let for_val := tail (Z.to_nat k) overlap in
  exists db_hist rest,
    select_last_n_before (db w) (k - 1) (timestamp last_o) = Some db_hist
    /\ Z.of_nat (List.length db_hist) <= k - 1
    /\ Forall (fun r => In r (db w) /\ timestamp r < timestamp last_o) db_hist
    /\ trace (snd (run_once cfg now klines w)) =
         trace w ++
         [write_raw_snapshot (rows (klines_to_dataframe klines));
          call_coverage_stats;
          call_read_last_n_rows_ending_before (k - 1) (timestamp last_o);
          call_validate_window for_val db_hist (timestamp last_o)] ++ rest
    /\ Z.of_nat (List.length for_val) = k
    /\ (Z.of_nat (List.length overlap) <= Z.max (n_recent cfg - 1) 1 ->
        for_val = overlap /\ k - 1 = Z.of_nat (List.length overlap) - 1).
Proof.
  intros Hcu Hclosed Hts Hcov Hov overlap k for_val.
  assert (Hne : overlap <> []).
  { subst overlap. rewrite Hov. destruct init_o; discriminate. }
  assert (Hlen : Z.of_nat (List.length for_val) = k).
  { apply (api_tail_for_val_length cfg overlap Hne). }
  destruct (run_once_catch_up cfg now klines init row_t w mn mx cnt init_o
              last_o Hcu Hclosed Hts Hcov Hov)
    as (db_hist & Hsel & Hfail & Hsucc).
  fold overlap in Hsel, Hfail, Hsucc.
  change (api_tail_for_val cfg overlap) with for_val in Hsel, Hfail, Hsucc.
  rewrite Hlen in Hsel, Hfail, Hsucc.
  assert (Hk : 0 <= k - 1).
  { pose proof (overlap_k_bounds cfg overlap Hne). unfold overlap_k in *.
    subst k. lia. }
  destruct (select_last_n_before_spec (db w) (k - 1) (timestamp last_o) Hk)
    as (df & Hsel' & Hdf_len & Hdf).
  rewrite Hsel in Hsel'. injection Hsel' as <-.
  destruct (ok (validate_window for_val db_hist (timestamp last_o)
                  default_tolerance)) eqn:Hok.
  - destruct (Hsucc eq_refl) as (more & s' & Hrun & _).
    exists db_hist, more. rewrite Hrun. cbn [snd trace].
    rewrite <- app_assoc.
    repeat (split; [first [assumption|reflexivity]|]).
    intros Hall. split; [|subst k; lia].
    apply (api_tail_for_val_whole cfg overlap Hall).
  - exists db_hist,
      [print (ERROR_overlap_validation_failed
                (reason (validate_window for_val db_hist (timestamp last_o)
                           default_tolerance)))].
    rewrite (Hfail eq_refl). cbn [snd trace]. rewrite <- app_assoc.
    repeat (split; [first [assumption|reflexivity]|]).
    intros Hall. split; [|subst k; lia].
    apply (api_tail_for_val_whole cfg overlap Hall).
Qed.

(** The catch-up test: Store 08:00, 09:00, closed window 08:00..11:00,
    [n_recent = 4]. The overlap has two rows and is validated whole. *)
Lemma catch_up_validation_window_witness :
  exists db_hist rest,
    trace (snd (run_once (mkRunConfig 4 false false true) (at_hour 12)
                  [make_k 8 100; make_k 9 110; make_k 10 120; make_k 11 130]
                  (mkWorld [bar 8 100; bar 9 110] [])))
    = [write_raw_snapshot
         (map kline_row
            [make_k 8 100; make_k 9 110; make_k 10 120; make_k 11 130]);
       call_coverage_stats;
       call_read_last_n_rows_ending_before 1 (at_hour 9);
       call_validate_window [bar 8 100; bar 9 110] db_hist (at_hour 9)]
      ++ rest.
Proof.
  destruct (catch_up_validation_window (mkRunConfig 4 false false true)
              (at_hour 12)
              [make_k 8 100; make_k 9 110; make_k 10 120; make_k 11 130]
              [bar 8 100; bar 9 110; bar 10 120] (bar 11 130)
              (mkWorld [bar 8 100; bar 9 110] [])
              (at_hour 8) (at_hour 9) 2 [bar 8 100] (bar 9 110)
              eq_refl eq_refl eq_refl eq_refl eq_refl)
    as (db_hist & rest & _ & _ & _ & Htr & _).
  exists db_hist, rest. exact Htr.
Defined.

(** C4, as stated, fails. Store 08:00..11:00, closed window
    08:00..11:00, [n_recent = 4]: the overlap has four rows, but the run
    reads a tail of limit 2 (not 3) and validates the last three rows of
    the overlap (not the overlap). *)
Lemma catch_up_validation_window_counterexample :
  let cfg := mkRunConfig 4 false false true in
  let klines := [make_k 8 100; make_k 9 110; make_k 10 120; make_k 11 130] in
  let w := mkWorld [bar 8 100; bar 9 110; bar 10 120; bar 11 130] [] in
  let overlap := api_overlap (closed_window (at_hour 12) klines) (at_hour 11) in
  let tr := trace (snd (run_once cfg (at_hour 12) klines w)) in
  coverage (db w) = Some (at_hour 8, at_hour 11, 4)
  /\ overlap = [bar 8 100; bar 9 110; bar 10 120; bar 11 130]
  /\ ~ In (call_read_last_n_rows_ending_before
             (Z.of_nat (List.length overlap) - 1) (at_hour 11)) tr
  /\ (forall db_hist, ~ In (call_validate_window overlap db_hist (at_hour 11)) tr)
  /\ In (call_read_last_n_rows_ending_before 2 (at_hour 11)) tr
  /\ In (call_validate_window [bar 9 110; bar 10 120; bar 11 130]
           [bar 9 110; bar 10 120] (at_hour 11)) tr.
Proof.
  intros cfg klines w overlap tr.
  assert (Htr : tr =
            [write_raw_snapshot (map kline_row klines);
             call_coverage_stats;
             call_read_last_n_rows_ending_before 2 (at_hour 11);
             call_validate_window [bar 9 110; bar 10 120; bar 11 130]
               [bar 9 110; bar 10 120] (at_hour 11);
             print (stats 4 2 0 (at_hour 11))]).
  { vm_compute. reflexivity. }
  assert (Hov : overlap = [bar 8 100; bar 9 110; bar 10 120; bar 11 130]).
  { vm_compute. reflexivity. }
  split; [vm_compute; reflexivity|]. split; [exact Hov|].
  rewrite Htr, Hov. cbn [List.length In].
  split; [|split; [|split]].
  - intros [H|[H|[H|[H|[H|[]]]]]]; discriminate.
  - intros db_hist [H|[H|[H|[H|[H|[]]]]]]; discriminate.
  - auto.
  - auto 6.
Qed.

(** ** The append set of catch-up mode *)

Lemma StronglySorted_filter {A} (R : A -> A -> Prop) (p : A -> bool) (l : list A) :
  StronglySorted R l -> StronglySorted R (filter p l).
Proof.
  induction 1 as [|x l Hs IH Hall]; simpl; [constructor|].
  destruct (p x); auto. constructor; auto.
  apply Forall_forall. intros y Hy. apply filter_In in Hy.
  rewrite Forall_forall in Hall. apply Hall, Hy.
Qed.

Lemma StronglySorted_map {A B} (f : A -> B) (R : B -> B -> Prop) (l : list A) :
  StronglySorted (fun x y => R (f x) (f y)) l -> StronglySorted R (map f l).
Proof.
  induction 1 as [|x l Hs IH Hall]; simpl; constructor; auto.
  apply Forall_forall. intros y Hy. apply in_map_iff in Hy.
  destruct Hy as (z & <- & Hz). rewrite Forall_forall in Hall. now apply Hall.
Qed.

(** [klines_to_dataframe] sorts, and the closed filter keeps the order:
    the closed window is ascending. *)
Lemma closed_window_ascending now klines :
  StronglySorted Z.le (map timestamp (closed_window now klines)).
Proof.
  unfold closed_window, closed_candles, klines_to_dataframe.
  destruct (empty klines); [constructor|]. cbn [rows].
  rewrite map_map. apply StronglySorted_map, StronglySorted_filter.
  assert (T : Transitive (fun x y => is_true (ApiRowOrder.leb x y))).
  { intros x y z. unfold ApiRowOrder.leb, is_true.
    rewrite !Z.leb_le. lia. }
  pose proof (ApiRowSort.StronglySorted_sort (map kline_row klines) T) as S.
  clear T. induction S as [|x l Hs IH Hall]; constructor; auto.
  eapply Forall_impl; [|exact Hall]. intros y Hy.
  apply Z.leb_le. exact Hy.
Qed.

Lemma rows_after_ascending now klines mx :
  StronglySorted Z.le (map timestamp (rows_after (closed_window now klines) mx)).
Proof.
  pose proof (closed_window_ascending now klines) as S.
  unfold rows_after. induction (closed_window now klines) as [|r l IH];
    simpl; [constructor|].
  inversion S as [|? ? Hs Hall]; subst.
  destruct (timestamp r >? mx); simpl; auto.
  constructor; auto.
  apply Forall_forall. intros t Ht. apply in_map_iff in Ht.
  destruct Ht as (y & <- & Hy). apply filter_In in Hy.
  rewrite Forall_forall in Hall. apply Hall, in_map, Hy.
Qed.

(** Filtering rows keeps their keys distinct. *)
Lemma NoDup_map_filter {Key Item : Type} (key : Item -> Key)
    (keep : Item -> bool) (items : list Item)
    (Hdistinct : NoDup (map key items)) :
  NoDup (map key (filter keep items)).
Proof.
  induction items as [|x items IH]; simpl; auto.
  inversion Hdistinct as [|? ? Hnotin Hnd]; subst.
  destruct (keep x); simpl; auto. constructor; auto.
  intros Hin. apply Hnotin. apply in_map_iff in Hin.
  destruct Hin as (y & Hy & Hyin). apply filter_In in Hyin.
  apply in_map_iff. exists y. tauto.
Qed.

(** Distinct open times in the Source's response give distinct
    timestamps in the closed window. *)
Lemma closed_window_unique now klines :
  NoDup (map open_time_ms klines) ->
  NoDup (map timestamp (closed_window now klines)).
Proof.
  intros H. unfold closed_window, closed_candles, klines_to_dataframe.
  destruct (empty klines); [constructor|]. cbn [rows].
  rewrite map_map. apply NoDup_map_filter.
  eapply Permutation_NoDup.
  - apply Permutation_map, ApiRowSort.Permuted_sort.
  - rewrite map_map. exact H.
Qed.

(** The coverage maximum bounds every stored timestamp. *)
Lemma max_timestamp_upper (rest : Store) : forall first r,
  In r (first :: rest) -> timestamp r <= max_timestamp first rest.
Proof.
  unfold max_timestamp.
  assert (G : forall l m, m <= fold_left (fun m r => Z.max m (timestamp r)) l m
              /\ forall r, In r l ->
                   timestamp r <= fold_left (fun m r => Z.max m (timestamp r)) l m).
  { induction l as [|x l IH]; simpl; intros m.
    - split; [lia|contradiction].
    - destruct (IH (Z.max m (timestamp x))) as [H1 H2]. split; [lia|].
      intros r [->|Hr]; [lia|auto]. }
  intros first r Hin. destruct (G rest (timestamp first)) as [H1 H2].
  destruct Hin as [->|Hr]; [exact H1|now apply H2].
Qed.

Lemma coverage_max (s : Store) mn mx cnt r :
  coverage s = Some (mn, mx, cnt) -> In r s -> timestamp r <= mx.
Proof.
  destruct s as [|first rest]; [discriminate|]. cbn [coverage].
  intros [= _ <- _]. apply max_timestamp_upper.
Qed.

Lemma fold_max_attained (l : Store) : forall m,
  fold_left (fun m r => Z.max m (timestamp r)) l m = m
  \/ exists r, In r l
       /\ fold_left (fun m r => Z.max m (timestamp r)) l m = timestamp r.
Proof.
  induction l as [|x l IH]; intros m; simpl; [now left|].
  destruct (IH (Z.max m (timestamp x))) as [E|(r & Hr & E)].
  - rewrite E. destruct (Z.max_spec m (timestamp x)) as [[_ ->]|[_ ->]].
    + right. exists x. auto.
    + now left.
  - right. exists r. auto.
Qed.

Lemma coverage_max_attained (s : Store) mn mx cnt :
  coverage s = Some (mn, mx, cnt) -> exists r, In r s /\ mx = timestamp r.
Proof.
  destruct s as [|first rest]; [discriminate|]. cbn [coverage].
  intros [= _ <- _]. unfold max_timestamp.
  destruct (fold_max_attained rest (timestamp first)) as [E|(r & Hr & E)].
  - exists first. split; [now left|exact E].
  - exists r. split; [now right|exact E].
Qed.

Lemma coverage_some (s : Store) :
  s <> [] -> exists mn mx cnt, coverage s = Some (mn, mx, cnt).
Proof. destruct s; [congruence|]. intros _. do 3 eexists. reflexivity. Qed.

(** What a sequence of [INSERT ... WHERE NOT EXISTS] leaves. *)
Lemma fold_insert_keeps (rows : DataFrame) : forall (s : Store) r,
  In r s -> In r (fold_left insert_if_absent rows s).
Proof.
  induction rows as [|x rows IH]; simpl; auto. intros s r Hr. apply IH.
  unfold insert_if_absent. destruct (exists_timestamp s (timestamp x)); auto.
  apply in_or_app. now left.
Qed.

Lemma fold_insert_covers (rows : DataFrame) : forall (s : Store) r,
  In r rows ->
  In (timestamp r) (map timestamp (fold_left insert_if_absent rows s)).
Proof.
  induction rows as [|x rows IH]; simpl; [contradiction|].
  intros s r [->|Hr]; [|now apply IH].
  pose proof (exists_timestamp_insert s r) as E.
  apply exists_timestamp_iff, in_map_iff in E. destruct E as (y & Hy & Hin).
  rewrite <- Hy. apply in_map. now apply fold_insert_keeps.
Qed.

Lemma fold_insert_fresh (rows : DataFrame) : forall (s : Store),
  NoDup (map timestamp rows) ->
  (forall r, In r rows -> ~ In (timestamp r) (map timestamp s)) ->
  fold_left insert_if_absent rows s = s ++ rows.
Proof.
  induction rows as [|x rows IH]; simpl; intros s Hnd Hfresh.
  - now rewrite app_nil_r.
  - inversion Hnd as [|? ? Hnotin Hnd']; subst.
    unfold insert_if_absent at 2.
    destruct (exists_timestamp s (timestamp x)) eqn:E.
    + apply exists_timestamp_iff in E. elim (Hfresh x); auto.
    + rewrite IH; auto.
      * rewrite <- app_assoc. reflexivity.
      * intros r Hr Hin. rewrite map_app, in_app_iff in Hin.
        destruct Hin as [Hin|[Heq|[]]].
        -- apply (Hfresh r); auto.
        -- apply Hnotin. rewrite Heq. now apply in_map.
Qed.

Lemma run_once_returned_0 cfg now klines (w w1 : World) :
  run_once cfg now klines w = (Returned 0, w1) ->
  exists init row_t,
    closed_window now klines = init ++ [row_t]
    /\ timestamp row_t = target_of now.
Proof.
  unfold run_once, closed_window, target_of, compute_target_hour.
  cbn [fst snd]. unfold ensure_table. unfold bind at 1. cbn [ret].
  destruct (has_close_time (klines_to_dataframe klines));
    [|run_monad; discriminate].
  cbn [negb].
  destruct (closed_candles (klines_to_dataframe klines) (now / HOUR * HOUR))
    as [|r l] eqn:E; [run_monad; discriminate|].
  assert (Hne : r :: l <> []) by discriminate.
  destruct (exists_last Hne) as (init & row_t & Hl). rewrite Hl.
  replace (empty (init ++ [row_t])) with false by (destruct init; reflexivity).
  unfold bind at 1. rewrite iloc_last_snoc.
  destruct (Z.eqb_spec (timestamp row_t) (now / HOUR * HOUR - HOUR)) as [Heq|Hneq].
  - intros _. exists init, row_t. auto.
  - cbn [negb]. run_monad. discriminate.
Qed.

Lemma run_once_no_overlap cfg now klines init row_t (w : World) mn mx cnt :
  catch_up cfg = true ->
  closed_window now klines = init ++ [row_t] ->
  timestamp row_t = target_of now ->
  coverage (db w) = Some (mn, mx, cnt) ->
  api_overlap (closed_window now klines) mx = [] ->
  fst (run_once cfg now klines w) = Returned 2.
Proof.
  intros Hcu Hclosed Hts Hcov Hov.
  rewrite (run_once_accepts cfg now klines init row_t w Hclosed Hts).
  rewrite Hcu, <- Hclosed. unfold catch_up_branch, coverage_stats.
  run_monad. rewrite Hcov, Hov. reflexivity.
Qed.

Lemma filter_all {A} (p : A -> bool) (l : list A) :
  (forall x, In x l -> p x = true) -> filter p l = l.
Proof.
  induction l as [|x l IH]; simpl; auto. intros H.
  rewrite (H x) by auto. f_equal. apply IH. auto.
Qed.

Lemma filter_none {A} (p : A -> bool) (l : list A) :
  (forall x, In x l -> p x = false) -> filter p l = [].
Proof.
  induction l as [|x l IH]; simpl; auto. intros H.
  rewrite (H x) by auto. apply IH. auto.
Qed.

(** C8. A catch-up run on a Store with rows that succeeds (its overlap
    validation passed, exit code 0) calls [append_row_if_absent] on
    exactly the closed rows strictly after the Store's maximum timestamp,
    in ascending order; with distinct open times in the Source's
    response the Store grows by exactly these rows. Running catch-up
    again on the same response at the same hour appends nothing. *)
Theorem catch_up_append_set cfg now klines (w w1 : World) mn mx cnt :
  catch_up cfg = true -> dry_run cfg = false ->
  coverage (db w) = Some (mn, mx, cnt) ->
  run_once cfg now klines w = (Returned 0, w1) ->
  let to_append := rows_after (closed_window now klines) mx in
  appends (trace w1) = appends (trace w) ++ to_append
  /\ db w1 = fold_left insert_if_absent to_append (db w)
  /\ StronglySorted Z.le (map timestamp to_append)
  /\ Forall (fun r => mx < timestamp r) to_append
  /\ (NoDup (map open_time_ms klines) -> db w1 = db w ++ to_append)
  /\ (forall out w2,
        run_once cfg now klines w1 = (out, w2) ->
        db w2 = db w1 /\ appends (trace w2) = appends (trace w1)).
Proof.
  intros Hcu Hdry Hcov Hrun to_append.
  destruct (run_once_returned_0 _ _ _ _ _ Hrun) as (init & row_t & Hclosed & Hts).
  destruct (api_overlap (closed_window now klines) mx) as [|o ov] eqn:Hov.
  { pose proof (run_once_no_overlap cfg now klines init row_t w mn mx cnt
                  Hcu Hclosed Hts Hcov Hov) as H2.
    rewrite Hrun in H2. discriminate. }
  assert (Hne : o :: ov <> []) by discriminate.
  destruct (exists_last Hne) as (init_o & last_o & Hlast).
  rewrite Hlast in Hov. clear Hne Hlast o ov.
  destruct (run_once_catch_up cfg now klines init row_t w mn mx cnt init_o
              last_o Hcu Hclosed Hts Hcov Hov)
    as (db_hist & _ & Hfail & Hsucc).
  destruct (ok (validate_window _ db_hist (timestamp last_o) default_tolerance))
    eqn:Hok.
  2:{ rewrite (Hfail eq_refl) in Hrun. discriminate. }
  destruct (Hsucc eq_refl) as (more & s' & Hrun' & Hwr).
  destruct (Hwr Hdry) as (-> & Happ). clear Hfail Hsucc Hwr.
  rewrite Hrun' in Hrun. injection Hrun as <-.
  cbn [db trace]. fold to_append in Happ |- *.
  assert (Hafter : Forall (fun r => mx < timestamp r) to_append).
  { apply Forall_forall. intros r Hr. apply filter_In in Hr.
    destruct Hr as [_ Hr]. apply Z.gtb_lt in Hr. exact Hr. }
  split.
  { rewrite !appends_app, Happ. simpl. rewrite app_nil_r. reflexivity. }
  split; [reflexivity|].
  split; [apply rows_after_ascending|].
  split; [exact Hafter|].
  split.
  { intros Hnd. apply fold_insert_fresh.
    - apply NoDup_map_filter, closed_window_unique, Hnd.
    - intros r Hr Hin. rewrite Forall_forall in Hafter.
      specialize (Hafter r Hr). apply in_map_iff in Hin.
      destruct Hin as (y & Hy & Hyin).
      pose proof (coverage_max _ _ _ _ y Hcov Hyin). lia. }
  (* the second run *)
  intros out w2 Hrun2.
  set (s1 := fold_left insert_if_absent to_append (db w)) in *.
  set (w1 := mkWorld s1 _) in *.
  assert (Hs1 : s1 <> []).
  { pose proof (coverage_nonempty _ _ _ _ Hcov) as Hdb.
    destruct (db w) as [|r0 rest] eqn:Edb; [congruence|].
    intros E. assert (Hin : In r0 s1).
    { subst s1. apply fold_insert_keeps. now left. }
    rewrite E in Hin. contradiction. }
  destruct (coverage_some s1 Hs1) as (mn1 & mx1 & cnt1 & Hcov1).
  assert (Hbound : forall r, In r (closed_window now klines) ->
                             timestamp r <= mx1).
  { intros r Hr. destruct (Z.leb_spec (timestamp r) mx) as [Hle|Hgt].
    - assert (Hmx : mx <= mx1).
      { destruct (coverage_max_attained _ _ _ _ Hcov) as (r' & Hin & ->).
        apply (coverage_max s1 mn1 mx1 cnt1 r' Hcov1).
        subst s1. now apply fold_insert_keeps. }
      lia.
    - assert (Hin : In r to_append).
      { apply filter_In. split; auto. apply Z.gtb_lt. lia. }
      pose proof (fold_insert_covers to_append (db w) r Hin) as Hc.
      fold s1 in Hc. apply in_map_iff in Hc. destruct Hc as (y & Hy & Hyin).
      rewrite <- Hy. apply (coverage_max s1 mn1 mx1 cnt1 y Hcov1 Hyin). }
  assert (Hov1 : api_overlap (closed_window now klines) mx1 = init ++ [row_t]).
  { rewrite <- Hclosed. apply filter_all. intros r Hr.
    apply Z.leb_le. now apply Hbound. }
  assert (Hnone : rows_after (closed_window now klines) mx1 = []).
  { apply filter_none. intros r Hr. specialize (Hbound r Hr).
    destruct (Z.gtb_spec (timestamp r) mx1); [lia|reflexivity]. }
  destruct (run_once_catch_up cfg now klines init row_t w1 mn1 mx1 cnt1 init
              row_t Hcu Hclosed Hts Hcov1 Hov1)
    as (db_hist1 & _ & Hfail1 & Hsucc1).
  destruct (ok (validate_window _ db_hist1 (timestamp row_t) default_tolerance))
    eqn:Hok1.
  - destruct (Hsucc1 eq_refl) as (more1 & s2 & Hrun1 & Hwr1).
    destruct (Hwr1 Hdry) as (-> & Happ1).
    rewrite Hrun1 in Hrun2. injection Hrun2 as _ <-.
    rewrite Hnone in *. cbn [db trace fold_left].
    split; [reflexivity|].
    rewrite !appends_app, Happ1. simpl. rewrite !app_nil_r. reflexivity.
  - rewrite (Hfail1 eq_refl) in Hrun2. injection Hrun2 as _ <-.
    cbn [db trace]. split; [reflexivity|].
    rewrite !appends_app. simpl. rewrite !app_nil_r. reflexivity.
Qed.

(** The catch-up test: Store 08:00, 09:00 and the closed window
    08:00..11:00 give the Store 08:00, 09:00, 10:00, 11:00; a second run
    appends nothing. *)
Lemma catch_up_append_set_witness :
  let cfg := mkRunConfig 4 false false true in
  let klines := [make_k 8 100; make_k 9 110; make_k 10 120; make_k 11 130] in
  let w := mkWorld [bar 8 100; bar 9 110] [] in
  let w1 := snd (run_once cfg (at_hour 12) klines w) in
  let w2 := snd (run_once cfg (at_hour 12) klines w1) in
  fst (run_once cfg (at_hour 12) klines w) = Returned 0
  /\ appends (trace w1) = [bar 10 120; bar 11 130]
  /\ db w1 = [bar 8 100; bar 9 110; bar 10 120; bar 11 130]
  /\ db w2 = db w1
  /\ appends (trace w2) = appends (trace w1).
Proof.
  intros cfg klines w w1 w2.
  assert (Hrun : run_once cfg (at_hour 12) klines w = (Returned 0, w1)).
  { vm_compute. reflexivity. }
  assert (Hnd : NoDup (map open_time_ms klines)).
  { repeat constructor; simpl; intuition discriminate. }
  destruct (catch_up_append_set cfg (at_hour 12) klines w w1
              (at_hour 8) (at_hour 9) 2 eq_refl eq_refl eq_refl Hrun)
    as (Happ & _ & _ & _ & Hdb & Hagain).
  split; [rewrite Hrun; reflexivity|].
  split; [rewrite Happ; vm_compute; reflexivity|].
  split; [rewrite (Hdb Hnd); vm_compute; reflexivity|].
  apply (Hagain (fst (run_once cfg (at_hour 12) klines w1)) w2).
  subst w2. destruct (run_once cfg (at_hour 12) klines w1). reflexivity.
Defined.

(** ** Differences of finite values *)

Lemma shr_1_nonneg mrs : 0 <= shr_m mrs -> 0 <= shr_m (shr_1 mrs).
Proof.
  destruct mrs as [m r s]. cbn [shr_m]. intros H.
  destruct m as [|p|p]; [cbn; lia| |lia].
  destruct p; cbn; lia.
Qed.

Lemma iter_shr_1_nonneg (p : positive) : forall mrs,
  0 <= shr_m mrs -> 0 <= shr_m (iter_pos shr_1 p mrs).
Proof.
  induction p as [p IH|p IH|]; intros mrs H; cbn [iter_pos].
  - apply IH, IH, shr_1_nonneg, H.
  - apply IH, IH, H.
  - apply shr_1_nonneg, H.
Qed.

Lemma shr_nonneg mrs e n : 0 <= shr_m mrs -> 0 <= shr_m (fst (shr mrs e n)).
Proof.
  intros H. unfold shr. destruct n; cbn [fst]; auto.
  now apply iter_shr_1_nonneg.
Qed.

Lemma shr_fexp_nonneg m e l :
  0 <= m -> 0 <= shr_m (fst (shr_fexp F64.prec F64.emax m e l)).
Proof.
  intros H. unfold shr_fexp. apply shr_nonneg.
  destruct l as [|[]]; exact H.
Qed.

Lemma round_nearest_even_nonneg m l : 0 <= m -> 0 <= round_nearest_even m l.
Proof.
  intros H. unfold round_nearest_even.
  destruct l as [|[]]; try lia. destruct (Z.even m); lia.
Qed.

Lemma binary_round_aux_not_nan sx mx ex lx :
  0 <= mx -> F64.isna (binary_round_aux F64.prec F64.emax sx mx ex lx) = false.
Proof.
  intros H. unfold binary_round_aux.
  pose proof (shr_fexp_nonneg mx ex lx H) as H1.
  destruct (shr_fexp F64.prec F64.emax mx ex lx) as [mrs' e'].
  cbn [fst] in H1.
  pose proof (shr_fexp_nonneg
                (round_nearest_even (shr_m mrs') (loc_of_shr_record mrs'))
                e' loc_Exact (round_nearest_even_nonneg _ _ H1)) as H2.
  destruct (shr_fexp F64.prec F64.emax _ e' loc_Exact) as [mrs'' e''].
  cbn [fst] in H2.
  destruct (shr_m mrs'') as [|p|p]; [reflexivity| |lia].
  destruct (e'' <=? F64.emax - F64.prec); reflexivity.
Qed.

Lemma binary_normalize_not_nan m e szero :
  F64.isna (binary_normalize F64.prec F64.emax m e szero) = false.
Proof.
  unfold binary_normalize. destruct m as [|p|p]; [reflexivity| |];
    unfold binary_round;
    destruct (shl_align p e _) as [mz ez];
    apply binary_round_aux_not_nan; lia.
Qed.

(** The difference of two finite values is a number. *)
Lemma sub_finite_not_nan (x y : float) :
  F64.is_finite x = true -> F64.is_finite y = true ->
  F64.isna (F64.sub x y) = false.
Proof.
  destruct x as [sx|sx| |sx mx ex], y as [sy|sy| |sy my ey];
    try discriminate; intros _ _; unfold F64.sub, SFsub.
  - destruct sx, sy; reflexivity.
  - reflexivity.
  - reflexivity.
  - apply binary_normalize_not_nan.
Qed.

Lemma abs_isna (x : float) : F64.isna (F64.abs x) = F64.isna x.
Proof. destruct x; reflexivity. Qed.

Lemma abs_diff_finite (c : Column) (s a : Row) :
  F64.is_finite (col c s) = true -> F64.is_finite (col c a) = true ->
  F64.isna (abs_diff c s a) = false.
Proof.
  intros Hs Ha. unfold abs_diff. rewrite abs_isna.
  now apply sub_finite_not_nan.
Qed.

(** ** The numeric comparison of [validate_window] *)

Lemma tolist_eqb_eq (a b : list Z) : tolist_eqb a b = true <-> a = b.
Proof.
  revert b. induction a as [|x a IH]; intros [|y b]; simpl;
    try (split; [discriminate|discriminate]); [tauto|].
  rewrite andb_true_iff, Z.eqb_eq, IH. split.
  - intros [-> ->]. reflexivity.
  - intros [= -> ->]. auto.
Qed.

(** Under [reaches_comparison] the result is decided by the loop over
    the columns. *)
Lemma validate_window_comparison incoming stored_tail anchor tolerance :
  reaches_comparison incoming stored_tail anchor ->
  let hist := removelast incoming in
  let db_tail := tail (List.length incoming - 1) stored_tail in
  validate_window incoming stored_tail anchor tolerance =
    match compare_columns ohlcv db_tail hist tolerance with
    | Some r => mkValidationResult false r 0
    | None => mkValidationResult true validated
                (Z.of_nat (List.length incoming) - 1)
    end.
Proof.
  intros [H2 (init & row & -> & <-) Hh Hlen Hal] hist db_tail.
  subst hist db_tail. rewrite removelast_snoc in *.
  rewrite length_app in *. simpl List.length in *.
  replace (List.length init + 1 - 1)%nat with (List.length init) in * by lia.
  rewrite validate_window_history
    by (destruct init; [simpl in H2; lia|discriminate]).
  rewrite Hh. cbn [negb andb].
  replace (List.length stored_tail <? List.length init)%nat with false
    by (symmetry; apply Nat.ltb_ge; lia).
  cbv zeta. apply tolist_eqb_eq in Hal. rewrite Hal. cbn [negb].
  destruct (compare_columns _ _ _ _); [reflexivity|].
  f_equal. lia.
Qed.

(** The differences the maximum of a column ranges over. *)
Lemma abs_diffs_Forall (c : Column) (P : float -> Prop) (db_tail hist : DataFrame) :
  List.length db_tail = List.length hist ->
  (Forall P (map F64.abs (series_sub (map (col c) db_tail) (map (col c) hist)))
   <-> Forall2 (fun s a => P (abs_diff c s a)) db_tail hist).
Proof.
  revert hist. induction db_tail as [|s db IH]; intros [|a hist] Hlen;
    simpl in Hlen; try discriminate.
  - simpl. split; constructor.
  - injection Hlen as Hlen. simpl. split; intros H; inversion H; subst;
      constructor; auto; now apply (IH hist Hlen).
Qed.

Lemma within_tolerance_length c db_tail hist tol :
  within_tolerance c db_tail hist tol -> List.length db_tail = List.length hist.
Proof. induction 1; simpl; congruence. Qed.

Lemma compare_columns_None cols db_tail hist tol :
  compare_columns cols db_tail hist tol = None <->
  forall c, In c cols -> column_passes c db_tail hist tol.
Proof.
  unfold column_passes. induction cols as [|c cols IH]; simpl.
  - split; [intros _ c []|reflexivity].
  - destruct (F64.isna (column_max_diff c db_tail hist)) eqn:En.
    { split; [discriminate|]. intros H.
      destruct (H c (or_introl eq_refl)) as [H1 _]. congruence. }
    destruct (F64.gtb (column_max_diff c db_tail hist) tol) eqn:Eg.
    { split; [discriminate|]. intros H.
      destruct (H c (or_introl eq_refl)) as [_ H1]. congruence. }
    rewrite IH. split.
    + intros H c' [<-|Hin]; auto.
    + intros H c' Hin. apply H. now right.
Qed.

(** Within tolerance implies passing, whatever the values. *)
Lemma within_tolerance_passes c db_tail hist tol :
  hist <> [] -> within_tolerance c db_tail hist tol ->
  column_passes c db_tail hist tol.
Proof.
  intros Hne Hw. pose proof (within_tolerance_length _ _ _ _ Hw) as Hlen.
  apply (abs_diffs_Forall c (fun d => F64.leb d tol = true)) in Hw; auto.
  unfold column_passes, column_max_diff.
  set (ds := map F64.abs (series_sub (map (col c) db_tail) (map (col c) hist))) in *.
  assert (Hds : exists d, In d ds).
  { subst ds. destruct hist as [|a hist]; [congruence|].
    destruct db_tail as [|s db]; [discriminate|]. simpl. eauto. }
  destruct Hds as (d0 & Hd0). rewrite Forall_forall in Hw.
  assert (Hd0n : F64.isna d0 = false).
  { specialize (Hw d0 Hd0). apply SFleb_iff_not_gt in Hw. tauto. }
  pose proof (series_max_not_nan ds d0 Hd0 Hd0n) as Hm.
  split; [exact Hm|].
  pose proof (Hw _ (series_max_in ds Hm)) as Hle.
  apply SFleb_iff_not_gt in Hle. unfold F64.gtb. tauto.
Qed.

(** Passing implies within tolerance when the differences and the
    tolerance are numbers. *)
Lemma passes_within_tolerance c db_tail hist tol :
  List.length db_tail = List.length hist ->
  F64.isna tol = false ->
  Forall2 (fun s a => F64.isna (abs_diff c s a) = false) db_tail hist ->
  column_passes c db_tail hist tol ->
  within_tolerance c db_tail hist tol.
Proof.
  intros Hlen Htol Hnum [Hm Hg].
  apply (abs_diffs_Forall c (fun d => F64.leb d tol = true)); auto.
  apply (abs_diffs_Forall c (fun d => F64.isna d = false)) in Hnum; auto.
  unfold column_max_diff in *.
  set (ds := map F64.abs (series_sub (map (col c) db_tail) (map (col c) hist))) in *.
  rewrite Forall_forall in *. intros d Hd.
  unfold F64.leb. apply SFleb_trans with (y := series_max ds).
  - apply series_max_upper; auto.
  - apply SFleb_iff_not_gt. auto.
Qed.

(** A difference above the tolerance puts the column maximum above it. *)
Lemma exceeding_pair_fails c db_tail hist tol i s a :
  nth_error db_tail i = Some s -> nth_error hist i = Some a ->
  F64.gtb (abs_diff c s a) tol = true ->
  F64.isna (column_max_diff c db_tail hist) = false
  /\ F64.gtb (column_max_diff c db_tail hist) tol = true.
Proof.
  intros Hs Ha Hgt. unfold column_max_diff.
  set (ds := map F64.abs (series_sub (map (col c) db_tail) (map (col c) hist))).
  assert (Hin : In (abs_diff c s a) ds).
  { subst ds. revert db_tail hist Hs Ha.
    induction i as [|i IH]; intros [|s' db] [|a' hist] Hs Ha;
      simpl in *; try discriminate.
    - injection Hs as ->. injection Ha as ->. now left.
    - right. now apply IH. }
  unfold F64.gtb in *. destruct (SFltb_not_nan _ _ Hgt) as [_ Hd].
  split; [eapply series_max_not_nan; eauto|].
  eapply SFltb_leb_trans; [exact Hgt|].
  now apply series_max_upper.
Qed.

Lemma Column_eq_dec (c c' : Column) : {c = c'} + {c <> c'}.
Proof. decide equality. Defined.

(** The loop stops at the first column that does not pass. *)
Lemma compare_columns_first_failure cols db_tail hist tol c :
  In c cols ->
  (forall c', In c' cols -> c' <> c -> column_passes c' db_tail hist tol) ->
  F64.isna (column_max_diff c db_tail hist) = false ->
  F64.gtb (column_max_diff c db_tail hist) tol = true ->
  compare_columns cols db_tail hist tol
  = Some (mismatch_in c (column_max_diff c db_tail hist)).
Proof.
  intros Hin Hothers Hm Hg.
  induction cols as [|c0 cols IH]; [contradiction|]. simpl.
  destruct (Column_eq_dec c0 c) as [->|Hneq].
  - rewrite Hm, Hg. reflexivity.
  - destruct (Hothers c0 (or_introl eq_refl) Hneq) as [H1 H2].
    rewrite H1, H2. apply IH.
    + destruct Hin as [E|Hin]; [congruence|exact Hin].
    + intros c' Hc'. apply Hothers. now right.
Qed.

Lemma map_tail {A B} (f : A -> B) (n : nat) (l : list A) :
  map f (tail n l) = tail n (map f l).
Proof. unfold tail. now rewrite skipn_map, length_map. Qed.

Lemma map_removelast {A B} (f : A -> B) (l : list A) :
  map f (removelast l) = removelast (map f l).
Proof.
  induction l as [|x l IH]; auto.
  destruct l as [|y l]; auto.
  change (removelast (x :: y :: l)) with (x :: removelast (y :: l)).
  change (map f (x :: y :: l)) with (f x :: f y :: map f l).
  change (removelast (f x :: f y :: map f l))
    with (f x :: removelast (map f (y :: l))).
  rewrite <- IH. reflexivity.
Qed.

Lemma In_ohlcv (c : Column) : In c ohlcv.
Proof. destruct c; simpl; auto 6. Qed.

(** [reaches_comparison] only looks at timestamps. *)
Lemma reaches_comparison_timestamps incoming stored incoming' stored' anchor :
  reaches_comparison incoming stored anchor ->
  map timestamp incoming' = map timestamp incoming ->
  map timestamp stored' = map timestamp stored ->
  reaches_comparison incoming' stored' anchor.
Proof.
  intros [H2 (init & row & Hin & Hrow) Hh Hlen Hal] Hi Hs.
  assert (Li : List.length incoming' = List.length incoming).
  { rewrite <- (length_map timestamp incoming'), Hi. apply length_map. }
  assert (Ls : List.length stored' = List.length stored).
  { rewrite <- (length_map timestamp stored'), Hs. apply length_map. }
  constructor.
  - lia.
  - assert (Hne : incoming' <> []).
    { intros E. rewrite E in Li. simpl in Li. lia. }
    destruct (exists_last Hne) as (init' & row' & E).
    exists init', row'. split; [exact E|].
    rewrite E, Hin, !map_app in Hi. simpl in Hi.
    apply app_inj_tail in Hi. destruct Hi as [_ Hi]. congruence.
  - unfold _is_strictly_hourly in *.
    destruct incoming' as [|r' l']; [reflexivity|].
    destruct incoming as [|r l]; [discriminate|].
    cbn [empty] in *. rewrite Hi. exact Hh.
  - lia.
  - rewrite map_tail, map_removelast, Hi, Hs, Li.
    rewrite <- map_tail, <- map_removelast. exact Hal.
Qed.

(** The measured difference of a column only looks at that column. *)
Lemma column_max_diff_ext c (db_tail hist db_tail' hist' : DataFrame) :
  map (col c) db_tail' = map (col c) db_tail ->
  map (col c) hist' = map (col c) hist ->
  column_max_diff c db_tail' hist' = column_max_diff c db_tail hist.
Proof. intros H1 H2. unfold column_max_diff. now rewrite H1, H2. Qed.

(** C1, as the code has it. When [validate_window] reaches the numeric
    comparison:
    - if the tolerance is not NaN and no aligned absolute difference is
      NaN (as when every value is finite), the result is [ok] with
      [validated_rows = len(incoming) - 1] exactly when, in each of the
      five columns, every aligned absolute difference is at most the
      tolerance;
    - if the window validates, then changing values of one column, on
      either side, so that some aligned difference of that column exceeds
      the tolerance gives [ok = false], [validated_rows = 0] and the
      reason "mismatch in <column> (max diff ...)" of that column. *)
Theorem overlap_validator_correct
    (incoming stored_tail : DataFrame) (anchor : Z) (tolerance : float) :
  reaches_comparison incoming stored_tail anchor ->
  let n := (List.length incoming - 1)%nat in
  let r := validate_window incoming stored_tail anchor tolerance in
  (F64.isna tolerance = false ->
   (forall c, Forall2 (fun s a => F64.isna (abs_diff c s a) = false)
                (tail n stored_tail) (removelast incoming)) ->
   (ok r = true /\ validated_rows r = Z.of_nat (List.length incoming) - 1
    <-> forall c, within_tolerance c (tail n stored_tail) (removelast incoming)
                   tolerance))
  /\ (ok r = true ->
      forall (incoming' stored_tail' : DataFrame) (c : Column),
        map timestamp incoming' = map timestamp incoming ->
        map timestamp stored_tail' = map timestamp stored_tail ->
        (forall c', c' <> c ->
                    map (col c') incoming' = map (col c') incoming
                    /\ map (col c') stored_tail' = map (col c') stored_tail) ->
        (exists i s a,
            nth_error (tail n stored_tail') i = Some s
            /\ nth_error (removelast incoming') i = Some a
            /\ F64.gtb (abs_diff c s a) tolerance = true) ->
        let r' := validate_window incoming' stored_tail' anchor tolerance in
        ok r' = false
        /\ validated_rows r' = 0
        /\ exists d,
            reason r' = mismatch_in c d
            /\ F64.gtb d tolerance = true
            /\ forall format_float,
                reason_str format_float (reason r')
                = ("mismatch in " ++ col_name c ++ " (max diff "
                   ++ format_float d ++ ")")%string).
Proof.
  intros Hrc n r.
  pose proof (validate_window_comparison incoming stored_tail anchor tolerance Hrc)
    as Hval. cbv zeta in Hval. fold n in Hval. fold r in Hval.
  assert (Hlen : List.length (tail n stored_tail)
                 = List.length (removelast incoming)).
  { destruct Hrc as [_ _ _ _ Hal]. fold n in Hal.
    rewrite <- (length_map timestamp (tail n stored_tail)), Hal.
    apply length_map. }
  assert (Hhist : removelast incoming <> []).
  { destruct Hrc as [H2 _ _ _ _]. intros E.
    pose proof (removelast_length incoming) as L. rewrite E in L.
    simpl in L. lia. }
  split.
  - intros Htol Hnum. rewrite Hval.
    destruct (compare_columns ohlcv (tail n stored_tail) (removelast incoming)
                tolerance) as [bad|] eqn:Ecmp.
    + cbn [ok validated_rows]. split; [intros [H _]; discriminate|].
      intros Hw. exfalso.
      assert (Hnone : compare_columns ohlcv (tail n stored_tail)
                        (removelast incoming) tolerance = None).
      { apply compare_columns_None. intros c _.
        apply within_tolerance_passes; auto. }
      congruence.
    + cbn [ok validated_rows]. split; [|auto].
      intros _ c. apply passes_within_tolerance; auto.
      apply (proj1 (compare_columns_None _ _ _ _) Ecmp), In_ohlcv.
  - intros Hok incoming' stored_tail' c Hti Hts Hothers (i & s & a & Hs & Ha & Hgt) r'.
    assert (Hnone : compare_columns ohlcv (tail n stored_tail)
                      (removelast incoming) tolerance = None).
    { rewrite Hval in Hok. destruct (compare_columns _ _ _ _); [discriminate|].
      reflexivity. }
    pose proof (reaches_comparison_timestamps _ _ _ _ _ Hrc Hti Hts) as Hrc'.
    pose proof (validate_window_comparison incoming' stored_tail' anchor
                  tolerance Hrc') as Hval'. cbv zeta in Hval'. fold r' in Hval'.
    assert (Li : List.length incoming' = List.length incoming).
    { rewrite <- (length_map timestamp incoming'), Hti. apply length_map. }
    rewrite Li in Hval'. fold n in Hval'.
    destruct (exceeding_pair_fails c _ _ tolerance i s a Hs Ha Hgt) as [Hm Hg].
    rewrite (compare_columns_first_failure ohlcv _ _ tolerance c
               (In_ohlcv c)) in Hval'; auto.
    + rewrite Hval'. cbn [ok validated_rows reason].
      split; [reflexivity|]. split; [reflexivity|].
      eexists. split; [reflexivity|]. split; [exact Hg|].
      intros format_float. reflexivity.
    + intros c' _ Hneq. destruct (Hothers c' Hneq) as [Hci Hcs].
      unfold column_passes.
      rewrite (column_max_diff_ext c' (tail n stored_tail) (removelast incoming)).
      * apply (proj1 (compare_columns_None _ _ _ _) Hnone), In_ohlcv.
      * rewrite !map_tail, Hcs. reflexivity.
      * rewrite !map_removelast, Hci. reflexivity.
Qed.

(** The validation test: the window 08:00..10:00 against the Store 08:00,
    09:00 validates; raising the stored open of 08:00 by one flips the
    result and names "open". *)
Lemma overlap_validator_correct_witness :
  let incoming := [bar 8 100; bar 9 110; bar 10 120] in
  let stored := [bar 8 100; bar 9 110] in
  let stored' := [set_col Open (F64.of_Z 101) (bar 8 100); bar 9 110] in
  reaches_comparison incoming stored (at_hour 10)
  /\ ok (validate_window incoming stored (at_hour 10) default_tolerance) = true
  /\ validated_rows (validate_window incoming stored (at_hour 10) default_tolerance)
     = 2
  /\ ok (validate_window incoming stored' (at_hour 10) default_tolerance) = false
  /\ exists d,
      reason (validate_window incoming stored' (at_hour 10) default_tolerance)
      = mismatch_in Open d.
Proof.
  intros incoming stored stored'.
  assert (Hrc : reaches_comparison incoming stored (at_hour 10)).
  { constructor;
      [simpl; lia
      |exists [bar 8 100; bar 9 110], (bar 10 120); split; reflexivity
      |reflexivity
      |simpl; lia
      |reflexivity]. }
  destruct (overlap_validator_correct incoming stored (at_hour 10)
              default_tolerance Hrc) as [Ha Hb].
  assert (Hok : ok (validate_window incoming stored (at_hour 10)
                      default_tolerance) = true
                /\ validated_rows (validate_window incoming stored (at_hour 10)
                                     default_tolerance)
                   = Z.of_nat (List.length incoming) - 1).
  { apply Ha.
    - reflexivity.
    - intros c. destruct c; repeat constructor.
    - intros c. destruct c; repeat constructor. }
  destruct Hok as [Hok Hrows].
  split; [exact Hrc|]. split; [exact Hok|]. split; [exact Hrows|].
  destruct (Hb Hok incoming stored' Open eq_refl eq_refl) as (H1 & _ & d & Hd & _).
  - intros c' Hc'. destruct c'; try (split; reflexivity). now elim Hc'.
  - exists 0%nat, (set_col Open (F64.of_Z 101) (bar 8 100)), (bar 8 100).
    repeat split.
  - split; [exact H1|]. exists d. exact Hd.
Defined.

(** C1, as stated, fails in the "only if" direction. With a NaN in one
    stored open, the window validates although that pair is not within
    tolerance; with a NaN tolerance, the window validates although every
    price of 09:00 is off by 2. *)
Lemma overlap_validator_counterexample :
  let incoming := [bar 8 100; bar 9 110; bar 10 120] in
  let stored_nan := [set_col Open F64.nan (bar 8 100); bar 9 110] in
  let stored_off := [bar 8 100; bar 9 112] in
  (reaches_comparison incoming stored_nan (at_hour 10)
   /\ validate_window incoming stored_nan (at_hour 10) default_tolerance
      = mkValidationResult true validated 2
   /\ ~ within_tolerance Open (tail 2 stored_nan) (removelast incoming)
          default_tolerance)
  /\ (reaches_comparison incoming stored_off (at_hour 10)
      /\ validate_window incoming stored_off (at_hour 10) F64.nan
         = mkValidationResult true validated 2
      /\ ~ within_tolerance Open (tail 2 stored_off) (removelast incoming)
             F64.nan).
Proof.
  intros incoming stored_nan stored_off.
  assert (R : forall b, List.length b = 2%nat ->
                map timestamp b = [at_hour 8; at_hour 9] ->
                reaches_comparison incoming b (at_hour 10)).
  { intros b Hb Ht. constructor.
    - simpl; lia.
    - exists [bar 8 100; bar 9 110], (bar 10 120). split; reflexivity.
    - reflexivity.
    - rewrite Hb. simpl; lia.
    - rewrite tail_all by (rewrite Hb; simpl; lia). exact Ht. }
  split; (split; [apply R; reflexivity|]); (split; [vm_compute; reflexivity|]);
    unfold within_tolerance; intros H.
  - change (tail 2 stored_nan) with stored_nan in H.
    change (removelast incoming) with [bar 8 100; bar 9 110] in H.
    inversion H as [|s a l l' Hsa Hrest]; subst.
    vm_compute in Hsa. discriminate.
  - change (tail 2 stored_off) with stored_off in H.
    change (removelast incoming) with [bar 8 100; bar 9 110] in H.
    inversion H as [|s a l l' Hsa Hrest]; subst.
    vm_compute in Hsa. discriminate.
Qed.

(** ** Finite rows and single-field changes *)

(** Finite rows have no NaN difference: the first part of
    [overlap_validator_correct] applies to them. *)
Lemma finite_rows_differences (db_tail hist : DataFrame) (c : Column) :
  List.length db_tail = List.length hist ->
  Forall finite_row db_tail -> Forall finite_row hist ->
  Forall2 (fun s a => F64.isna (abs_diff c s a) = false) db_tail hist.
Proof.
  revert hist. induction db_tail as [|s db IH]; intros [|a hist] Hlen Hdb Hh;
    simpl in Hlen; try discriminate; constructor.
  - inversion Hdb; inversion Hh; subst. now apply abs_diff_finite.
  - inversion Hdb; inversion Hh; subst. apply IH; auto.
Qed.

(** Replacing one field leaves the timestamp and the other columns. *)
Lemma set_col_timestamp c x r : timestamp (set_col c x r) = timestamp r.
Proof. destruct c; reflexivity. Qed.

Lemma set_col_same c x r : col c (set_col c x r) = x.
Proof. destruct c; reflexivity. Qed.

Lemma set_col_other c c' x r : c' <> c -> col c' (set_col c x r) = col c' r.
Proof. destruct c, c'; intros H; try reflexivity; now elim H. Qed.

(** * Further properties of the code *)

(** ** [validate_window]: what it looks at *)

(** X1. The anchor row is only read for its timestamp: replacing its
    numeric fields changes nothing. *)
Theorem anchor_row_values_are_ignored
    (init : DataFrame) (row row' : Row) (db_df : DataFrame)
    (target_hour : Z) (tolerance : float) :
  timestamp row' = timestamp row ->
  validate_window (init ++ [row']) db_df target_hour tolerance
  = validate_window (init ++ [row]) db_df target_hour tolerance.
Proof.
  intros Hts. unfold validate_window.
  assert (Hmap : map timestamp (init ++ [row']) = map timestamp (init ++ [row])).
  { rewrite !map_app. simpl. now rewrite Hts. }
  assert (Hh : _is_strictly_hourly (init ++ [row'])
               = _is_strictly_hourly (init ++ [row])).
  { unfold _is_strictly_hourly. rewrite Hmap.
    destruct init; reflexivity. }
  destruct (init ++ [row']) as [|f' r'] eqn:E'; [destruct init; discriminate|].
  destruct (init ++ [row]) as [|f r] eqn:E; [destruct init; discriminate|].
  rewrite <- E', <- E in *.
  rewrite !last_snoc, !removelast_snoc, Hts, Hh, Hmap.
  reflexivity.
Qed.

Lemma anchor_row_values_are_ignored_witness :
  validate_window [bar 8 100; bar 9 110; set_col Close F64.nan (bar 10 120)]
    [bar 8 100; bar 9 110] (at_hour 10) default_tolerance
  = validate_window [bar 8 100; bar 9 110; bar 10 120]
      [bar 8 100; bar 9 110] (at_hour 10) default_tolerance.
Proof.
  apply (anchor_row_values_are_ignored [bar 8 100; bar 9 110] (bar 10 120)
           (set_col Close F64.nan (bar 10 120))).
  reflexivity.
Defined.

(** X2. The checks that come before any comparison: an empty window and
    a window whose last row is not at the anchor are rejected with their
    own reasons, and a window of the anchor row alone is accepted with
    nothing validated, whatever the stored tail and the tolerance. *)
Theorem validate_window_before_comparison
    (db_df : DataFrame) (target_hour : Z) (tolerance : float) :
  validate_window [] db_df target_hour tolerance
  = mkValidationResult false api_df_empty 0
  /\ (forall init row,
        timestamp row <> target_hour ->
        validate_window (init ++ [row]) db_df target_hour tolerance
        = mkValidationResult false api_last_row_is_not_target_hour 0)
  /\ (forall row,
        timestamp row = target_hour ->
        validate_window [row] db_df target_hour tolerance
        = mkValidationResult true no_historical_window_to_validate 0).
Proof.
  split; [reflexivity|]. split.
  - intros init row Hne. unfold validate_window.
    destruct (init ++ [row]) as [|f r] eqn:E; [destruct init; discriminate|].
    rewrite <- E, last_snoc.
    destruct (Z.eqb_spec (timestamp row) target_hour); [contradiction|].
    reflexivity.
  - intros row <-. unfold validate_window. cbn [last removelast empty].
    rewrite Z.eqb_refl. reflexivity.
Qed.

(** ** [validate_window]: the continuity gate *)

Lemma sorted_permutation_unique (l l' : list Z) :
  Permutation l l' -> StronglySorted Z.le l -> StronglySorted Z.le l' -> l = l'.
Proof.
  revert l'. induction l as [|x l IH]; intros l' Hp Hs Hs'.
  - apply Permutation_nil in Hp. now subst.
  - destruct l' as [|y l'].
    { apply Permutation_sym, Permutation_nil in Hp. discriminate. }
    inversion Hs as [|? ? Hs1 Hall]; inversion Hs' as [|? ? Hs1' Hall']; subst.
    assert (Hxy : x = y).
    { assert (Hy : In y (x :: l))
        by (eapply Permutation_in; [apply Permutation_sym, Hp|now left]).
      assert (Hx : In x (y :: l'))
        by (eapply Permutation_in; [apply Hp|now left]).
      rewrite Forall_forall in Hall, Hall'.
      destruct Hy as [Hy|Hy]; [auto|].
      destruct Hx as [Hx|Hx]; [auto|].
      specialize (Hall _ Hy). specialize (Hall' _ Hx). lia. }
    subst y. f_equal. apply IH; auto.
    eapply Permutation_cons_inv; eauto.
Qed.

Lemma all_hourly_ascending (ts : list Z) :
  all_hourly (diff ts) = true -> StronglySorted Z.le ts.
Proof.
  intros H. apply Sorted_StronglySorted; [intros x y z; lia|].
  induction ts as [|x ts IH]; [constructor|].
  destruct ts as [|y ts]; [repeat constructor|].
  change (all_hourly (diff (x :: y :: ts)))
    with ((y - x =? HOUR) && all_hourly (diff (y :: ts))) in H.
  apply andb_true_iff in H. destruct H as [Hxy Hrest].
  constructor; [now apply IH|]. constructor.
  apply Z.eqb_eq in Hxy. unfold HOUR in Hxy. lia.
Qed.

Lemma ZSort_sorted (ts : list Z) : StronglySorted Z.le (ZSort.sort ts).
Proof.
  assert (T : Transitive (fun x y => is_true (ZOrder.leb x y))).
  { intros x y z. unfold ZOrder.leb, is_true. rewrite !Z.leb_le. lia. }
  pose proof (ZSort.StronglySorted_sort ts T) as S. clear T.
  induction S as [|x l Hs IH Hall]; constructor; auto.
  eapply Forall_impl; [|exact Hall]. intros y Hy. now apply Z.leb_le.
Qed.

(** Sorting an hourly series leaves it as it is. *)
Lemma sort_hourly (ts : list Z) :
  all_hourly (diff ts) = true -> ZSort.sort ts = ts.
Proof.
  intros H. symmetry. apply sorted_permutation_unique.
  - apply ZSort.Permuted_sort.
  - now apply all_hourly_ascending.
  - apply ZSort_sorted.
Qed.

(** X3. The continuity gate of [validate_window] looks at the sorted
    timestamps: a window of at least two rows that ends at the anchor is
    rejected as "not strictly hourly" exactly when its timestamps, once
    sorted, are not one hour apart. A window that is hourly as given
    passes the gate; so does one that is out of order but hourly once
    sorted. *)
Theorem continuity_gate_sorts_first
    (init : DataFrame) (row : Row) (db_df : DataFrame) (tolerance : float) :
  init <> [] ->
  let window := init ++ [row] in
  let r := validate_window window db_df (timestamp row) tolerance in
  (reason r = api_window_not_strictly_hourly
   <-> all_hourly (diff (ZSort.sort (map timestamp window))) = false)
  /\ (_is_strictly_hourly window = true ->
      reason r <> api_window_not_strictly_hourly).
Proof.
  intros Hinit window r.
  assert (Hiff : reason r = api_window_not_strictly_hourly
                 <-> all_hourly (diff (ZSort.sort (map timestamp window))) = false).
  { subst r window. rewrite validate_window_history by assumption.
    destruct (_is_strictly_hourly (init ++ [row])) eqn:Hh.
    - assert (Hs : all_hourly (diff (ZSort.sort (map timestamp (init ++ [row]))))
                   = true).
      { unfold _is_strictly_hourly in Hh.
        destruct (init ++ [row]) as [|f l] eqn:E; [reflexivity|].
        cbn [empty] in Hh. now rewrite sort_hourly. }
      rewrite Hs. cbn [negb andb].
      destruct (_ <? _)%nat; [split; discriminate|]. cbv zeta.
      destruct (negb (tolist_eqb _ _)); [split; discriminate|].
      destruct (compare_columns _ _ _ _) as [bad|] eqn:Ec;
        cbn [reason]; [|split; discriminate].
      apply compare_columns_reason in Ec.
      destruct Ec as (c & _ & [->|[d ->]]); split; discriminate.
    - cbn [negb andb].
      destruct (all_hourly (diff (ZSort.sort _))) eqn:Hs; cbn [negb].
      + destruct (_ <? _)%nat; [split; discriminate|]. cbv zeta.
        destruct (negb (tolist_eqb _ _)); [split; discriminate|].
        destruct (compare_columns _ _ _ _) as [bad|] eqn:Ec;
          cbn [reason]; [|split; discriminate].
        apply compare_columns_reason in Ec.
        destruct Ec as (c & _ & [->|[d ->]]); split; discriminate.
      + cbn [reason]. split; reflexivity. }
  split; [exact Hiff|].
  intros Hh Hr. apply Hiff in Hr.
  unfold _is_strictly_hourly in Hh. subst window.
  destruct (init ++ [row]) as [|f l] eqn:E; [destruct init; discriminate|].
  cbn [empty] in Hh. rewrite sort_hourly in Hr by assumption. congruence.
Qed.

(** The rows 09:00, 08:00, 10:00 are out of order, yet the gate lets them
    through: the window is rejected for its timestamps not matching the
    stored ones. *)
Lemma continuity_gate_sorts_first_witness :
  let window := [bar 9 110; bar 8 100; bar 10 120] in
  let r := validate_window window [bar 8 100; bar 9 110] (at_hour 10)
             default_tolerance in
  _is_strictly_hourly window = false
  /\ reason r <> api_window_not_strictly_hourly
  /\ reason r = timestamp_mismatch_between_api_and_db.
Proof.
  intros window r. split; [reflexivity|]. split; [|vm_compute; reflexivity].
  destruct (continuity_gate_sorts_first [bar 9 110; bar 8 100] (bar 10 120)
              [bar 8 100; bar 9 110] default_tolerance)
    as [Hiff _]; [discriminate|].
  intros E. apply Hiff in E. vm_compute in E. discriminate.
Defined.

(** ** [validate_window]: the stored tail *)

Lemma tail_app_older {A} (n : nat) (older l : list A) :
  (n <= List.length l)%nat -> tail n (older ++ l) = tail n l.
Proof.
  intros H. unfold tail. rewrite length_app, skipn_app.
  replace (List.length older + List.length l - n - List.length older)%nat
    with (List.length l - n)%nat by lia.
  rewrite skipn_all2 by lia. reflexivity.
Qed.

(** X4. Only the last [len(incoming) - 1] rows of the stored tail are
    read: older rows in front of a tail that is long enough change
    nothing. *)
Theorem older_stored_rows_are_ignored
    (api_df db_df older : DataFrame) (target_hour : Z) (tolerance : float) :
  (List.length api_df - 1 <= List.length db_df)%nat ->
  validate_window api_df (older ++ db_df) target_hour tolerance
  = validate_window api_df db_df target_hour tolerance.
Proof.
  intros Hlen. unfold validate_window.
  destruct api_df as [|first_row rest]; [reflexivity|].
  set (api_df := first_row :: rest) in *.
  rewrite <- (removelast_length api_df) in Hlen.
  rewrite tail_app_older by assumption.
  replace (List.length (older ++ db_df) <? List.length (removelast api_df))%nat
    with false by (symmetry; apply Nat.ltb_ge; rewrite length_app; lia).
  replace (List.length db_df <? List.length (removelast api_df))%nat
    with false by (symmetry; apply Nat.ltb_ge; lia).
  reflexivity.
Qed.

Lemma older_stored_rows_are_ignored_witness :
  validate_window [bar 8 100; bar 9 110; bar 10 120]
    ([bar 5 70; bar 7 90] ++ [bar 8 100; bar 9 110]) (at_hour 10)
    default_tolerance
  = mkValidationResult true validated 2.
Proof.
  rewrite (older_stored_rows_are_ignored [bar 8 100; bar 9 110; bar 10 120]
             [bar 8 100; bar 9 110] [bar 5 70; bar 7 90] (at_hour 10)
             default_tolerance).
  - vm_compute. reflexivity.
  - simpl. lia.
Defined.

(** X5. Stored timestamps that differ from the incoming ones at an
    aligned position are reported as a timestamp mismatch before any
    value is compared, whatever the values and the tolerance. *)
Theorem misaligned_timestamps_are_rejected
    (init : DataFrame) (row : Row) (db_df : DataFrame) (tolerance : float) :
  init <> [] ->
  _is_strictly_hourly (init ++ [row]) = true ->
  (List.length init <= List.length db_df)%nat ->
  map timestamp (tail (List.length init) db_df) <> map timestamp init ->
  validate_window (init ++ [row]) db_df (timestamp row) tolerance
  = mkValidationResult false timestamp_mismatch_between_api_and_db 0.
Proof.
  intros Hinit Hh Hlen Hne. rewrite validate_window_history by assumption.
  rewrite Hh. cbn [negb andb].
  replace (List.length db_df <? List.length init)%nat with false
    by (symmetry; apply Nat.ltb_ge; lia).
  cbv zeta.
  destruct (tolist_eqb (map timestamp (tail (List.length init) db_df))
              (map timestamp init)) eqn:E; [|reflexivity].
  apply tolist_eqb_eq in E. contradiction.
Qed.

(** The validation test with the stored tail shifted by one bar. *)
Lemma misaligned_timestamps_are_rejected_witness :
  validate_window [bar 8 100; bar 9 110; bar 10 120] [bar 7 100; bar 8 110]
    (at_hour 10) default_tolerance
  = mkValidationResult false timestamp_mismatch_between_api_and_db 0.
Proof.
  apply (misaligned_timestamps_are_rejected [bar 8 100; bar 9 110] (bar 10 120)
           [bar 7 100; bar 8 110] default_tolerance).
  - discriminate.
  - reflexivity.
  - simpl. lia.
  - discriminate.
Defined.

(** ** [validate_window]: the tolerance *)

Lemma compare_columns_tolerance cols db_tail hist tol tol' :
  F64.leb tol tol' = true ->
  compare_columns cols db_tail hist tol = None ->
  compare_columns cols db_tail hist tol' = None.
Proof.
  intros Hle H. apply compare_columns_None.
  intros c Hc. destruct (proj1 (compare_columns_None _ _ _ _) H c Hc) as [Hn Hg].
  split; [exact Hn|].
  unfold F64.gtb in *. destruct (SFltb tol' _) eqn:E; [|reflexivity].
  rewrite (SFleb_ltb_trans _ _ _ Hle E) in Hg. discriminate.
Qed.

(** X6. A wider tolerance never rejects what a narrower one accepts. *)
Theorem wider_tolerance_accepts
    (api_df db_df : DataFrame) (target_hour : Z) (tol tol' : float) :
  F64.leb tol tol' = true ->
  ok (validate_window api_df db_df target_hour tol) = true ->
  validate_window api_df db_df target_hour tol'
  = validate_window api_df db_df target_hour tol.
Proof.
  intros Hle. unfold validate_window.
  destruct api_df as [|first_row rest]; [reflexivity|].
  destruct (negb _); [reflexivity|].
  destruct (empty _); [reflexivity|].
  destruct (_ && _); [reflexivity|].
  destruct (_ <? _)%nat; [reflexivity|]. cbv zeta.
  destruct (negb (tolist_eqb _ _)); [reflexivity|].
  destruct (compare_columns ohlcv _ _ tol) as [bad|] eqn:E; [discriminate|].
  intros _. now rewrite (compare_columns_tolerance _ _ _ _ _ Hle E).
Qed.

Lemma wider_tolerance_accepts_witness :
  validate_window [bar 8 100; bar 9 110; bar 10 120] [bar 8 100; bar 9 110]
    (at_hour 10) (F64.of_Z 1)
  = mkValidationResult true validated 2.
Proof.
  rewrite (wider_tolerance_accepts _ _ _ default_tolerance (F64.of_Z 1));
    vm_compute; reflexivity.
Defined.

(** ** [validate_window]: a window against its own history *)

Lemma sub_self (x : float) :
  F64.is_finite x = true -> F64.sub x x = S754_zero false.
Proof.
  destruct x as [s|s| |s m e]; try discriminate; intros _;
    unfold F64.sub, SFsub.
  - destruct s; reflexivity.
  - rewrite Z.sub_diag. reflexivity.
Qed.

Lemma series_max_zeros (n : nat) :
  series_max (repeat (S754_zero false) (S n)) = S754_zero false.
Proof.
  unfold series_max. cbn [repeat fold_left].
  change (nanmax_step F64.nan (S754_zero false)) with (S754_zero false).
  induction n as [|n IH]; [reflexivity|].
  cbn [repeat fold_left].
  change (nanmax_step (S754_zero false) (S754_zero false))
    with (S754_zero false).
  exact IH.
Qed.

Lemma self_differences (c : Column) (hist : DataFrame) :
  Forall finite_row hist ->
  map F64.abs (series_sub (map (col c) hist) (map (col c) hist))
  = repeat (S754_zero false) (List.length hist).
Proof.
  induction 1 as [|r hist Hr Hall IH]; [reflexivity|].
  simpl. rewrite IH, sub_self by apply Hr. reflexivity.
Qed.

(** X7. A strictly hourly window whose history holds finite values
    validates against that very history, with any tolerance that is at
    least zero, zero included. *)
Theorem window_validates_against_itself
    (init : DataFrame) (row : Row) (tolerance : float) :
  init <> [] ->
  _is_strictly_hourly (init ++ [row]) = true ->
  Forall finite_row init ->
  F64.leb (S754_zero false) tolerance = true ->
  validate_window (init ++ [row]) init (timestamp row) tolerance
  = mkValidationResult true validated (Z.of_nat (List.length init)).
Proof.
  intros Hinit Hh Hfin Htol. rewrite validate_window_history by assumption.
  rewrite Hh. cbn [negb andb]. rewrite Nat.ltb_irrefl. cbv zeta.
  rewrite tail_all by lia.
  replace (tolist_eqb (map timestamp init) (map timestamp init)) with true
    by (symmetry; now apply tolist_eqb_eq).
  cbn [negb].
  assert (Hnone : compare_columns ohlcv init init tolerance = None).
  { apply compare_columns_None. intros c _.
    unfold column_passes, column_max_diff.
    rewrite self_differences by assumption.
    destruct init as [|r0 init0]; [congruence|].
    simpl List.length. rewrite series_max_zeros.
    split; [reflexivity|].
    apply SFleb_iff_not_gt in Htol. unfold F64.gtb. tauto. }
  rewrite Hnone. reflexivity.
Qed.

Lemma window_validates_against_itself_witness :
  validate_window [bar 8 100; bar 9 110; bar 10 120] [bar 8 100; bar 9 110]
    (at_hour 10) (S754_zero false)
  = mkValidationResult true validated 2.
Proof.
  apply (window_validates_against_itself [bar 8 100; bar 9 110] (bar 10 120)
           (S754_zero false)).
  - discriminate.
  - reflexivity.
  - repeat constructor; intros c; destruct c; reflexivity.
  - reflexivity.
Defined.

(** ** [db.py]: the tail read *)

Lemma RowSort_sorted (l : list Row) :
  StronglySorted (fun x y => timestamp x <= timestamp y) (RowSort.sort l).
Proof.
  assert (T : Transitive (fun x y => is_true (RowOrder.leb x y))).
  { intros x y z. unfold RowOrder.leb, is_true. rewrite !Z.leb_le. lia. }
  pose proof (RowSort.StronglySorted_sort l T) as S. clear T.
  induction S as [|x s Hs IH Hall]; constructor; auto.
  eapply Forall_impl; [|exact Hall]. intros y Hy. now apply Z.leb_le.
Qed.

Lemma StronglySorted_snoc {A} (R : A -> A -> Prop) (l : list A) (x : A) :
  StronglySorted R l -> Forall (fun y => R y x) l ->
  StronglySorted R (l ++ [x]).
Proof.
  induction 1 as [|y l Hs IH Hall]; intros Hx; simpl.
  - repeat constructor.
  - inversion Hx; subst. constructor; auto.
    apply Forall_app. split; auto.
Qed.

Lemma sorted_rev (l : list Row) :
  StronglySorted (fun x y => timestamp x <= timestamp y) l ->
  StronglySorted (fun x y => timestamp y <= timestamp x) (rev l).
Proof.
  induction 1 as [|x l Hs IH Hall]; simpl; [constructor|].
  apply StronglySorted_snoc; auto.
  apply Forall_forall. intros y Hy. rewrite Forall_forall in Hall.
  apply Hall. now apply in_rev.
Qed.

(** In a sorted list every row of a prefix is in order with every row
    after it. *)
Lemma sorted_firstn_skipn {A} (R : A -> A -> Prop) (n : nat) (l : list A) :
  StronglySorted R l ->
  forall x y, In x (firstn n l) -> In y (skipn n l) -> R x y.
Proof.
  intros Hs. revert n. induction Hs as [|z l Hs IH Hall]; intros n x y Hx Hy.
  - rewrite firstn_nil in Hx. contradiction.
  - destruct n as [|n]; [contradiction|]. simpl in Hx, Hy.
    destruct Hx as [<-|Hx].
    + rewrite Forall_forall in Hall. apply Hall.
      rewrite <- (firstn_skipn n l). apply in_or_app. now right.
    + eapply IH; eauto.
Qed.

Lemma select_last_n_before_latest (s : Store) (n end_exclusive : Z) :
  0 <= n ->
  exists df older,
    select_last_n_before s n end_exclusive = Some df
    /\ StronglySorted Z.le (map timestamp df)
    /\ Permutation (filter (fun r => timestamp r <? end_exclusive) s)
                   (older ++ df)
    /\ List.length df
       = Nat.min (Z.to_nat n)
           (List.length (filter (fun r => timestamp r <? end_exclusive) s))
    /\ Forall (fun r => timestamp r < end_exclusive) df
    /\ (forall o r, In o older -> In r df -> timestamp o <= timestamp r).
Proof.
  intros Hn. unfold select_last_n_before.
  destruct (Z.ltb_spec n 0); [lia|].
  set (matching := filter (fun r => timestamp r <? end_exclusive) s).
  set (desc := rev (RowSort.sort matching)).
  exists (RowSort.sort (firstn (Z.to_nat n) desc)), (skipn (Z.to_nat n) desc).
  assert (Hdesc : Permutation matching desc).
  { subst desc. rewrite <- Permutation_rev. apply RowSort.Permuted_sort. }
  assert (Hsorted : StronglySorted (fun x y => timestamp y <= timestamp x) desc).
  { apply sorted_rev, RowSort_sorted. }
  split; [reflexivity|]. split.
  { apply StronglySorted_map, RowSort_sorted. }
  split.
  { rewrite Hdesc at 1. rewrite <- (firstn_skipn (Z.to_nat n) desc) at 1.
    rewrite Permutation_app_comm. apply Permutation_app_head.
    apply RowSort.Permuted_sort. }
  split.
  { rewrite <- (Permutation_length (RowSort.Permuted_sort _)).
    rewrite length_firstn, (Permutation_length Hdesc). reflexivity. }
  split.
  { apply Forall_forall. intros r Hr.
    apply (Permutation_in _ (Permutation_sym (RowSort.Permuted_sort _))) in Hr.
    apply firstn_In in Hr.
    apply (Permutation_in _ (Permutation_sym Hdesc)) in Hr.
    apply filter_In in Hr. destruct Hr as [_ Hr]. now apply Z.ltb_lt. }
  intros o r Ho Hr.
  apply (Permutation_in _ (Permutation_sym (RowSort.Permuted_sort _))) in Hr.
  apply (sorted_firstn_skipn _ (Z.to_nat n) desc Hsorted r o Hr Ho).
Qed.

(** X8. A tail read with a non-negative limit [n] returns, in ascending
    order, the [n] latest stored rows strictly before the bound (all of
    them when there are fewer): the rows before the bound split into the
    returned ones and older ones, none of which is later than a returned
    row. *)
Theorem tail_read_returns_the_latest_rows (s : Store) (n end_exclusive : Z) :
  0 <= n ->
  exists df older,
    select_last_n_before s n end_exclusive = Some df
    /\ StronglySorted Z.le (map timestamp df)
    /\ Permutation (filter (fun r => timestamp r <? end_exclusive) s)
                   (older ++ df)
    /\ List.length df
       = Nat.min (Z.to_nat n)
           (List.length (filter (fun r => timestamp r <? end_exclusive) s))
    /\ Forall (fun r => timestamp r < end_exclusive) df
    /\ (forall o r, In o older -> In r df -> timestamp o <= timestamp r).
Proof. exact (select_last_n_before_latest s n end_exclusive). Qed.

Lemma tail_read_returns_the_latest_rows_witness :
  select_last_n_before [bar 9 110; bar 11 130; bar 8 100; bar 10 120] 2
    (at_hour 11)
  = Some [bar 9 110; bar 10 120].
Proof.
  destruct (tail_read_returns_the_latest_rows
              [bar 9 110; bar 11 130; bar 8 100; bar 10 120] 2 (at_hour 11))
    as (df & older & Hsel & _); [lia|].
  rewrite Hsel. vm_compute in Hsel. injection Hsel as <-. reflexivity.
Defined.

(** ** [db.py]: coverage *)

Lemma fold_min_spec (l : Store) : forall m,
  fold_left (fun m r => Z.min m (timestamp r)) l m <= m
  /\ (forall r, In r l ->
        fold_left (fun m r => Z.min m (timestamp r)) l m <= timestamp r)
  /\ (fold_left (fun m r => Z.min m (timestamp r)) l m = m
      \/ exists r, In r l
           /\ fold_left (fun m r => Z.min m (timestamp r)) l m = timestamp r).
Proof.
  induction l as [|x l IH]; intros m; simpl.
  - split; [lia|]. split; [contradiction|now left].
  - destruct (IH (Z.min m (timestamp x))) as (H1 & H2 & H3).
    split; [lia|]. split.
    + intros r [->|Hr]; [lia|auto].
    + destruct H3 as [E|(r & Hr & E)].
      * rewrite E. destruct (Z.min_spec m (timestamp x)) as [[_ ->]|[_ ->]].
        -- now left.
        -- right. exists x. auto.
      * right. exists r. auto.
Qed.

Lemma coverage_bounds (s : Store) :
  (coverage s = None <-> s = [])
  /\ (forall mn mx cnt,
        coverage s = Some (mn, mx, cnt) ->
        cnt = Z.of_nat (List.length s)
        /\ In mn (map timestamp s) /\ In mx (map timestamp s)
        /\ forall r, In r s -> mn <= timestamp r <= mx).
Proof.
  split.
  - destruct s; split; auto; discriminate.
  - intros mn mx cnt Hcov.
    destruct (coverage_max_attained _ _ _ _ Hcov) as (rmax & Hrmax & Emax).
    assert (Hmax : forall r, In r s -> timestamp r <= mx).
    { intros r Hr. eapply coverage_max; eauto. }
    destruct s as [|first rest]; [discriminate|].
    cbn [coverage] in Hcov.
    assert (Hcnt : cnt = Z.of_nat (List.length (first :: rest))) by congruence.
    assert (Hmn : min_timestamp first rest = mn) by congruence.
    unfold min_timestamp in Hmn.
    destruct (fold_min_spec rest (timestamp first)) as (H1 & H2 & H3).
    rewrite Hmn in H1, H2, H3.
    split; [exact Hcnt|]. split.
    { destruct H3 as [->|(r & Hr & ->)]; apply in_map; [now left|now right]. }
    split; [rewrite Emax; now apply in_map|].
    intros r Hr. split; [|now apply Hmax].
    destruct Hr as [<-|Hr]; [exact H1|now apply H2].
Qed.

(** X9. [coverage_stats] answers [None] exactly on an empty table;
    otherwise its count is the number of rows and its minimum and
    maximum are stored timestamps that bound every stored timestamp. *)
Theorem coverage_bounds_the_store (s : Store) :
  (coverage s = None <-> s = [])
  /\ (forall mn mx cnt,
        coverage s = Some (mn, mx, cnt) ->
        cnt = Z.of_nat (List.length s)
        /\ In mn (map timestamp s) /\ In mx (map timestamp s)
        /\ forall r, In r s -> mn <= timestamp r <= mx).
Proof. exact (coverage_bounds s). Qed.

(** ** [db.py]: batches of appends *)

Lemma insert_if_absent_extends (s : Store) (row : Row) :
  exists added, insert_if_absent s row = s ++ added
                /\ (added = [] \/ added = [row]).
Proof.
  unfold insert_if_absent. destruct (exists_timestamp s (timestamp row)).
  - exists []. rewrite app_nil_r. auto.
  - exists [row]. auto.
Qed.

(** X10. A sequence of [append_row_if_absent] calls only adds rows at
    the end of the table: the rows already stored stay as they are and
    in place, every added row is one of the appended ones, every appended
    timestamp is stored afterwards, and the unique index is kept. *)
Theorem appends_only_add_rows (rows : DataFrame) (s : Store) :
  exists added,
    fold_left insert_if_absent rows s = s ++ added
    /\ incl added rows
    /\ (forall r, In r rows ->
          In (timestamp r) (map timestamp (s ++ added)))
    /\ (unique_index s -> unique_index (s ++ added)).
Proof.
  revert s. induction rows as [|x rows IH]; intros s.
  - exists []. rewrite app_nil_r. simpl. repeat split; auto.
    + intros r [].
    + intros r [].
  - destruct (insert_if_absent_extends s x) as (a1 & E1 & Ha1).
    destruct (IH (insert_if_absent s x)) as (a2 & E2 & Hin2 & Hcov2 & Hu2).
    exists (a1 ++ a2). simpl. rewrite E2, E1, <- app_assoc.
    split; [reflexivity|]. split.
    { intros r Hr. apply in_app_or in Hr. destruct Hr as [Hr|Hr].
      - destruct Ha1 as [-> | ->]; [contradiction|].
        destruct Hr as [<- | []]. now left.
      - right. now apply Hin2. }
    split.
    { intros r [Hx|Hr].
      - subst r. pose proof (exists_timestamp_insert s x) as Hex.
        apply exists_timestamp_iff in Hex. rewrite E1 in Hex.
        rewrite app_assoc, map_app, in_app_iff. now left.
      - specialize (Hcov2 r Hr). rewrite E1, <- app_assoc in Hcov2.
        exact Hcov2. }
    intros Hu. rewrite app_assoc, <- E1. apply Hu2.
    now apply insert_if_absent_unique.
Qed.

Lemma exists_timestamp_perm (s s' : Store) (ts : Z) :
  Permutation s s' -> exists_timestamp s ts = exists_timestamp s' ts.
Proof.
  intros Hp.
  destruct (exists_timestamp s ts) eqn:E, (exists_timestamp s' ts) eqn:E';
    auto.
  - apply exists_timestamp_iff in E.
    apply (Permutation_in _ (Permutation_map timestamp Hp)) in E.
    apply exists_timestamp_iff in E. congruence.
  - apply exists_timestamp_iff in E'.
    apply (Permutation_in _ (Permutation_sym (Permutation_map timestamp Hp))) in E'.
    apply exists_timestamp_iff in E'. congruence.
Qed.

Lemma insert_if_absent_perm (s s' : Store) (row : Row) :
  Permutation s s' ->
  Permutation (insert_if_absent s row) (insert_if_absent s' row).
Proof.
  intros Hp. unfold insert_if_absent.
  rewrite (exists_timestamp_perm s s' _ Hp).
  destruct (exists_timestamp s' (timestamp row)); auto.
  now apply Permutation_app_tail.
Qed.

Lemma fold_insert_perm (rows : DataFrame) : forall s s',
  Permutation s s' ->
  Permutation (fold_left insert_if_absent rows s)
              (fold_left insert_if_absent rows s').
Proof.
  induction rows as [|x rows IH]; intros s s' Hp; simpl; auto.
  apply IH. now apply insert_if_absent_perm.
Qed.

Lemma exists_timestamp_snoc (s : Store) (row : Row) (ts : Z) :
  exists_timestamp (s ++ [row]) ts
  = exists_timestamp s ts || (timestamp row =? ts).
Proof.
  unfold exists_timestamp. rewrite existsb_app. simpl.
  now rewrite orb_false_r.
Qed.

Lemma insert_if_absent_swap (s : Store) (a b : Row) :
  timestamp a <> timestamp b ->
  Permutation (insert_if_absent (insert_if_absent s a) b)
              (insert_if_absent (insert_if_absent s b) a).
Proof.
  intros Hne. unfold insert_if_absent.
  destruct (exists_timestamp s (timestamp a)) eqn:Ea,
           (exists_timestamp s (timestamp b)) eqn:Eb;
    rewrite ?Ea, ?Eb, ?exists_timestamp_snoc, ?Ea, ?Eb; cbn [orb];
    try reflexivity.
  replace (timestamp a =? timestamp b) with false
    by (symmetry; apply Z.eqb_neq; auto).
  replace (timestamp b =? timestamp a) with false
    by (symmetry; apply Z.eqb_neq; auto).
  rewrite <- !app_assoc. apply Permutation_app_head. simpl. apply perm_swap.
Qed.

(** X11. The order of a batch of appends with distinct timestamps does
    not matter for what the table holds: two orders of the same rows
    leave the same rows, up to their order in the table. *)
Theorem appends_commute (rows rows' : DataFrame) (s : Store) :
  Permutation rows rows' ->
  NoDup (map timestamp rows) ->
  Permutation (fold_left insert_if_absent rows s)
              (fold_left insert_if_absent rows' s).
Proof.
  intros Hp. revert s. induction Hp as [|x l l' Hp IH|x y l|l l' l'' Hp1 IH1 Hp2 IH2];
    intros s Hnd.
  - reflexivity.
  - simpl. apply IH. now inversion Hnd.
  - simpl. apply fold_insert_perm, insert_if_absent_swap.
    inversion Hnd as [|? ? Hnotin _]; subst. simpl in Hnotin.
    intros E. apply Hnotin. left. auto.
  - etransitivity; [apply IH1; auto|]. apply IH2.
    eapply Permutation_NoDup; [|exact Hnd]. now apply Permutation_map.
Qed.

Lemma appends_commute_witness :
  Permutation
    (fold_left insert_if_absent [bar 10 120; bar 11 130] [bar 8 100])
    (fold_left insert_if_absent [bar 11 130; bar 10 120] [bar 8 100]).
Proof.
  apply appends_commute.
  - apply perm_swap.
  - repeat constructor; simpl; intuition discriminate.
Defined.

(** ** [db.py]: a row that was appended is read back *)

Lemma insert_latest (s : Store) (row : Row) :
  (forall r, In r s -> timestamp r < timestamp row) ->
  insert_if_absent s row = s ++ [row].
Proof.
  intros Hlt. unfold insert_if_absent.
  destruct (exists_timestamp s (timestamp row)) eqn:E; [|reflexivity].
  apply exists_timestamp_iff, in_map_iff in E.
  destruct E as (r & Hr & Hin). specialize (Hlt r Hin). lia.
Qed.

(** X12. After a bar later than every stored bar is appended, the
    coverage maximum is its timestamp, a tail read of one row ending
    after it returns exactly that bar, and tail reads ending at its
    timestamp return what they returned before. *)
Theorem appended_bar_is_read_back (w : World) (row : Row) :
  (forall r, In r (db w) -> timestamp r < timestamp row) ->
  exists w1,
    append_row_if_absent row w = (Returned tt, w1)
    /\ db w1 = db w ++ [row]
    /\ (exists mn cnt,
          fst (coverage_stats w1) = Returned (Some (mn, timestamp row, cnt)))
    /\ fst (read_last_n_rows_ending_before 1 (timestamp row + 1) w1)
       = Returned [row]
    /\ (forall n,
          fst (read_last_n_rows_ending_before n (timestamp row) w1)
          = fst (read_last_n_rows_ending_before n (timestamp row) w)).
Proof.
  intros Hlt. unfold append_row_if_absent. run_monad.
  rewrite (insert_latest _ _ Hlt).
  eexists. split; [reflexivity|]. cbn [db]. split; [reflexivity|].
  set (s1 := db w ++ [row]).
  assert (Hle : forall r, In r s1 -> timestamp r <= timestamp row).
  { intros r Hr. apply in_app_or in Hr. destruct Hr as [Hr|[<-|[]]]; [|lia].
    specialize (Hlt r Hr). lia. }
  split.
  { unfold coverage_stats. run_monad.
    destruct (coverage s1) as [[[mn mx] cnt]|] eqn:Hcov.
    - exists mn, cnt. repeat f_equal.
      destruct (coverage_bounds s1) as [_ H].
      destruct (H mn mx cnt Hcov) as (_ & _ & Hmx & Hb).
      apply in_map_iff in Hmx. destruct Hmx as (r & <- & Hr).
      specialize (Hle r Hr).
      assert (Hrow : In row s1) by (apply in_or_app; right; now left).
      specialize (Hb row Hrow). lia.
    - exfalso. subst s1. destruct (db w); discriminate. }
  split.
  { unfold read_last_n_rows_ending_before. run_monad.
    destruct (select_last_n_before_latest s1 1 (timestamp row + 1))
      as (df & older & Hsel & _ & Hperm & Hlen & Hbefore & Hlatest); [lia|].
    rewrite Hsel. cbn [fst]. f_equal.
    assert (Hall : filter (fun r => timestamp r <? timestamp row + 1) s1 = s1).
    { apply filter_all. intros r Hr. apply Z.ltb_lt. specialize (Hle r Hr). lia. }
    rewrite Hall in Hperm, Hlen.
    assert (Hone : List.length df = 1%nat).
    { rewrite Hlen. subst s1. rewrite length_app. cbn [List.length].
      change (Z.to_nat 1) with 1%nat. lia. }
    destruct df as [|r' [|? ?]]; try discriminate. f_equal.
    assert (Hr' : In r' s1).
    { eapply Permutation_in; [apply Permutation_sym, Hperm|].
      apply in_or_app. right. now left. }
    assert (Hrow : In row (older ++ [r'])).
    { eapply Permutation_in; [apply Hperm|].
      apply in_or_app. right. now left. }
    apply in_app_or in Hr'. destruct Hr' as [Hr'|[E|[]]]; [|now symmetry].
    exfalso. specialize (Hlt r' Hr').
    apply in_app_or in Hrow. destruct Hrow as [Ho|[E|[]]].
    - specialize (Hlatest row r' Ho (or_introl eq_refl)). lia.
    - subst r'. lia. }
  intros n. unfold read_last_n_rows_ending_before. run_monad.
  unfold select_last_n_before. subst s1. rewrite filter_app. simpl.
  rewrite Z.ltb_irrefl, app_nil_r.
  destruct (n <? 0); reflexivity.
Qed.

Lemma appended_bar_is_read_back_witness :
  exists w1,
    append_row_if_absent (bar 10 120) (mkWorld [bar 8 100; bar 9 110] [])
    = (Returned tt, w1)
    /\ fst (read_last_n_rows_ending_before 1 (at_hour 10 + 1) w1)
       = Returned [bar 10 120].
Proof.
  destruct (appended_bar_is_read_back (mkWorld [bar 8 100; bar 9 110] [])
              (bar 10 120)) as (w1 & H1 & _ & _ & H2 & _).
  - intros r [<-|[<-|[]]]; vm_compute; reflexivity.
  - exists w1. split; [exact H1|exact H2].
Defined.

(** ** [api.py] *)

Lemma sorted_by_key_unique {A} (key : A -> Z) (l l' : list A) :
  Permutation l l' ->
  StronglySorted (fun x y => key x < key y) l ->
  StronglySorted (fun x y => key x <= key y) l' ->
  l = l'.
Proof.
  revert l'. induction l as [|x l IH]; intros l' Hp Hs Hs'.
  - apply Permutation_nil in Hp. now subst.
  - destruct l' as [|y l'].
    { apply Permutation_sym, Permutation_nil in Hp. discriminate. }
    inversion Hs as [|? ? Hs1 Hall]; inversion Hs' as [|? ? Hs1' Hall']; subst.
    assert (Hxy : x = y).
    { assert (Hy : In y (x :: l))
        by (eapply Permutation_in; [apply Permutation_sym, Hp|now left]).
      assert (Hx : In x (y :: l'))
        by (eapply Permutation_in; [apply Hp|now left]).
      rewrite Forall_forall in Hall, Hall'.
      destruct Hy as [Hy|Hy]; [auto|].
      destruct Hx as [Hx|Hx]; [auto|].
      specialize (Hall _ Hy). specialize (Hall' _ Hx). lia. }
    subst y. f_equal. apply IH; auto.
    eapply Permutation_cons_inv; eauto.
Qed.

Lemma ApiRowSort_sorted (l : list ApiRow) :
  StronglySorted
    (fun x y => timestamp (candle x) <= timestamp (candle y))
    (ApiRowSort.sort l).
Proof.
  assert (T : Transitive (fun x y => is_true (ApiRowOrder.leb x y))).
  { intros x y z. unfold ApiRowOrder.leb, is_true. rewrite !Z.leb_le. lia. }
  pose proof (ApiRowSort.StronglySorted_sort l T) as S. clear T.
  induction S as [|x s Hs IH Hall]; constructor; auto.
  eapply Forall_impl; [|exact Hall]. intros y Hy. now apply Z.leb_le.
Qed.

Lemma sorted_map_inv {A} (key : A -> Z) (R : Z -> Z -> Prop) (l : list A) :
  StronglySorted R (map key l) -> StronglySorted (fun x y => R (key x) (key y)) l.
Proof.
  induction l as [|x l IH]; simpl; intros H; [constructor|].
  inversion H as [|? ? Hs Hall]; subst. constructor; auto.
  apply Forall_forall. intros y Hy. rewrite Forall_forall in Hall.
  apply Hall. now apply in_map.
Qed.

(** X13. [klines_to_dataframe] keeps every kline and only reorders them:
    its rows are the klines' rows in ascending order of open time, and a
    response that already is in strictly ascending order comes out as it
    is. The [_close_time] column is there unless the response is empty. *)
Theorem klines_to_dataframe_sorts (klines : list Kline) :
  let df := klines_to_dataframe klines in
  Permutation (map kline_row klines) (rows df)
  /\ StronglySorted Z.le (map (fun r => timestamp (candle r)) (rows df))
  /\ has_close_time df = negb (empty klines)
  /\ (StronglySorted Z.lt (map open_time_ms klines) ->
      rows df = map kline_row klines).
Proof.
  unfold klines_to_dataframe. destruct klines as [|k klines].
  - cbn. repeat split; auto; constructor.
  - cbn [empty rows has_close_time negb]. split; [apply ApiRowSort.Permuted_sort|].
    split; [apply StronglySorted_map, ApiRowSort_sorted|].
    split; [reflexivity|].
    intros Hs. symmetry.
    apply (sorted_by_key_unique (fun r => timestamp (candle r))).
    + apply ApiRowSort.Permuted_sort.
    + apply sorted_map_inv. rewrite map_map. exact Hs.
    + apply ApiRowSort_sorted.
Qed.

(** X14. [compute_target_hour] returns the hour boundary at or before
    [now] and the boundary one hour earlier; on a boundary it returns that
    boundary. A bar whose close time is the last millisecond of its hour
    passes the closed filter of [run_once] exactly when it opens at or
    before the target hour. *)
Theorem target_hour_is_the_last_closed_hour (now : Z) :
  let now_floor := fst (compute_target_hour now) in
  let target_hour := snd (compute_target_hour now) in
  now_floor <= now < now_floor + HOUR
  /\ now_floor mod HOUR = 0
  /\ target_hour = now_floor - HOUR
  /\ compute_target_hour now_floor = (now_floor, target_hour)
  /\ (forall r : ApiRow,
        _close_time r = timestamp (candle r) + HOUR - 1 ->
        (_close_time r <=? now_floor - 1) = (timestamp (candle r) <=? target_hour)).
Proof.
  unfold compute_target_hour. cbn [fst snd].
  assert (H : 0 < HOUR) by (unfold HOUR; lia).
  pose proof (Z.mod_pos_bound now HOUR H) as Hm.
  pose proof (Z.div_mod now HOUR) as Hd.
  split; [lia|]. split; [apply Z.mod_mul; lia|]. split; [reflexivity|].
  split.
  - rewrite Z.div_mul by lia. reflexivity.
  - intros r Hr. rewrite Hr.
    destruct (Z.leb_spec (timestamp (candle r) + HOUR - 1) (now / HOUR * HOUR - 1)),
             (Z.leb_spec (timestamp (candle r)) (now / HOUR * HOUR - HOUR));
      auto; lia.
Qed.

(** ** What a run may do to the table *)

Section RunSpec.

Variable R : Store -> Store -> Prop.
Hypothesis R_refl : forall s, R s s.
Hypothesis R_trans : forall s1 s2 s3, R s1 s2 -> R s2 s3 -> R s1 s3.

Lemma spec_ret {A} (a : A) : run_spec R (fun x => x = a) (ret a).
Proof. intros w. split; [apply R_refl|]. intros x [= <-]. reflexivity. Qed.

Lemma spec_raise {A} (P : A -> Prop) e : run_spec R P (raise e).
Proof. intros w. split; [apply R_refl|]. intros x H. discriminate. Qed.

Lemma spec_weaken {A} (P Q : A -> Prop) (m : M A) :
  run_spec R P m -> (forall a, P a -> Q a) -> run_spec R Q m.
Proof.
  intros Hm HPQ w. destruct (Hm w) as [H1 H2]. split; auto.
Qed.

Lemma spec_bind {A B} (P : A -> Prop) (Q : B -> Prop) (m : M A) (k : A -> M B) :
  run_spec R P m -> (forall a, P a -> run_spec R Q (k a)) ->
  run_spec R Q (bind m k).
Proof.
  intros Hm Hk w. destruct (Hm w) as [H1 H2]. unfold bind.
  destruct (m w) as [[a|e] w1]; cbn [fst snd] in *.
  - destruct (Hk a (H2 a eq_refl) w1) as [H3 H4]. split; [|exact H4].
    eapply R_trans; eauto.
  - split; [exact H1|]. intros b H. discriminate.
Qed.

Lemma spec_emit e : run_spec R (fun _ => True) (emit e).
Proof. intros w. split; [apply R_refl|auto]. Qed.

Lemma spec_get_db : run_spec R (fun _ => True) get_db.
Proof. intros w. split; [apply R_refl|auto]. Qed.

Lemma spec_when c e : run_spec R (fun _ => True) (when c (emit e)).
Proof.
  destruct c; [apply spec_emit|].
  intros w. split; [apply R_refl|auto].
Qed.

Lemma spec_local {A} name (x : option A) :
  run_spec R (fun a => x = Some a) (local name x).
Proof.
  destruct x as [a|]; intros w; (split; [apply R_refl|]).
  - intros a' [= <-]. reflexivity.
  - intros a' H. discriminate.
Qed.

Lemma spec_iloc {A} (df : list A) i : run_spec R (fun a => In a df) (iloc df i).
Proof.
  intros w. split; [unfold iloc; destruct (nth_error df i); apply R_refl|].
  unfold iloc. destruct (nth_error df i) as [a|] eqn:E; intros a' H;
    [|discriminate].
  injection H as <-. eapply nth_error_In; eauto.
Qed.

Lemma spec_iloc_last {A} (df : list A) :
  run_spec R (fun a => In a df) (iloc_last df).
Proof.
  intros w. unfold iloc_last.
  destruct (rev df) as [|a l] eqn:E; (split; [apply R_refl|]);
    intros a' H; [discriminate|].
  injection H as <-. apply in_rev. rewrite E. now left.
Qed.

Lemma spec_for_each {A} (xs : list A) (body : A -> M unit) :
  (forall x, In x xs -> run_spec R (fun _ => True) (body x)) ->
  run_spec R (fun _ => True) (for_each xs body).
Proof.
  induction xs as [|x xs IH]; intros H; cbn [for_each].
  - eapply spec_weaken; [apply spec_ret|auto].
  - eapply spec_bind; [apply H; now left|].
    intros _ _. apply IH. intros y Hy. apply H. now right.
Qed.

Lemma spec_read n t :
  run_spec R (fun _ => True) (read_last_n_rows_ending_before n t).
Proof.
  unfold read_last_n_rows_ending_before.
  eapply spec_bind; [apply spec_emit|]. intros _ _.
  eapply spec_bind; [apply spec_get_db|]. intros s _.
  destruct (select_last_n_before s n t);
    [eapply spec_weaken; [apply spec_ret|auto]|apply spec_raise].
Qed.

Lemma spec_coverage_stats : run_spec R (fun _ => True) coverage_stats.
Proof.
  unfold coverage_stats.
  eapply spec_bind; [apply spec_emit|]. intros _ _.
  eapply spec_bind; [apply spec_get_db|]. intros s _.
  eapply spec_weaken; [apply spec_ret|auto].
Qed.

Lemma spec_call_validate api db_df t :
  run_spec R (fun _ => True) (call_validate api db_df t).
Proof.
  unfold call_validate.
  eapply spec_bind; [apply spec_emit|]. intros _ _.
  eapply spec_weaken; [apply spec_ret|auto].
Qed.

Lemma spec_print_stats_and_exit pulled t l :
  run_spec R (fun _ => True) (print_stats_and_exit pulled t l).
Proof.
  unfold print_stats_and_exit.
  eapply spec_bind; [apply spec_local|]. intros v1 _.
  eapply spec_bind with (P := fun _ => True).
  { destruct (ok v1).
    - eapply spec_bind; [apply spec_local|]. intros v2 _.
      eapply spec_weaken; [apply spec_ret|auto].
    - eapply spec_weaken; [apply spec_ret|auto]. }
  intros validated _.
  eapply spec_bind; [apply spec_emit|]. intros _ _.
  eapply spec_bind; [apply spec_local|]. intros v2 _.
  destruct (ok v2); [eapply spec_weaken; [apply spec_ret|auto]|].
  eapply spec_bind; [apply spec_local|]. intros b _.
  eapply spec_weaken; [apply spec_ret|auto].
Qed.

(** The only writes of [run_once] are calls of [append_row_if_absent]
    on rows of the closed window, and none under [--dry-run]. *)
Lemma run_once_writes_through_append cfg now klines :
  (dry_run cfg = false ->
   forall row, In row (closed_window now klines) ->
               run_spec R (fun _ => True) (append_row_if_absent row)) ->
  run_spec R (fun _ => True) (run_once cfg now klines).
Proof.
  intros Happend.
  assert (Hrow : forall row, In row (closed_window now klines) ->
            run_spec R (fun _ => True)
              (if dry_run cfg then
                 when (debug cfg) (emit (print (DRY_RUN_would_append row)))
               else append_row_if_absent row)).
  { intros row Hin. destruct (dry_run cfg) eqn:Hdry;
      [apply spec_when|now apply Happend]. }
  clear Happend.
  unfold run_once, closed_window in *. unfold compute_target_hour in *.
  cbn [fst snd] in *.
  set (closed_df := closed_candles (klines_to_dataframe klines) (now / HOUR * HOUR)) in *.
  eapply spec_bind; [unfold ensure_table; apply spec_ret|]. intros _ _.
  destruct (negb (has_close_time (klines_to_dataframe klines))).
  { eapply spec_bind; [apply spec_emit|]. intros _ _.
    eapply spec_weaken; [apply spec_ret|auto]. }
  destruct (empty closed_df).
  { eapply spec_bind; [apply spec_emit|]. intros _ _.
    eapply spec_weaken; [apply spec_ret|auto]. }
  eapply spec_bind; [apply spec_iloc_last|]. intros last_closed _.
  destruct (negb (timestamp last_closed =? now / HOUR * HOUR - HOUR)).
  { eapply spec_bind; [apply spec_emit|]. intros _ _.
    eapply spec_weaken; [apply spec_ret|auto]. }
  eapply spec_bind; [apply spec_emit|]. intros _ _.
  eapply spec_bind with (P := fun _ => True).
  2:{ intros [code|l] _; [eapply spec_weaken; [apply spec_ret|auto]|].
      apply spec_print_stats_and_exit. }
  destruct (catch_up cfg).
  - (* catch-up *)
    unfold catch_up_branch.
    eapply spec_bind; [apply spec_coverage_stats|]. intros cov _.
    eapply spec_bind
      with (P := fun r : Z + DataFrame * option ValidationResult =>
                   match r with
                   | inl _ => True
                   | inr (to_append, _) => incl to_append closed_df
                   end).
    + destruct cov as [[[mn mx] cnt]|].
      * destruct (empty (api_overlap closed_df mx)).
        { eapply spec_bind; [apply spec_emit|]. intros _ _.
          eapply spec_weaken; [apply spec_ret|]. intros a ->. exact I. }
        eapply spec_bind; [apply spec_iloc_last|]. intros last_o _.
        eapply spec_bind; [apply spec_read|]. intros db_hist _.
        eapply spec_bind; [apply spec_call_validate|]. intros res _.
        destruct (negb (ok res)).
        { eapply spec_bind; [apply spec_emit|]. intros _ _.
          eapply spec_weaken; [apply spec_ret|]. intros a ->. exact I. }
        eapply spec_weaken; [apply spec_ret|]. intros a ->.
        intros r Hr. apply filter_In in Hr. tauto.
      * eapply spec_weaken; [apply spec_ret|]. intros a ->.
        apply incl_refl.
    + intros [code|[to_append v_local]] Hr.
      { eapply spec_weaken; [apply spec_ret|auto]. }
      destruct (empty to_append).
      { eapply spec_bind; [apply spec_when|]. intros _ _.
        eapply spec_weaken; [apply spec_ret|auto]. }
      eapply spec_bind with (P := fun _ => True).
      2:{ intros n _. eapply spec_weaken; [apply spec_ret|auto]. }
      unfold append_all.
      eapply spec_bind; [|intros _ _; eapply spec_weaken; [apply spec_ret|auto]].
      apply spec_for_each. intros row Hin. apply Hrow. now apply Hr.
  - (* single bar *)
    unfold single_bar_branch.
    eapply spec_bind; [apply spec_read|]. intros db_window _.
    eapply spec_bind; [apply spec_call_validate|]. intros res _.
    eapply spec_bind; [apply spec_when|]. intros _ _.
    destruct (ok res || _).
    + eapply spec_bind; [apply spec_iloc|]. intros row_t Hin.
      eapply spec_bind with (P := fun _ => True).
      * apply Hrow. unfold tail in Hin.
        rewrite <- (firstn_skipn (List.length closed_df - 1) closed_df).
        apply in_or_app. now right.
      * intros _ _. eapply spec_weaken; [apply spec_ret|auto].
    + eapply spec_bind; [apply spec_emit|]. intros _ _.
      eapply spec_weaken; [apply spec_ret|auto].
Qed.

End RunSpec.

Lemma main_db cfg now klines w :
  db (snd (main cfg now klines w)) = db (snd (run_once cfg now klines w)).
Proof.
  unfold main. destruct (run_once cfg now klines w) as [[code|e] w'];
    [reflexivity|].
  unfold emit. destruct (debug cfg); reflexivity.
Qed.

(** X15. Under [--dry-run] neither [run_once] nor [main] changes the
    table, whatever the fetch, the clock and the mode are, and also when
    the run ends with an exception. *)
Theorem dry_run_never_writes cfg now klines (w : World) :
  dry_run cfg = true ->
  db (snd (run_once cfg now klines w)) = db w
  /\ db (snd (main cfg now klines w)) = db w.
Proof.
  intros Hdry.
  assert (H : db (snd (run_once cfg now klines w)) = db w).
  { symmetry.
    apply (run_once_writes_through_append eq (@eq_refl _) (@eq_trans _)
             cfg now klines).
    intros Hf. congruence. }
  split; [exact H|]. rewrite main_db. exact H.
Qed.

(** Stored 08:00 and 09:00, fetched 08:00..11:00 at 12:00, catch-up with
    [--dry-run]: the two new bars are not written. *)
Lemma dry_run_never_writes_witness :
  let cfg := mkRunConfig 4 true false true in
  let klines := [make_k 8 100; make_k 9 110; make_k 10 120; make_k 11 130] in
  let w := mkWorld [bar 8 100; bar 9 110] [] in
  fst (run_once cfg (at_hour 12) klines w) = Returned 0
  /\ db (snd (run_once cfg (at_hour 12) klines w)) = [bar 8 100; bar 9 110]
  /\ db (snd (main cfg (at_hour 12) klines w)) = [bar 8 100; bar 9 110].
Proof.
  intros cfg klines w.
  split; [vm_compute; reflexivity|].
  exact (dry_run_never_writes cfg (at_hour 12) klines w eq_refl).
Defined.

Lemma grows_by_refl source s : grows_by source s s.
Proof.
  exists []. rewrite app_nil_r. split; [reflexivity|].
  split; [intros r []|auto].
Qed.

Lemma grows_by_trans source s1 s2 s3 :
  grows_by source s1 s2 -> grows_by source s2 s3 -> grows_by source s1 s3.
Proof.
  intros (a1 & -> & Hin1 & Hu1) (a2 & -> & Hin2 & Hu2).
  exists (a1 ++ a2). rewrite app_assoc. split; [reflexivity|].
  split; [apply incl_app; assumption|auto].
Qed.

Lemma append_row_if_absent_grows source row :
  In row source ->
  run_spec (grows_by source) (fun _ => True) (append_row_if_absent row).
Proof.
  intros Hin w. split; [|auto].
  unfold append_row_if_absent. run_monad.
  pose proof (insert_if_absent_unique (db w) row) as Hu.
  unfold insert_if_absent in *.
  destruct (exists_timestamp (db w) (timestamp row)).
  - apply grows_by_refl.
  - exists [row]. split; [reflexivity|]. split; [|exact Hu].
    intros r [<-|[]]. exact Hin.
Qed.

(** X16. Whatever a run does, the table it leaves is the table it found
    followed by rows of the closed window of the fetch, and it keeps the
    unique index on the timestamp; no stored row is changed, removed or
    moved. *)
Theorem run_only_appends_closed_bars cfg now klines (w : World) :
  let after := db (snd (main cfg now klines w)) in
  exists added,
    after = db w ++ added
    /\ incl added (closed_window now klines)
    /\ (unique_index (db w) -> unique_index after).
Proof.
  intros after. subst after. rewrite main_db.
  apply (run_once_writes_through_append (grows_by (closed_window now klines))
           (grows_by_refl _) (grows_by_trans _) cfg now klines).
  intros _ row Hin. now apply append_row_if_absent_grows.
Qed.

(** ** Runs that stop before the table is read *)

Lemma run_once_rejects cfg now klines (w : World) :
  (closed_window now klines = []
   \/ exists init row_t,
        closed_window now klines = init ++ [row_t]
        /\ timestamp row_t <> target_of now) ->
  exists msg,
    run_once cfg now klines w
    = (Returned 2, mkWorld (db w) (trace w ++ [print msg])).
Proof.
  intros H. unfold run_once, closed_window, target_of in *.
  unfold compute_target_hour in *. cbn [fst snd] in *.
  unfold ensure_table. unfold bind at 1. cbn [ret].
  destruct (negb (has_close_time (klines_to_dataframe klines))).
  { eexists. run_monad. reflexivity. }
  destruct H as [-> | (init & row_t & -> & Hts)].
  { eexists. cbn [empty]. run_monad. reflexivity. }
  replace (empty (init ++ [row_t])) with false
    by (destruct init; reflexivity).
  unfold bind at 1. rewrite iloc_last_snoc.
  apply Z.eqb_neq in Hts. rewrite Hts. cbn [negb].
  eexists. run_monad. reflexivity.
Qed.

(** X17. A fetch without a closed candle, or whose last closed candle is
    not the target hour, ends the run with exit code 2 after one error
    line: no snapshot is written and the table is neither read nor
    changed. *)
Theorem rejected_fetch_exits_2 cfg now klines (w : World) :
  (closed_window now klines = []
   \/ exists init row_t,
        closed_window now klines = init ++ [row_t]
        /\ timestamp row_t <> target_of now) ->
  exists msg,
    run_once cfg now klines w
    = (Returned 2, mkWorld (db w) (trace w ++ [print msg])).
Proof. exact (run_once_rejects cfg now klines w). Qed.

(** An empty fetch, and a fetch at 12:30 whose last closed candle is
    09:00. *)
Lemma rejected_fetch_exits_2_witness :
  let cfg := mkRunConfig 3 false false false in
  let w := mkWorld [bar 8 100] [] in
  (exists msg,
     run_once cfg (at_hour 12) [] w
     = (Returned 2, mkWorld (db w) (trace w ++ [print msg])))
  /\ (exists msg,
       run_once cfg (at_hour 12 + 1800000) [make_k 8 100; make_k 9 110] w
       = (Returned 2, mkWorld (db w) (trace w ++ [print msg]))).
Proof.
  intros cfg w. split.
  - apply (rejected_fetch_exits_2 cfg (at_hour 12) [] w).
    left. reflexivity.
  - apply (rejected_fetch_exits_2 cfg (at_hour 12 + 1800000)
             [make_k 8 100; make_k 9 110] w).
    right. exists [bar 8 100], (bar 9 110). split; [reflexivity|].
    vm_compute. discriminate.
Defined.

(** ** Single-bar mode *)

Lemma print_stats_and_exit_bound pulled target res b n (w : World) :
  print_stats_and_exit pulled target (mkLocals (Some res) (Some b) n) w
  = (Returned (if ok res || b then 0 else 1),
     mkWorld (db w)
       (trace w ++ [print (stats pulled (if ok res then validated_rows res else 0)
                             n target)])).
Proof.
  unfold print_stats_and_exit. cbn [v allow_bootstrap appended].
  run_monad. destruct (ok res) eqn:E; run_monad; rewrite ?E; cbn [orb];
    [reflexivity|].
  destruct b; reflexivity.
Qed.

Lemma dry_or_append cfg row (w : World) :
  exists more,
    (if dry_run cfg then
       when (debug cfg) (emit (print (DRY_RUN_would_append row)))
     else append_row_if_absent row) w
    = (Returned tt,
       mkWorld (if negb (dry_run cfg) then insert_if_absent (db w) row else db w)
               (trace w ++ more))
    /\ appends more = (if negb (dry_run cfg) then [row] else []).
Proof.
  destruct (dry_run cfg); cbn [negb].
  - rewrite when_emit. eexists. split; [reflexivity|].
    destruct (debug cfg); reflexivity.
  - unfold append_row_if_absent. run_monad. eexists.
    split; reflexivity.
Qed.

Lemma single_bar_branch_run cfg init row_t target (w : World) db_window :
  select_last_n_before (db w) (n_recent cfg - 1) target = Some db_window ->
  let res := validate_window (init ++ [row_t]) db_window target
               default_tolerance in
  let bootstrap := negb (ok res) && (List.length db_window =? 0)%nat in
  let accepted := ok res || bootstrap in
  let written := accepted && negb (dry_run cfg) in
  exists more,
    single_bar_branch cfg (init ++ [row_t]) target w
    = (Returned (inr (mkLocals (Some res) (Some bootstrap)
                        (if accepted then 1 else 0))),
       mkWorld (if written then insert_if_absent (db w) row_t else db w)
               (trace w ++ more))
    /\ appends more = (if written then [row_t] else []).
Proof.
  intros Hsel res bootstrap accepted written.
  unfold single_bar_branch, read_last_n_rows_ending_before, call_validate.
  unfold bind at 1. unfold bind at 1. unfold emit at 1.
  unfold bind at 1. unfold get_db at 1. cbn [db]. rewrite Hsel.
  unfold ret at 1. unfold bind at 1. unfold bind at 1. unfold emit at 1.
  unfold ret at 1. cbn [db trace]. fold res. fold bootstrap.
  unfold bind at 1. rewrite when_emit. cbn [db trace].
  fold accepted. subst written. destruct accepted; cbn [andb].
  - rewrite tail_one_snoc. unfold bind at 1. unfold iloc at 1.
    cbn [nth_error]. unfold ret at 1. unfold bind at 1.
    match goal with
    | |- context [(if dry_run cfg then _ else _) ?w1] =>
        destruct (dry_or_append cfg row_t w1) as (more & -> & Happ)
    end.
    cbn [db trace]. unfold ret. eexists. split.
    + rewrite <- !app_assoc. reflexivity.
    + rewrite !appends_app, Happ.
      destruct (bootstrap && debug cfg); reflexivity.
  - unfold bind at 1. unfold emit at 1. unfold ret. cbn [db trace].
    eexists. split.
    + rewrite <- !app_assoc. reflexivity.
    + rewrite !appends_app. destruct (bootstrap && debug cfg); reflexivity.
Qed.

Lemma run_once_single_bar cfg now klines init row_t (w : World) db_window :
  catch_up cfg = false ->
  closed_window now klines = init ++ [row_t] ->
  timestamp row_t = target_of now ->
  select_last_n_before (db w) (n_recent cfg - 1) (target_of now)
    = Some db_window ->
  let res := validate_window (closed_window now klines) db_window
               (target_of now) default_tolerance in
  let bootstrap := negb (ok res) && (List.length db_window =? 0)%nat in
  let accepted := ok res || bootstrap in
  let written := accepted && negb (dry_run cfg) in
  exists more,
    run_once cfg now klines w
    = (Returned (if accepted then 0 else 1),
       mkWorld (if written then insert_if_absent (db w) row_t else db w)
               (trace w ++ more))
    /\ appends more = (if written then [row_t] else []).
Proof.
  intros Hcu Hclosed Hts Hsel. rewrite Hclosed.
  intros res bootstrap accepted written.
  rewrite (run_once_accepts cfg now klines init row_t w Hclosed Hts).
  rewrite Hcu. unfold bind at 1. unfold emit at 1. unfold bind at 1.
  match goal with
  | |- context [single_bar_branch cfg _ _ ?w1] =>
      destruct (single_bar_branch_run cfg init row_t (target_of now) w1
                  db_window Hsel) as (more & Hrun & Happ)
  end.
  rewrite Hrun. rewrite print_stats_and_exit_bound. cbn [db trace].
  fold res. fold bootstrap. fold accepted. fold written.
  eexists. split.
  - rewrite <- !app_assoc. reflexivity.
  - rewrite !appends_app. fold res bootstrap accepted written in Happ.
    rewrite Happ. cbn [appends app]. rewrite app_nil_r.
    destruct accepted; reflexivity.
Qed.

(** X18. Single-bar mode on an accepted fetch: the stored tail of
    [n_recent - 1] rows before the target hour is read and the closed
    window validated against it. The target bar is appended when the
    validation passes, or when it fails on an empty tail (bootstrap);
    the exit code is then 0. Otherwise nothing is written and the exit
    code is 1. Under [--dry-run] the exit code is the same and nothing is
    written. *)
Theorem single_bar_run cfg now klines init row_t (w : World) db_window :
  catch_up cfg = false ->
  closed_window now klines = init ++ [row_t] ->
  timestamp row_t = target_of now ->
  select_last_n_before (db w) (n_recent cfg - 1) (target_of now)
    = Some db_window ->
  let res := validate_window (closed_window now klines) db_window
               (target_of now) default_tolerance in
  let bootstrap := negb (ok res) && (List.length db_window =? 0)%nat in
  let accepted := ok res || bootstrap in
  let written := accepted && negb (dry_run cfg) in
  exists more,
    run_once cfg now klines w
    = (Returned (if accepted then 0 else 1),
       mkWorld (if written then insert_if_absent (db w) row_t else db w)
               (trace w ++ more))
    /\ appends more = (if written then [row_t] else []).
Proof.
  exact (run_once_single_bar cfg now klines init row_t w db_window).
Qed.

(** Stored 08:00 and 09:00, fetched 08:00..10:00 at 11:00 with
    [n_recent = 3]: the window validates and 10:00 is appended. *)
Lemma single_bar_run_witness :
  let cfg := mkRunConfig 3 false false false in
  let klines := [make_k 8 100; make_k 9 110; make_k 10 120] in
  let w := mkWorld [bar 8 100; bar 9 110] [] in
  exists more,
    run_once cfg (at_hour 11) klines w
    = (Returned 0,
       mkWorld [bar 8 100; bar 9 110; bar 10 120] (trace w ++ more))
    /\ appends more = [bar 10 120].
Proof.
  intros cfg klines w.
  assert (Hok : ok (validate_window (closed_window (at_hour 11) klines)
                      [bar 8 100; bar 9 110] (target_of (at_hour 11))
                      default_tolerance) = true).
  { vm_compute. reflexivity. }
  pose proof (single_bar_run cfg (at_hour 11) klines
                [bar 8 100; bar 9 110] (bar 10 120) w [bar 8 100; bar 9 110]
                eq_refl eq_refl eq_refl eq_refl) as H.
  cbv zeta in H. rewrite Hok in H. exact H.
Defined.

(** ** Catch-up mode without a common bar *)

Lemma run_once_catch_up_no_overlap cfg now klines init row_t (w : World)
    mn mx cnt :
  catch_up cfg = true ->
  closed_window now klines = init ++ [row_t] ->
  timestamp row_t = target_of now ->
  coverage (db w) = Some (mn, mx, cnt) ->
  api_overlap (closed_window now klines) mx = [] ->
  run_once cfg now klines w
  = (Returned 2,
     mkWorld (db w)
       (trace w ++ [write_raw_snapshot (rows (klines_to_dataframe klines));
                    call_coverage_stats; print ERROR_no_overlap])).
Proof.
  intros Hcu Hclosed Hts Hcov Hov.
  rewrite (run_once_accepts cfg now klines init row_t w Hclosed Hts).
  rewrite Hcu, <- Hclosed. unfold catch_up_branch, coverage_stats.
  run_monad. rewrite Hcov, Hov. cbn [empty]. run_monad.
  rewrite <- !app_assoc. reflexivity.
Qed.

(** Catch-up on an empty table binds neither [v] nor
    [allow_bootstrap]: the stats line raises. *)
Lemma run_once_catch_up_empty_table cfg now klines init row_t (w : World) :
  catch_up cfg = true ->
  closed_window now klines = init ++ [row_t] ->
  timestamp row_t = target_of now ->
  coverage (db w) = None ->
  fst (run_once cfg now klines w) = Raised (UnboundLocalError "v").
Proof.
  intros Hcu Hclosed Hts Hcov.
  rewrite (run_once_accepts cfg now klines init row_t w Hclosed Hts).
  rewrite Hcu. unfold catch_up_branch, coverage_stats.
  unfold bind at 1. unfold emit at 1. unfold bind at 1. unfold bind at 1.
  unfold bind at 1. unfold emit at 1. unfold bind at 1. unfold get_db at 1.
  cbn [db]. rewrite Hcov. unfold ret at 1. unfold bind at 1. unfold ret at 1.
  replace (empty (init ++ [row_t])) with false
    by (destruct init; reflexivity).
  unfold bind at 1.
  match goal with
  | |- context [append_all cfg ?l ?w1] =>
      destruct (append_all_returns cfg l w1) as (more & s' & -> & _)
  end.
  unfold ret at 1. reflexivity.
Qed.

(** X19. In catch-up mode a fetch whose closed candles are all later
    than the newest stored bar is refused, also when it starts at the
    very next hour: exit code 2 after the snapshot, the coverage query
    and one error line; nothing is validated and nothing is written. *)
Theorem catch_up_needs_a_common_bar cfg now klines init row_t (w : World)
    mn mx cnt :
  catch_up cfg = true ->
  closed_window now klines = init ++ [row_t] ->
  timestamp row_t = target_of now ->
  coverage (db w) = Some (mn, mx, cnt) ->
  (forall r, In r (closed_window now klines) -> mx < timestamp r) ->
  run_once cfg now klines w
  = (Returned 2,
     mkWorld (db w)
       (trace w ++ [write_raw_snapshot (rows (klines_to_dataframe klines));
                    call_coverage_stats; print ERROR_no_overlap])).
Proof.
  intros Hcu Hclosed Hts Hcov Hlater.
  apply (run_once_catch_up_no_overlap cfg now klines init row_t w mn mx cnt);
    try assumption.
  unfold api_overlap. apply filter_none. intros r Hr.
  apply Z.leb_gt. now apply Hlater.
Qed.

(** Stored 08:00 and 09:00, fetched 10:00 and 11:00 at 12:00. *)
Lemma catch_up_needs_a_common_bar_witness :
  let cfg := mkRunConfig 4 false false true in
  let klines := [make_k 10 120; make_k 11 130] in
  let w := mkWorld [bar 8 100; bar 9 110] [] in
  run_once cfg (at_hour 12) klines w
  = (Returned 2,
     mkWorld [bar 8 100; bar 9 110]
       [write_raw_snapshot (rows (klines_to_dataframe klines));
        call_coverage_stats; print ERROR_no_overlap]).
Proof.
  intros cfg klines w.
  apply (catch_up_needs_a_common_bar cfg (at_hour 12) klines
           [bar 10 120] (bar 11 130) w (at_hour 8) (at_hour 9) 2
           eq_refl eq_refl eq_refl eq_refl).
  intros r [<-|[<-|[]]]; vm_compute; reflexivity.
Defined.

(** ** Exit codes and the table *)

(** X20. A run that returns a non-zero exit code has left the table as
    it found it and has called [append_row_if_absent] not once; the code
    is then 1 or 2, and 1 only in single-bar mode. *)
Theorem failed_run_leaves_the_table cfg now klines (w w' : World) code :
  run_once cfg now klines w = (Returned code, w') ->
  code <> 0 ->
  db w' = db w
  /\ appends (trace w') = appends (trace w)
  /\ (code = 2 \/ code = 1 /\ catch_up cfg = false).
Proof.
  intros Hrun Hcode.
  destruct (closed_window now klines) as [|r0 l0] eqn:Hclosed.
  { destruct (run_once_rejects cfg now klines w) as (msg & E);
      [left; exact Hclosed|].
    rewrite E in Hrun. injection Hrun as <- <-. cbn [db trace].
    rewrite appends_app. cbn [appends]. rewrite app_nil_r. auto. }
  destruct (@exists_last _ (r0 :: l0)) as (init & row_t & Hsnoc);
    [discriminate|].
  rewrite Hsnoc in Hclosed. clear Hsnoc r0 l0.
  destruct (Z.eq_dec (timestamp row_t) (target_of now)) as [Hts|Hts].
  2:{ destruct (run_once_rejects cfg now klines w) as (msg & E);
        [right; exists init, row_t; auto|].
      rewrite E in Hrun. injection Hrun as <- <-. cbn [db trace].
      rewrite appends_app. cbn [appends]. rewrite app_nil_r. auto. }
  destruct (catch_up cfg) eqn:Hcu.
  - destruct (coverage (db w)) as [[[mn mx] cnt]|] eqn:Hcov.
    2:{ pose proof (run_once_catch_up_empty_table cfg now klines init row_t w
                      Hcu Hclosed Hts Hcov) as E.
        rewrite Hrun in E. discriminate. }
    destruct (api_overlap (closed_window now klines) mx) as [|o0 lo] eqn:Hov.
    { rewrite (run_once_catch_up_no_overlap cfg now klines init row_t w
                 mn mx cnt Hcu Hclosed Hts Hcov Hov) in Hrun.
      injection Hrun as <- <-. cbn [db trace].
      rewrite appends_app. cbn [appends]. rewrite app_nil_r. auto. }
    destruct (@exists_last _ (o0 :: lo)) as (init_o & last_o & Hsnoc);
      [discriminate|].
    rewrite Hsnoc in Hov. clear Hsnoc o0 lo.
    destruct (run_once_catch_up cfg now klines init row_t w mn mx cnt
                init_o last_o Hcu Hclosed Hts Hcov Hov)
      as (db_hist & _ & Hfail & Hsucc).
    match type of Hfail with
    | ok ?res = false -> _ => destruct (ok res) eqn:Hok
    end.
    + destruct (Hsucc eq_refl) as (more & s' & E & _).
      rewrite E in Hrun. injection Hrun as <- _. now elim Hcode.
    + rewrite (Hfail eq_refl) in Hrun. injection Hrun as <- <-.
      cbn [db trace]. rewrite !appends_app. cbn [appends].
      rewrite !app_nil_r. auto.
  - destruct (select_last_n_before (db w) (n_recent cfg - 1) (target_of now))
      as [db_window|] eqn:Hsel.
    + destruct (run_once_single_bar cfg now klines init row_t w db_window
                  Hcu Hclosed Hts Hsel) as (more & E & Happ).
      rewrite E in Hrun.
      match type of Hrun with
      | context [if ?a then 0 else 1] => destruct a eqn:Hacc
      end.
      * injection Hrun as <- _. now elim Hcode.
      * cbn [andb] in *. injection Hrun as <- <-. cbn [db trace].
        rewrite appends_app, Happ, app_nil_r. auto.
    + exfalso.
      rewrite (run_once_accepts cfg now klines init row_t w Hclosed Hts)
        in Hrun.
      rewrite Hcu in Hrun.
      unfold single_bar_branch, read_last_n_rows_ending_before in Hrun.
      revert Hrun. run_monad. rewrite Hsel. discriminate.
Qed.

(** Stored 08:00 and 09:00; the fetch 08:00..10:00 at 11:00 carries
    another open price for 09:00: single-bar mode exits with code 1. *)
Lemma failed_run_leaves_the_table_witness :
  let cfg := mkRunConfig 3 false false false in
  let klines := [make_k 8 100; make_k 9 111; make_k 10 120] in
  let w := mkWorld [bar 8 100; bar 9 110] [] in
  fst (run_once cfg (at_hour 11) klines w) = Returned 1
  /\ db (snd (run_once cfg (at_hour 11) klines w)) = [bar 8 100; bar 9 110]
  /\ appends (trace (snd (run_once cfg (at_hour 11) klines w))) = [].
Proof.
  intros cfg klines w.
  assert (Hfst : fst (run_once cfg (at_hour 11) klines w) = Returned 1).
  { vm_compute. reflexivity. }
  split; [exact Hfst|].
  destruct (failed_run_leaves_the_table cfg (at_hour 11) klines w
              (snd (run_once cfg (at_hour 11) klines w)) 1)
    as (Hdb & Happ & _).
  - rewrite <- Hfst. destruct (run_once cfg (at_hour 11) klines w).
    reflexivity.
  - discriminate.
  - split; [exact Hdb|exact Happ].
Defined.

(** ** Catch-up mode on an empty table *)

(** X29. Catch-up mode on an empty table never ends normally: for every
    accepted fetch [run_once] raises [UnboundLocalError] on [v] at the
    stats line, so that [main] returns 3, or re-raises under [--debug];
    without [--dry-run] the rows of the closed window have been written
    by then. *)
Theorem catch_up_on_empty_table_raises cfg now klines init row_t (w : World) :
  catch_up cfg = true ->
  closed_window now klines = init ++ [row_t] ->
  timestamp row_t = target_of now ->
  db w = [] ->
  fst (run_once cfg now klines w) = Raised (UnboundLocalError "v")
  /\ fst (main cfg now klines w)
     = (if debug cfg then Raised (UnboundLocalError "v") else Returned 3)
  /\ (dry_run cfg = false ->
      db (snd (main cfg now klines w))
      = fold_left insert_if_absent (closed_window now klines) []).
Proof.
  intros Hcu Hclosed Hts Hdb.
  assert (Hcov : coverage (db w) = None) by (rewrite Hdb; reflexivity).
  pose proof (run_once_catch_up_empty_table cfg now klines init row_t w
                Hcu Hclosed Hts Hcov) as Hraise.
  split; [exact Hraise|]. split.
  - unfold main. destruct (run_once cfg now klines w) as [[code|e] w'];
      cbn [fst] in Hraise; [discriminate|].
    injection Hraise as ->. unfold emit. destruct (debug cfg); reflexivity.
  - intros Hdry. rewrite main_db.
    destruct (catch_up_bootstrap_unbound_local cfg now klines init row_t w
                Hcu Hdry Hdb Hclosed Hts) as (w' & -> & Hw' & _).
    exact Hw'.
Qed.

(** An empty table, fetched 08:00 and 09:00 at 10:00. *)
Lemma catch_up_on_empty_table_raises_witness :
  let cfg := mkRunConfig 4 false false true in
  let klines := [make_k 8 100; make_k 9 110] in
  fst (main cfg (at_hour 10) klines empty_world) = Returned 3
  /\ db (snd (main cfg (at_hour 10) klines empty_world))
     = [bar 8 100; bar 9 110].
Proof.
  intros cfg klines.
  destruct (catch_up_on_empty_table_raises cfg (at_hour 10) klines
              [bar 8 100] (bar 9 110) empty_world
              eq_refl eq_refl eq_refl eq_refl) as (_ & Hmain & Hdb).
  split; [exact Hmain|]. rewrite (Hdb eq_refl). reflexivity.
Defined.

(** ** The cleaned CSV *)

Lemma drop_duplicates_from_fresh (df : DataFrame) : forall seen x,
  In x (drop_duplicates_from seen df) -> ~ In (timestamp x) seen.
Proof.
  induction df as [|r df IH]; intros seen x Hx; [destruct Hx|].
  cbn [drop_duplicates_from] in Hx.
  destruct (existsb (Z.eqb (timestamp r)) seen) eqn:E.
  - now apply IH.
  - destruct Hx as [<-|Hx].
    + intros Hin. apply Bool.not_true_iff_false in E. apply E.
      apply existsb_exists. exists (timestamp r). split; [exact Hin|].
      apply Z.eqb_refl.
    + apply IH in Hx. intros Hin. apply Hx. now right.
Qed.

Lemma drop_duplicates_from_ascending (df : DataFrame) : forall seen,
  StronglySorted (fun x y => timestamp x <= timestamp y) df ->
  StronglySorted Z.lt (map timestamp (drop_duplicates_from seen df)).
Proof.
  induction df as [|r df IH]; intros seen Hs; [constructor|].
  apply StronglySorted_inv in Hs. destruct Hs as [Hs Hall].
  cbn [drop_duplicates_from].
  destruct (existsb (Z.eqb (timestamp r)) seen); [now apply IH|].
  cbn [map]. constructor; [now apply IH|].
  apply Forall_forall. intros t Ht. apply in_map_iff in Ht.
  destruct Ht as (x & <- & Hx).
  pose proof (drop_duplicates_from_fresh _ _ _ Hx) as Hfresh.
  apply drop_duplicates_from_In in Hx.
  rewrite Forall_forall in Hall. specialize (Hall x Hx).
  assert (timestamp x <> timestamp r) by (intros E; apply Hfresh; now left).
  lia.
Qed.

Lemma drop_duplicates_from_covers (df : DataFrame) : forall seen x,
  In x df ->
  In (timestamp x) seen
  \/ In (timestamp x) (map timestamp (drop_duplicates_from seen df)).
Proof.
  induction df as [|r df IH]; intros seen x Hx; [destruct Hx|].
  cbn [drop_duplicates_from].
  destruct (existsb (Z.eqb (timestamp r)) seen) eqn:E.
  - destruct Hx as [<-|Hx]; [|now apply IH].
    left. apply existsb_exists in E. destruct E as (t & Ht & Et).
    apply Z.eqb_eq in Et. now rewrite Et.
  - cbn [map]. destruct Hx as [<-|Hx]; [right; now left|].
    destruct (IH (timestamp r :: seen) x Hx) as [[<-|H]|H].
    + right. now left.
    + now left.
    + right. now right.
Qed.

Lemma dropna_In (rs : list CsvRow) (r : Row) :
  In r (dropna rs) <-> exists raw, In raw rs /\ dropna_row raw = Some r.
Proof.
  induction rs as [|x rs IH]; cbn [dropna].
  - split; [intros []|intros (raw & [] & _)].
  - destruct (dropna_row x) as [row|] eqn:E.
    + split.
      * intros [<-|H]; [exists x; split; [now left|exact E]|].
        apply IH in H. destruct H as (raw & Hin & Hraw).
        exists raw. split; [now right|exact Hraw].
      * intros (raw & [<-|Hin] & Hraw).
        -- left. congruence.
        -- right. apply IH. now exists raw.
    + rewrite IH. split; intros (raw & Hin & Hraw).
      * exists raw. split; [now right|exact Hraw].
      * destruct Hin as [<-|Hin]; [congruence|]. now exists raw.
Qed.

Lemma dropna_row_no_nan (raw : CsvRow) (r : Row) :
  dropna_row raw = Some r ->
  forall c, F64.isna (col c r) = false.
Proof.
  unfold dropna_row. destruct (csv_open_time raw); [|discriminate].
  destruct (F64.isna (csv_open raw)) eqn:E1; [discriminate|].
  destruct (F64.isna (csv_high raw)) eqn:E2; [discriminate|].
  destruct (F64.isna (csv_low raw)) eqn:E3; [discriminate|].
  destruct (F64.isna (csv_close raw)) eqn:E4; [discriminate|].
  destruct (F64.isna (csv_volume raw)) eqn:E5; [discriminate|].
  cbn [orb]. intros [= <-] [| | | |]; assumption.
Qed.

Lemma range_filter_In start end_ (df : DataFrame) (r : Row) :
  In r (range_filter start end_ df) <->
  In r df
  /\ (forall s, start = Some s -> s <= timestamp r)
  /\ (forall e, end_ = Some e -> timestamp r <= e).
Proof.
  unfold range_filter. destruct start as [s|], end_ as [e|];
    rewrite ?filter_In, ?Z.geb_le, ?Z.leb_le; split.
  all: try (intros [[H1 H2] H3]); try (intros [H1 H2]); try (intros H1).
  all: repeat split; auto; try (intros ? [= <-]; lia); try discriminate.
  all: try (destruct H2 as [H2 H3]).
  all: try (specialize (H2 _ eq_refl)); try (specialize (H3 _ eq_refl)); auto.
Qed.

Lemma range_filter_ascending start end_ (df : DataFrame) :
  StronglySorted Z.lt (map timestamp df) ->
  StronglySorted Z.lt (map timestamp (range_filter start end_ df)).
Proof.
  intros H. unfold range_filter.
  assert (F : forall p l, StronglySorted Z.lt (map timestamp l) ->
                          StronglySorted Z.lt (map timestamp (filter p l))).
  { intros p l. induction l as [|x l IH]; intros Hl; [constructor|].
    cbn [map] in Hl. apply StronglySorted_inv in Hl. destruct Hl as [Hl Hall].
    cbn [filter]. destruct (p x); [|now apply IH].
    cbn [map]. constructor; [now apply IH|].
    rewrite Forall_forall in *. intros t Ht. apply Hall.
    apply in_map_iff in Ht. destruct Ht as (y & <- & Hy).
    apply filter_In in Hy. apply in_map. tauto. }
  destruct start, end_; auto.
Qed.

Lemma cleaned_ascending df start end_ :
  StronglySorted Z.lt (map timestamp (cleaned df start end_)).
Proof.
  unfold cleaned, drop_duplicates. apply range_filter_ascending.
  apply drop_duplicates_from_ascending. apply RowSort_sorted.
Qed.

Lemma clean_transform_reads_only df start end_ (w : World) :
  db (snd (clean_transform df start end_ w)) = db w.
Proof.
  symmetry.
  assert (Hs : run_spec eq (fun _ : DataFrame => True)
                 (clean_transform df start end_)).
  { pose proof (@eq_refl Store) as Hr. pose proof (@eq_trans Store) as Ht.
    unfold clean_transform.
    destruct (negb (empty (missing df))); [now apply spec_raise|].
    eapply spec_bind; [assumption|now apply spec_when|]. intros _ _.
    eapply spec_bind; [assumption|now apply spec_when|]. intros _ _.
    eapply spec_bind; [assumption|now apply spec_iloc|]. intros first _.
    eapply spec_bind; [assumption|now apply spec_iloc_last|]. intros final _.
    eapply spec_bind; [assumption|now apply spec_emit|]. intros _ _.
    eapply spec_bind with (P := fun _ => True); [assumption| |].
    - destruct (has_column df "close_time"); [now apply spec_when|].
      eapply spec_weaken; [now apply spec_ret|auto].
    - intros _ _. eapply spec_weaken; [now apply spec_ret|auto]. }
  apply Hs.
Qed.

Lemma clean_transform_returns df start end_ (w w' : World) out :
  clean_transform df start end_ w = (Returned out, w') ->
  out = cleaned df start end_ /\ db w' = db w /\ missing df = [].
Proof.
  intros H. destruct (missing df) as [|c m] eqn:Hm.
  - pose proof (clean_transform_reads_only df start end_ w) as Hdb.
    rewrite H in Hdb. cbn [snd] in Hdb.
    destruct (clean_transform_outcome df start end_ w Hm) as (w1 & E).
    rewrite E in H. destruct (cleaned df start end_); [discriminate|].
    injection H as <- <-. auto.
  - unfold clean_transform in H. rewrite Hm in H. discriminate.
Qed.

(** X21. A frame returned by [clean_transform] is strictly ascending in
    its timestamps, so that no timestamp occurs twice; each of its rows
    is a raw row without [NaT] or NaN, inside the requested range; every
    such raw row has its timestamp in the frame; and the table is not
    touched. *)
Theorem clean_transform_output df start end_ (w w' : World) out :
  clean_transform df start end_ w = (Returned out, w') ->
  StronglySorted Z.lt (map timestamp out)
  /\ (forall r, In r out ->
        (exists raw, In raw (csv_rows df) /\ dropna_row raw = Some r)
        /\ (forall c, F64.isna (col c r) = false)
        /\ (forall s, start = Some s -> s <= timestamp r)
        /\ (forall e, end_ = Some e -> timestamp r <= e))
  /\ (forall raw r,
        In raw (csv_rows df) -> dropna_row raw = Some r ->
        (forall s, start = Some s -> s <= timestamp r) ->
        (forall e, end_ = Some e -> timestamp r <= e) ->
        In (timestamp r) (map timestamp out))
  /\ db w' = db w.
Proof.
  intros H. apply clean_transform_returns in H. destruct H as (-> & Hdb & _).
  split; [apply cleaned_ascending|]. split; [|split; [|exact Hdb]].
  - intros r Hr. apply cleaned_In in Hr. destruct Hr as (Hin & Hs & He).
    apply dropna_In in Hin. destruct Hin as (raw & Hin & Hraw).
    split; [now exists raw|]. split; [|now split].
    now apply (dropna_row_no_nan raw).
  - intros raw r Hin Hraw Hs He.
    assert (Hr : In r (RowSort.sort (dropna (csv_rows df)))).
    { eapply Permutation_in; [apply RowSort.Permuted_sort|].
      apply dropna_In. now exists raw. }
    destruct (drop_duplicates_from_covers _ [] r Hr) as [[]|Hc].
    apply in_map_iff in Hc. destruct Hc as (x & Ex & Hx).
    apply in_map_iff. exists x. split; [exact Ex|].
    unfold cleaned. apply range_filter_In. split; [exact Hx|].
    rewrite Ex. now split.
Qed.

(** The merged CSV of 08:00 and 09:00. *)
Lemma clean_transform_output_witness :
  StronglySorted Z.lt (map timestamp (cleaned merged_csv None None))
  /\ db (snd (clean_transform merged_csv None None empty_world)) = [].
Proof.
  assert (H : clean_transform merged_csv None None empty_world
              = (Returned (cleaned merged_csv None None),
                 snd (clean_transform merged_csv None None empty_world))).
  { vm_compute. reflexivity. }
  destruct (clean_transform_output merged_csv None None empty_world _ _ H)
    as (Hs & _ & _ & Hdb).
  split; [exact Hs|exact Hdb].
Defined.

(** ** Gaps *)

Lemma gap_filter_zero (ds : list Z) :
  filter (fun d => negb (d =? HOUR)) ds = [] <-> all_hourly ds = true.
Proof.
  unfold all_hourly. induction ds as [|d ds IH]; cbn [filter forallb].
  - tauto.
  - destruct (d =? HOUR); cbn [negb andb]; [exact IH|].
    split; discriminate.
Qed.

(** X22. The gap count that the CSV backfill prints is 0 exactly for
    the frames that the validator's [_is_strictly_hourly] accepts, and it
    is never more than the number of consecutive pairs. *)
Theorem gap_count_zero_iff_strictly_hourly (df : DataFrame) :
  (gap_count df = 0 <-> _is_strictly_hourly df = true)
  /\ 0 <= gap_count df <= Z.max 0 (Z.of_nat (List.length df) - 1).
Proof.
  split.
  - unfold gap_count, _is_strictly_hourly.
    destruct df as [|r df]; cbn [empty]; [simpl; tauto|].
    rewrite <- gap_filter_zero. split.
    + intros H. apply length_zero_iff_nil. lia.
    + intros ->. reflexivity.
  - unfold gap_count.
    assert (Hd : forall ts, List.length (diff ts) = (List.length ts - 1)%nat).
    { induction ts as [|a [|b ts] IH]; [reflexivity|reflexivity|].
      change (diff (a :: b :: ts)) with ((b - a) :: diff (b :: ts)).
      cbn [List.length] in *. rewrite IH. lia. }
    pose proof (filter_length_le (fun d => negb (d =? HOUR))
                  (diff (map timestamp df))) as Hle.
    rewrite Hd, length_map in Hle. lia.
Qed.

(** ** The bulk insert *)

Lemma distinct_NoDup (ts : list Z) : distinct ts = true <-> NoDup ts.
Proof.
  induction ts as [|t ts IH]; cbn [distinct].
  - split; [constructor|reflexivity].
  - rewrite andb_true_iff, negb_true_iff, IH. split.
    + intros [Hn Hd]. constructor; [|exact Hd].
      intros Hin. apply Bool.not_true_iff_false in Hn. apply Hn.
      apply existsb_exists. exists t. split; [exact Hin|apply Z.eqb_refl].
    + intros H. inversion H as [|? ? Hn Hd]; subst. split; [|exact Hd].
      apply Bool.not_true_iff_false. intros Hex. apply Hn.
      apply existsb_exists in Hex. destruct Hex as (x & Hx & E).
      apply Z.eqb_eq in E. now subst.
Qed.

(** With distinct timestamps, the rows that one [INSERT ... SELECT]
    adds are those that the row-by-row inserts add. *)
Lemma fold_insert_bulk (rows : DataFrame) : forall (s : Store),
  NoDup (map timestamp rows) ->
  fold_left insert_if_absent rows s
  = s ++ filter (fun t => negb (exists_timestamp s (timestamp t))) rows.
Proof.
  induction rows as [|x rows IH]; intros s Hnd; cbn [fold_left filter].
  - now rewrite app_nil_r.
  - cbn [map] in Hnd. inversion Hnd as [|? ? Hnotin Hnd']; subst.
    unfold insert_if_absent at 2.
    destruct (exists_timestamp s (timestamp x)) eqn:E; cbn [negb].
    + now apply IH.
    + rewrite IH by assumption. rewrite <- app_assoc. cbn [app].
      do 2 f_equal. apply filter_ext_in. intros r Hr.
      rewrite exists_timestamp_snoc.
      replace (timestamp x =? timestamp r) with false;
        [now rewrite orb_false_r|].
      symmetry. apply Z.eqb_neq. intros Heq. apply Hnotin.
      rewrite Heq. now apply in_map.
Qed.

Lemma insert_into_duckdb_run (df : DataFrame) (w : World) :
  NoDup (map timestamp df) ->
  let new_rows :=
    filter (fun t => negb (exists_timestamp (db w) (timestamp t))) df in
  insert_into_duckdb df w
  = (Returned (Z.of_nat (List.length new_rows)),
     mkWorld (db w ++ new_rows) (trace w)).
Proof.
  intros Hnd new_rows. unfold insert_into_duckdb, ensure_table.
  run_monad. fold new_rows.
  replace (distinct (map timestamp new_rows)) with true; [reflexivity|].
  symmetry. apply distinct_NoDup. now apply NoDup_map_filter.
Qed.

(** X23. On a frame with distinct timestamps, [insert_into_duckdb] adds
    at the end of the table the rows whose timestamp the table does not
    hold, in the order of the frame, and returns their number; this is
    the table that [append_row_if_absent], called on the rows one by one,
    leaves. The unique index is kept and every timestamp of the frame is
    stored afterwards. *)
Theorem insert_into_duckdb_inserts_missing (df : DataFrame) (w : World) :
  NoDup (map timestamp df) ->
  let new_rows :=
    filter (fun t => negb (exists_timestamp (db w) (timestamp t))) df in
  let after := db (snd (insert_into_duckdb df w)) in
  fst (insert_into_duckdb df w) = Returned (Z.of_nat (List.length new_rows))
  /\ after = db w ++ new_rows
  /\ after = fold_left insert_if_absent df (db w)
  /\ after = db (snd (for_each df append_row_if_absent w))
  /\ (unique_index (db w) -> unique_index after)
  /\ (forall r, In r df -> exists_timestamp after (timestamp r) = true).
Proof.
  intros Hnd new_rows after. subst after.
  rewrite (insert_into_duckdb_run df w Hnd). fold new_rows. cbn [fst snd db].
  assert (Hfold : db w ++ new_rows = fold_left insert_if_absent df (db w)).
  { symmetry. now apply fold_insert_bulk. }
  split; [reflexivity|]. split; [reflexivity|]. split; [exact Hfold|].
  rewrite Hfold. split; [|split].
  - rewrite for_each_append. reflexivity.
  - revert Hfold. generalize (db w). clear. intros s _.
    revert s. induction df as [|x df IH]; intros s Hu; cbn [fold_left]; auto.
    apply IH. now apply insert_if_absent_unique.
  - intros r Hr. apply exists_timestamp_iff. now apply fold_insert_covers.
Qed.

(** Stored 08:00 and 09:00, inserted 09:00 and 10:00: one row is new. *)
Lemma insert_into_duckdb_inserts_missing_witness :
  let w := mkWorld [bar 8 100; bar 9 110] [] in
  let df := [bar 9 111; bar 10 120] in
  fst (insert_into_duckdb df w) = Returned 1
  /\ db (snd (insert_into_duckdb df w)) = [bar 8 100; bar 9 110; bar 10 120].
Proof.
  intros w df.
  assert (Hnd : NoDup (map timestamp df)).
  { repeat constructor; simpl; intuition discriminate. }
  destruct (insert_into_duckdb_inserts_missing df w Hnd)
    as (Hfst & Hdb & _).
  split; [rewrite Hfst; reflexivity|rewrite Hdb; reflexivity].
Defined.

Lemma insert_into_duckdb_again (df : DataFrame) (w : World) :
  (forall r, In r df -> exists_timestamp (db w) (timestamp r) = true) ->
  insert_into_duckdb df w = (Returned 0, w).
Proof.
  intros Hall. unfold insert_into_duckdb, ensure_table. run_monad.
  rewrite filter_none.
  - cbn [map distinct List.length]. rewrite app_nil_r. now destruct w.
  - intros r Hr. rewrite (Hall r Hr). reflexivity.
Qed.

(** X24. Inserting the same frame a second time inserts nothing: the
    call returns 0 and leaves the table and the output as they are. *)
Theorem insert_into_duckdb_twice (df : DataFrame) (w : World) :
  NoDup (map timestamp df) ->
  let w1 := snd (insert_into_duckdb df w) in
  insert_into_duckdb df w1 = (Returned 0, w1).
Proof.
  intros Hnd w1. apply insert_into_duckdb_again. intros r Hr. subst w1.
  rewrite (insert_into_duckdb_run df w Hnd). cbn [snd db].
  rewrite <- fold_insert_bulk by assumption.
  apply exists_timestamp_iff. now apply fold_insert_covers.
Qed.

Lemma insert_into_duckdb_twice_witness :
  let w := mkWorld [bar 8 100; bar 9 110] [] in
  let df := [bar 9 111; bar 10 120] in
  insert_into_duckdb df (snd (insert_into_duckdb df w))
  = (Returned 0, mkWorld [bar 8 100; bar 9 110; bar 10 120] []).
Proof.
  intros w df.
  assert (Hnd : NoDup (map timestamp df)).
  { repeat constructor; simpl; intuition discriminate. }
  rewrite (insert_into_duckdb_twice df w Hnd). reflexivity.
Defined.

Lemma ascending_NoDup (ts : list Z) : StronglySorted Z.lt ts -> NoDup ts.
Proof.
  induction 1 as [|t ts Hs IH Hall]; constructor; [|exact IH].
  intros Hin. rewrite Forall_forall in Hall. specialize (Hall t Hin). lia.
Qed.

(** X25. The CSV backfill, from the cleaning to the insert: the insert
    of a frame that [clean_transform] returned is accepted by the unique
    index, stores every timestamp of the frame and keeps the index; and
    cleaning and inserting the same CSV again returns the same frame and
    inserts 0 rows. *)
Theorem csv_backfill_is_repeatable df start end_ (w w1 : World) out :
  clean_transform df start end_ w = (Returned out, w1) ->
  exists n w2,
    insert_into_duckdb out w1 = (Returned n, w2)
    /\ 0 <= n <= Z.of_nat (List.length out)
    /\ (unique_index (db w) -> unique_index (db w2))
    /\ (forall r, In r out -> In (timestamp r) (map timestamp (db w2)))
    /\ exists w3,
         clean_transform df start end_ w2 = (Returned out, w3)
         /\ insert_into_duckdb out w3 = (Returned 0, w3).
Proof.
  intros Hclean.
  destruct (clean_transform_returns _ _ _ _ _ _ Hclean) as (Hout & Hdb & Hm).
  assert (Hnd : NoDup (map timestamp out)).
  { subst out. apply ascending_NoDup, cleaned_ascending. }
  pose proof (insert_into_duckdb_run out w1 Hnd) as Hrun. cbv zeta in Hrun.
  do 2 eexists. split; [exact Hrun|].
  assert (Hfold : db w1 ++ filter (fun t => negb (exists_timestamp (db w1) (timestamp t))) out
                  = fold_left insert_if_absent out (db w1)).
  { symmetry. now apply fold_insert_bulk. }
  split; [|split; [|split]].
  - pose proof (filter_length_le
                  (fun t => negb (exists_timestamp (db w1) (timestamp t))) out).
    lia.
  - cbn [db]. rewrite Hfold, Hdb. generalize (db w). clear.
    induction out as [|x out IH]; intros s Hu; cbn [fold_left]; auto.
    apply IH. now apply insert_if_absent_unique.
  - cbn [db]. rewrite Hfold. intros r Hr. now apply fold_insert_covers.
  - match goal with
    | |- context [clean_transform _ _ _ ?w0] => set (w2 := w0)
    end.
    destruct (clean_transform_outcome df start end_ w2 Hm) as (w3 & E).
    destruct (clean_transform_outcome df start end_ w Hm) as (w1' & E1).
    rewrite E1 in Hclean. clear E1.
    assert (E' : clean_transform df start end_ w2 = (Returned out, w3)).
    { rewrite E, Hout. destruct (cleaned df start end_); [discriminate|].
      reflexivity. }
    exists w3. split; [exact E'|].
    apply insert_into_duckdb_again. intros r Hr.
    pose proof (clean_transform_reads_only df start end_ w2) as Hdb3.
    rewrite E' in Hdb3. cbn [snd] in Hdb3. rewrite Hdb3. subst w2. cbn [db].
    rewrite Hfold. apply exists_timestamp_iff. now apply fold_insert_covers.
Qed.

(** The merged CSV of 08:00 and 09:00 into an empty table. *)
Lemma csv_backfill_is_repeatable_witness :
  exists n w2,
    insert_into_duckdb (cleaned merged_csv None None)
      (snd (clean_transform merged_csv None None empty_world))
    = (Returned n, w2)
    /\ unique_index (db w2).
Proof.
  assert (H : clean_transform merged_csv None None empty_world
              = (Returned (cleaned merged_csv None None),
                 snd (clean_transform merged_csv None None empty_world))).
  { vm_compute. reflexivity. }
  destruct (csv_backfill_is_repeatable merged_csv None None empty_world _ _ H)
    as (n & w2 & Hrun & _ & Hu & _).
  exists n, w2. split; [exact Hrun|]. apply Hu. constructor.
Defined.

(** ** The recent-window backfill *)

Section RecentFacts.
Import BackfillRecent.

Lemma reads_only_ret {A} (a : A) : reads_only (fun x => x = a) (ret a).
Proof.
  intros st. split; [reflexivity|]. split.
  - intros x [= <-]. reflexivity.
  - intros code H. discriminate.
Qed.

Lemma reads_only_raise {A} (P : A -> Prop) e : reads_only P (raise e).
Proof.
  intros st. split; [reflexivity|]. split; intros x H; discriminate.
Qed.

Lemma reads_only_weaken {A} (P Q : A -> Prop) (m : Script A) :
  reads_only P m -> (forall a, P a -> Q a) -> reads_only Q m.
Proof.
  intros Hm HPQ st. destruct (Hm st) as (H1 & H2 & H3). repeat split; auto.
Qed.

Lemma reads_only_bind {A B} (P : A -> Prop) (Q : B -> Prop)
    (m : Script A) (k : A -> Script B) :
  reads_only P m -> (forall a, P a -> reads_only Q (k a)) ->
  reads_only Q (bind m k).
Proof.
  intros Hm Hk st. destruct (Hm st) as (H1 & H2 & H3). unfold bind.
  destruct (m st) as [[a|stop] st1]; cbn [fst snd] in *.
  - destruct (Hk a (H2 a eq_refl) st1) as (H4 & H5 & H6).
    split; [congruence|]. split; assumption.
  - split; [exact H1|]. split; [intros b Hb; discriminate|].
    intros code [= ->]. now apply H3.
Qed.

Lemma reads_only_print l : reads_only (fun _ => True) (print l).
Proof.
  intros st. split; [reflexivity|]. split; [auto|].
  intros code H. discriminate.
Qed.

Lemma reads_only_print_exit {A} (P : A -> Prop) l :
  reads_only P (bind (print l) (fun _ => exit 2)).
Proof.
  intros st. split; [reflexivity|]. split.
  - intros a Ha. discriminate.
  - intros code [= <-]. reflexivity.
Qed.

Lemma reads_only_when c l : reads_only (fun _ => True) (when c (print l)).
Proof.
  destruct c; [apply reads_only_print|].
  eapply reads_only_weaken; [apply reads_only_ret|auto].
Qed.

Lemma reads_only_iloc {A} (df : list A) i :
  reads_only (fun a => nth_error df i = Some a) (iloc df i).
Proof.
  unfold iloc. destruct (nth_error df i) as [a|].
  - eapply reads_only_weaken; [apply reads_only_ret|]. now intros x ->.
  - apply reads_only_raise.
Qed.

Lemma reads_only_iloc_last {A} (df : list A) :
  reads_only (fun a => exists init, df = init ++ [a]) (iloc_last df).
Proof.
  unfold iloc_last. destruct (rev df) as [|a l] eqn:E.
  - apply reads_only_raise.
  - eapply reads_only_weaken; [apply reads_only_ret|]. intros x ->.
    exists (rev l). rewrite <- (rev_involutive df), E. reflexivity.
Qed.

Lemma reads_only_read n t :
  reads_only (fun _ => True) (read_last_n_rows_ending_before n t).
Proof.
  intros st. unfold read_last_n_rows_ending_before.
  destruct (select_last_n_before (table st) n t);
    (split; [reflexivity|]); (split; [auto|]); intros code H; discriminate.
Qed.

(** The frame [validate_overlap] goes on with holds rows of the closed
    window only. *)
Lemma validate_overlap_reads_only cfg (api_df db_tail : DataFrame) :
  reads_only (fun to_append => incl to_append api_df)
    (validate_overlap cfg api_df db_tail).
Proof.
  unfold validate_overlap.
  destruct (empty (common_ts api_df db_tail)); [apply reads_only_print_exit|].
  eapply reads_only_bind; [apply reads_only_iloc_last|]. intros last_o _.
  eapply reads_only_bind; [apply reads_only_read|]. intros db_hist _.
  destruct (negb (ok _)); [apply reads_only_print_exit|].
  eapply reads_only_bind with (P := fun _ => True).
  { destruct (negb (empty _)).
    - eapply reads_only_bind; [apply reads_only_iloc|]. intros row_api _.
      eapply reads_only_bind; [apply reads_only_iloc|]. intros row_db _.
      destruct (last_row_mismatch _ _ _); [apply reads_only_print_exit|].
      eapply reads_only_weaken; [apply reads_only_ret|auto].
    - eapply reads_only_weaken; [apply reads_only_ret|auto]. }
  intros _ _.
  eapply reads_only_bind; [apply reads_only_when|]. intros _ _.
  eapply reads_only_weaken; [apply reads_only_ret|]. intros a ->.
  intros r Hr. apply filter_In in Hr. tauto.
Qed.

(** The loop over [to_append]. *)
Lemma for_each_append_or_skip cfg (rows : DataFrame) : forall st,
  exists more,
    for_each rows (fun row =>
      if dry_run cfg then when (debug cfg) (print (would_append row))
      else append_row_if_absent row) st
    = (inl tt,
       mkState (if dry_run cfg then table st
                else fold_left insert_if_absent rows (table st))
               (printed st ++ more)).
Proof.
  destruct (dry_run cfg).
  - induction rows as [|r rows IH]; intros st; cbn [for_each].
    + exists []. rewrite app_nil_r. unfold ret. now destruct st.
    + unfold bind at 1.
      assert (Hp : exists l,
                 when (debug cfg) (print (would_append r)) st
                 = (inl tt, mkState (table st) (printed st ++ l))).
      { destruct (debug cfg); cbn [when]; unfold print, ret.
        - eexists. reflexivity.
        - exists []. rewrite app_nil_r. now destruct st. }
      destruct Hp as (l & ->).
      match goal with
      | |- context [for_each rows _ ?st1] => destruct (IH st1) as (more & ->)
      end.
      cbn [table printed]. eexists. rewrite <- app_assoc. reflexivity.
  - induction rows as [|r rows IH]; intros st; cbn [for_each].
    + exists []. rewrite app_nil_r. unfold ret. now destruct st.
    + unfold bind at 1. unfold append_row_if_absent at 1.
      match goal with
      | |- context [for_each rows _ ?st1] => destruct (IH st1) as (more & ->)
      end.
      cbn [table printed fold_left]. eexists. reflexivity.
Qed.

Lemma appends_from_none (dry : bool) (source : DataFrame) (m : Script Z)
    (st : State) :
  table (snd (m st)) = table st ->
  (forall code, finish (fst (m st)) = inl code -> code = 0 \/ code = 2) ->
  exists rows,
    incl rows source
    /\ table (snd (m st))
       = (if dry then table st else fold_left insert_if_absent rows (table st))
    /\ (finish (fst (m st)) <> inl 0 -> rows = [])
    /\ (forall code, finish (fst (m st)) = inl code -> code = 0 \/ code = 2).
Proof.
  intros Ht Hc. exists []. split; [intros r []|].
  split; [rewrite Ht; now destruct dry|]. split; [auto|exact Hc].
Qed.

Lemma appends_from_reads_only dry source (m : Script Z) :
  reads_only (fun _ => False) m -> appends_from dry source m.
Proof.
  intros H st. destruct (H st) as (H1 & H2 & H3).
  apply appends_from_none; [exact H1|].
  intros code Hc. destruct (fst (m st)) as [a|[c|e]] eqn:E;
    cbn [finish] in Hc.
  - exfalso. eapply H2. first [exact E|reflexivity].
  - injection Hc as <-. right. apply H3. first [exact E|reflexivity].
  - discriminate.
Qed.

Lemma appends_from_bind {A} dry source (P : A -> Prop)
    (m : Script A) (k : A -> Script Z) :
  reads_only P m -> (forall a, P a -> appends_from dry source (k a)) ->
  appends_from dry source (bind m k).
Proof.
  intros Hm Hk st. destruct (Hm st) as (H1 & H2 & H3).
  destruct (m st) as [[a|stop] st1] eqn:E; cbn [fst snd] in *.
  - destruct (Hk a (H2 a eq_refl) st1) as (rows & Hin & Ht & Hz & Hc).
    exists rows. unfold bind. rewrite E. rewrite <- H1. auto.
  - apply appends_from_none; unfold bind; rewrite E; cbn [fst snd];
      [exact H1|].
    intros code Hc. destruct stop as [c|e]; cbn [finish] in Hc;
      [|discriminate].
    injection Hc as <-. right. now apply H3.
Qed.

Lemma run_once_appends_from cfg now klines :
  appends_from (dry_run cfg) (closed_window now klines)
    (run_once cfg now klines).
Proof.
  unfold run_once, closed_window. unfold compute_target_hour. cbn [fst snd].
  set (closed := closed_candles (klines_to_dataframe klines) (now / HOUR * HOUR)).
  eapply appends_from_bind with (P := fun a => a = closed).
  { unfold _filter_closed. destruct (negb (has_close_time _)).
    - apply reads_only_raise.
    - apply reads_only_ret. }
  intros api_df ->.
  destruct (empty closed).
  { apply appends_from_reads_only, reads_only_print_exit. }
  eapply appends_from_bind; [apply reads_only_iloc_last|]. intros last_c _.
  eapply appends_from_bind; [apply reads_only_when|]. intros _ _.
  eapply appends_from_bind; [apply reads_only_read|]. intros db_tail _.
  eapply appends_from_bind with (P := fun ta => incl ta closed).
  { destruct (negb (empty db_tail)); [apply validate_overlap_reads_only|].
    eapply reads_only_weaken; [apply reads_only_ret|]. intros a ->.
    apply incl_refl. }
  intros to_append Hincl.
  destruct (empty to_append).
  { intros st. apply appends_from_none; [reflexivity|].
    intros code [= <-]. now left. }
  intros st.
  destruct (for_each_append_or_skip cfg to_append st) as (more & E).
  unfold bind. rewrite E. unfold print, ret. cbn [fst snd table finish].
  exists to_append. split; [exact Hincl|]. split; [reflexivity|].
  split; [intros H; now elim H|]. intros code [= <-]. now left.
Qed.

Lemma fold_insert_grows (source rows : DataFrame) : forall s,
  incl rows source ->
  grows_by source s (fold_left insert_if_absent rows s).
Proof.
  induction rows as [|r rows IH]; intros s Hincl; cbn [fold_left].
  - apply grows_by_refl.
  - eapply grows_by_trans; [|apply IH; intros x Hx; apply Hincl; now right].
    pose proof (insert_if_absent_unique s r) as Hu.
    unfold insert_if_absent in *.
    destruct (exists_timestamp s (timestamp r)); [apply grows_by_refl|].
    exists [r]. split; [reflexivity|]. split; [|exact Hu].
    intros x [<-|[]]. apply Hincl. now left.
Qed.

Lemma main_finish cfg now klines (st : State) :
  table (snd (main cfg now klines st))
  = table (snd (run_once cfg now klines st))
  /\ (forall code,
        fst (main cfg now klines st) = inl code ->
        finish (fst (run_once cfg now klines st)) = inl code
        \/ code = 3 /\ debug cfg = false
           /\ exists e, finish (fst (run_once cfg now klines st)) = inr e).
Proof.
  unfold main. destruct (run_once cfg now klines st) as [r st1].
  cbn [fst snd]. destruct (finish r) as [code|e]; cbn [fst snd].
  - split; [reflexivity|]. intros c [= <-]. now left.
  - destruct (debug cfg); cbn [fst snd table]; (split; [reflexivity|]).
    + intros c H. discriminate.
    + intros c [= <-]. right. split; [reflexivity|]. split; [reflexivity|].
      now exists e.
Qed.

(** X26. Whatever the recent-window backfill does, the table it leaves
    is the table it found followed by rows of the closed window of the
    fetch, with its unique index kept. The table is left as it was under
    [--dry-run] and whenever the exit code is not 0, and the exit code of
    [main] is 0, 2 or 3. *)
Theorem recent_backfill_only_appends cfg now klines (st : State) :
  let after := table (snd (main cfg now klines st)) in
  (exists added,
     after = table st ++ added
     /\ incl added (closed_window now klines)
     /\ (unique_index (table st) -> unique_index after))
  /\ (dry_run cfg = true -> after = table st)
  /\ (fst (main cfg now klines st) <> inl 0 -> after = table st)
  /\ (forall code, fst (main cfg now klines st) = inl code ->
                   code = 0 \/ code = 2 \/ code = 3).
Proof.
  intros after. subst after.
  destruct (main_finish cfg now klines st) as (Ht & Hcode). rewrite Ht.
  destruct (run_once_appends_from cfg now klines st)
    as (rows & Hincl & Htab & Hzero & Hcodes).
  split; [|split; [|split]].
  - rewrite Htab. destruct (dry_run cfg).
    + apply grows_by_refl.
    + now apply fold_insert_grows.
  - intros Hdry. rewrite Htab, Hdry. reflexivity.
  - intros Hne. rewrite Htab.
    assert (Hr : rows = []).
    { apply Hzero. intros Hf. apply Hne. unfold main.
      destruct (run_once cfg now klines st) as [r st1]. cbn [fst] in Hf.
      rewrite Hf. reflexivity. }
    rewrite Hr. now destruct (dry_run cfg).
  - intros code Hm. destruct (Hcode code Hm) as [Hf|(-> & _)].
    + destruct (Hcodes code Hf) as [-> | ->]; auto.
    + auto.
Qed.


Lemma select_nothing (s : Store) (n t : Z) :
  n = 0 \/ (0 <= n /\ forall r, In r s -> t <= timestamp r) ->
  select_last_n_before s n t = Some [].
Proof.
  intros [-> | [Hn Hall]]; unfold select_last_n_before.
  - reflexivity.
  - destruct (Z.ltb_spec n 0); [lia|].
    rewrite filter_none; [now rewrite firstn_nil|].
    intros r Hr. apply Z.ltb_ge. now apply Hall.
Qed.

(** [run_once] up to the read of the stored tail. *)
Lemma run_once_reads_tail cfg now klines init last (st : State) db_tail :
  closed_window now klines = init ++ [last] ->
  select_last_n_before (table st) (db_validate_rows cfg)
    (timestamp last + HOUR) = Some db_tail ->
  exists warn,
    run_once cfg now klines st
    = bind (if negb (empty db_tail)
            then validate_overlap cfg (closed_window now klines) db_tail
            else ret (closed_window now klines))
        (fun to_append =>
           if empty to_append then bind (print no_new_rows) (fun _ => exit 0)
           else
             bind (for_each to_append (fun row =>
                     if dry_run cfg
                     then when (debug cfg) (print (would_append row))
                     else append_row_if_absent row))
               (fun _ =>
                  bind (print (backfill_ok (Z.of_nat (List.length to_append))
                                 (ts_min (closed_window now klines))
                                 (ts_max (closed_window now klines))
                                 (timestamp last) (target_of now)))
                    (fun _ => ret 0)))
        (mkState (table st) (printed st ++ warn)).
Proof.
  intros Hclosed Hsel.
  assert (Hne : closed_window now klines <> []).
  { rewrite Hclosed. destruct init; discriminate. }
  pose proof (closed_window_has_close_time _ _ Hne) as Hct.
  unfold run_once, closed_window, target_of in *.
  unfold compute_target_hour in *. cbn [fst snd] in *.
  unfold _filter_closed. rewrite Hct. cbn [negb].
  unfold bind at 1. unfold ret at 1. rewrite Hclosed.
  replace (empty (init ++ [last])) with false by (destruct init; reflexivity).
  unfold bind at 1. unfold iloc_last at 1. rewrite rev_app_distr.
  cbn [rev app]. unfold ret at 1.
  unfold bind at 1.
  exists (if negb (timestamp last =? now / HOUR * HOUR - HOUR)
          then [last_closed_is_not_target_hour (timestamp last)
                  (now / HOUR * HOUR - HOUR)]
          else []).
  assert (Hw : when (negb (timestamp last =? now / HOUR * HOUR - HOUR))
                 (print (last_closed_is_not_target_hour (timestamp last)
                           (now / HOUR * HOUR - HOUR))) st
               = (inl tt,
                  mkState (table st)
                    (printed st ++
                     if negb (timestamp last =? now / HOUR * HOUR - HOUR)
                     then [last_closed_is_not_target_hour (timestamp last)
                             (now / HOUR * HOUR - HOUR)]
                     else []))).
  { destruct (negb _); cbn [when]; unfold print, ret; [reflexivity|].
    rewrite app_nil_r. now destruct st. }
  rewrite Hw. unfold bind at 1.
  unfold read_last_n_rows_ending_before at 1. cbn [table].
  rewrite Hsel. reflexivity.
Qed.

(** X27. When the table holds no row before the hour after the last
    closed candle, or [db_validate_rows] is 0, the recent-window backfill
    validates nothing: it ends with exit code 0 and has appended, by
    [append_row_if_absent], every row of the closed window. *)
Theorem recent_backfill_without_stored_tail cfg now klines init last
    (st : State) :
  closed_window now klines = init ++ [last] ->
  (db_validate_rows cfg = 0
   \/ (0 <= db_validate_rows cfg
       /\ forall r, In r (table st) -> timestamp last + HOUR <= timestamp r)) ->
  exists more,
    run_once cfg now klines st
    = (inl 0,
       mkState (if dry_run cfg then table st
                else fold_left insert_if_absent (closed_window now klines)
                       (table st))
               (printed st ++ more)).
Proof.
  intros Hclosed Hcase.
  destruct (run_once_reads_tail cfg now klines init last st []
              Hclosed (select_nothing _ _ _ Hcase)) as (warn & ->).
  cbn [empty negb]. unfold bind at 1. unfold ret at 1.
  replace (empty (closed_window now klines)) with false
    by (rewrite Hclosed; destruct init; reflexivity).
  unfold bind at 1.
  match goal with
  | |- context [for_each ?l _ ?st1] =>
      destruct (for_each_append_or_skip cfg l st1) as (more & ->)
  end.
  unfold bind, print, ret. cbn [table printed].
  eexists. rewrite <- !app_assoc. reflexivity.
Qed.

(** An empty table, fetched 08:00..11:00 at 12:00: the four rows are
    appended and the exit code is 0. *)
Lemma recent_backfill_without_stored_tail_witness :
  let cfg := BackfillRecent.mkRunConfig 48 72 default_tolerance false false in
  let klines := [make_k 8 100; make_k 9 110; make_k 10 120; make_k 11 130] in
  exists more,
    run_once cfg (at_hour 12) klines (mkState [] [])
    = (inl 0,
       mkState [bar 8 100; bar 9 110; bar 10 120; bar 11 130] more).
Proof.
  intros cfg klines.
  destruct (recent_backfill_without_stored_tail cfg (at_hour 12) klines
              [bar 8 100; bar 9 110; bar 10 120] (bar 11 130)
              (mkState [] []) eq_refl) as (more & H).
  - right. split; [discriminate|]. intros r [].
  - exists more. rewrite H. reflexivity.
Defined.


Lemma common_ts_In (api_df db_tail : DataFrame) (t : Z) :
  In t (common_ts api_df db_tail)
  <-> In t (map timestamp api_df) /\ In t (map timestamp db_tail).
Proof.
  unfold common_ts. split.
  - intros H.
    apply (Permutation_in _ (Permutation_sym (ZSort.Permuted_sort _))) in H.
    apply nodup_In, filter_In in H. destruct H as [H1 H2]. split; [exact H1|].
    apply existsb_exists in H2. destruct H2 as (x & Hx & E).
    apply Z.eqb_eq in E. now subst.
  - intros [H1 H2].
    apply (Permutation_in _ (ZSort.Permuted_sort _)).
    apply nodup_In, filter_In. split; [exact H1|].
    apply existsb_exists. exists t. split; [exact H2|apply Z.eqb_refl].
Qed.

Lemma api_overlap_In (api_df db_tail : DataFrame) (r : Row) :
  In r (api_overlap api_df (common_ts api_df db_tail))
  <-> In r api_df /\ In (timestamp r) (map timestamp db_tail).
Proof.
  unfold api_overlap. split.
  - intros H.
    apply (Permutation_in _ (Permutation_sym (RowSort.Permuted_sort _))) in H.
    apply filter_In in H. destruct H as [H1 H2]. split; [exact H1|].
    apply existsb_exists in H2. destruct H2 as (x & Hx & E).
    apply Z.eqb_eq in E. subst x. now apply common_ts_In in Hx.
  - intros [H1 H2].
    apply (Permutation_in _ (RowSort.Permuted_sort _)).
    apply filter_In. split; [exact H1|].
    apply existsb_exists. exists (timestamp r). split; [|apply Z.eqb_refl].
    apply common_ts_In. split; [now apply in_map|exact H2].
Qed.

Lemma sorted_last_is_max (init : list Row) (a : Row) :
  StronglySorted (fun x y => timestamp x <= timestamp y) (init ++ [a]) ->
  forall x, In x (init ++ [a]) -> timestamp x <= timestamp a.
Proof.
  induction init as [|y init IH]; cbn [app]; intros Hs x Hx.
  - destruct Hx as [<-|[]]. lia.
  - apply StronglySorted_inv in Hs. destruct Hs as [Hs Hall].
    destruct Hx as [<-|Hx]; [|now apply IH].
    rewrite Forall_forall in Hall. apply Hall. apply in_or_app. right. now left.
Qed.

Lemma last_row_mismatch_none (row_api row_db : Row) (tol : float) :
  last_row_mismatch row_api row_db tol = None ->
  forall c,
    F64.gtb (F64.abs (F64.sub (col c row_api) (col c row_db))) tol = false.
Proof.
  unfold last_row_mismatch. intros H c.
  apply (find_none _ _ H c (In_ohlcv c)).
Qed.

(** When [validate_overlap] goes on, the last row of the overlap has
    been compared with the stored row of its timestamp. *)
Lemma validate_overlap_goes_on cfg (api_df db_tail : DataFrame)
    (st st' : State) to_append :
  validate_overlap cfg api_df db_tail st = (inl to_append, st') ->
  exists row_api row_db,
    In row_api api_df /\ In row_db db_tail
    /\ timestamp row_db = timestamp row_api
    /\ (forall r, In r api_df -> In (timestamp r) (map timestamp db_tail) ->
                  timestamp r <= timestamp row_api)
    /\ (forall c,
          F64.gtb (F64.abs (F64.sub (col c row_api) (col c row_db)))
            (tolerance cfg) = false)
    /\ to_append = filter (fun r => after r (ts_max db_tail)) api_df.
Proof.
  unfold validate_overlap.
  destruct (empty (common_ts api_df db_tail)); [discriminate|].
  set (overlap := api_overlap api_df (common_ts api_df db_tail)).
  unfold bind at 1. unfold iloc_last at 1.
  destruct (rev overlap) as [|a l] eqn:Erev; [discriminate|].
  assert (Hov : overlap = rev l ++ [a]).
  { rewrite <- (rev_involutive overlap), Erev. reflexivity. }
  unfold ret at 1. unfold bind at 1.
  unfold read_last_n_rows_ending_before at 1.
  destruct (select_last_n_before _ _ _) as [db_hist|]; [|discriminate].
  destruct (negb (ok _)); [discriminate|].
  assert (Ha : In a api_df /\ In (timestamp a) (map timestamp db_tail)).
  { apply api_overlap_In. fold overlap. rewrite Hov.
    apply in_or_app. right. now left. }
  destruct Ha as [Ha1 Ha2].
  set (db_at_t := filter (fun r => timestamp r =? timestamp a) db_tail).
  assert (Hne : db_at_t <> []).
  { apply in_map_iff in Ha2. destruct Ha2 as (x & Ex & Hx).
    intros Hnil. assert (Hin : In x db_at_t).
    { apply filter_In. split; [exact Hx|]. now apply Z.eqb_eq. }
    rewrite Hnil in Hin. destruct Hin. }
  destruct (@exists_last _ db_at_t Hne) as (init_d & row_db & Hd).
  rewrite Hd, Hov. rewrite !tail_one_snoc.
  replace (empty (init_d ++ [row_db])) with false
    by (destruct init_d; reflexivity).
  cbn [negb]. unfold bind at 1. unfold bind at 1. unfold iloc at 1.
  cbn [nth_error]. unfold ret at 1. unfold bind at 1. unfold iloc at 1.
  cbn [nth_error]. unfold ret at 1.
  destruct (last_row_mismatch a row_db (tolerance cfg)) eqn:Em;
    [discriminate|].
  unfold ret at 1. unfold bind at 1.
  assert (Hw : forall l0 s0, exists s1, when (debug cfg) (print l0) s0 = (inl tt, s1)).
  { intros l0 s0. destruct (debug cfg); eexists; reflexivity. }
  match goal with
  | |- context [when (debug cfg) (print ?l0) ?s0] =>
      destruct (Hw l0 s0) as (s1 & ->)
  end.
  unfold ret. intros [= <- _].
  assert (Hdb : In row_db db_at_t).
  { rewrite Hd. apply in_or_app. right. now left. }
  apply filter_In in Hdb. destruct Hdb as [Hdb1 Hdb2].
  apply Z.eqb_eq in Hdb2.
  exists a, row_db. repeat split; auto.
  - intros r Hr1 Hr2.
    assert (Hr : In r overlap) by (apply api_overlap_In; auto).
    rewrite Hov in Hr. apply (sorted_last_is_max (rev l) a); [|exact Hr].
    rewrite <- Hov. apply RowSort_sorted.
  - now apply last_row_mismatch_none.
Qed.

(** X28. A recent-window backfill that found a stored tail and ended
    with exit code 0 has compared the newest bar that the fetch and the
    stored tail share with the stored bar of that hour: they differ by
    no more than the tolerance in every column. *)
Theorem recent_backfill_checks_last_shared_bar cfg now klines init last
    (st : State) db_tail :
  closed_window now klines = init ++ [last] ->
  select_last_n_before (table st) (db_validate_rows cfg)
    (timestamp last + HOUR) = Some db_tail ->
  db_tail <> [] ->
  finish (fst (run_once cfg now klines st)) = inl 0 ->
  exists row_api row_db,
    In row_api (closed_window now klines) /\ In row_db db_tail
    /\ timestamp row_db = timestamp row_api
    /\ (forall r, In r (closed_window now klines) ->
                  In (timestamp r) (map timestamp db_tail) ->
                  timestamp r <= timestamp row_api)
    /\ (forall c,
          F64.gtb (F64.abs (F64.sub (col c row_api) (col c row_db)))
            (tolerance cfg) = false).
Proof.
  intros Hclosed Hsel Hne Hzero.
  destruct (run_once_reads_tail cfg now klines init last st db_tail
              Hclosed Hsel) as (warn & E).
  rewrite E in Hzero. clear E.
  replace (negb (empty db_tail)) with true in Hzero
    by (destruct db_tail; [congruence|reflexivity]).
  unfold bind at 1 in Hzero.
  match type of Hzero with
  | context [validate_overlap cfg ?api ?tl ?s0] =>
      pose proof (validate_overlap_reads_only cfg api tl s0) as (_ & _ & H2);
      destruct (validate_overlap cfg api tl s0) as [[ta|stop] s1] eqn:Ev
  end.
  - destruct (validate_overlap_goes_on _ _ _ _ _ _ Ev)
      as (row_api & row_db & H).
    exists row_api, row_db. tauto.
  - cbn [fst finish] in Hzero. destruct stop as [code|e]; [|discriminate].
    injection Hzero as ->. specialize (H2 0 eq_refl). discriminate.
Qed.

(** Stored 08:00 and 09:00, fetched 08:00..11:00 at 12:00. *)
Lemma recent_backfill_checks_last_shared_bar_witness :
  let cfg := BackfillRecent.mkRunConfig 48 72 default_tolerance false false in
  let klines := [make_k 8 100; make_k 9 110; make_k 10 120; make_k 11 130] in
  let st := mkState [bar 8 100; bar 9 110] [] in
  fst (run_once cfg (at_hour 12) klines st) = inl 0
  /\ exists row_api row_db,
       In row_api (closed_window (at_hour 12) klines)
       /\ In row_db [bar 8 100; bar 9 110]
       /\ timestamp row_db = timestamp row_api.
Proof.
  intros cfg klines st.
  assert (Hrun : fst (run_once cfg (at_hour 12) klines st) = inl 0).
  { vm_compute. reflexivity. }
  split; [exact Hrun|].
  destruct (recent_backfill_checks_last_shared_bar cfg (at_hour 12) klines
              [bar 8 100; bar 9 110; bar 10 120] (bar 11 130) st
              [bar 8 100; bar 9 110] eq_refl eq_refl)
    as (row_api & row_db & H1 & H2 & H3 & _).
  - discriminate.
  - rewrite Hrun. reflexivity.
  - exists row_api, row_db. auto.
Defined.

End RecentFacts.
